(** * Conversation stream reconciliation: model and verified properties

    A shallow embedding of the reconciliation logic of the chat front end:

    - [processedMessages] (the [useMemo] of the chat interface component):
      phase-marker scan, skip-set, tool-call extraction and correlation with
      tool results;
    - [phaseDetails] and [subAgents] (the [useMemo]s of [ChatMessage.tsx]);
    - the suggestion cache, [generateSuggestionsWithLLM], [loadSuggestions]
      and the three effects of [useSuggestions.ts];
    - the running phase, the task list and the approval maps of the chat
      interface; the status row, the tool-call boxes, the reports and the
      sub-agent panels of a chat message.

    JavaScript strings are modelled by [string] (code units below 256), arrays
    by lists, the insertion-ordered [Map] and the plain object used as a cache
    by association lists in insertion order, and the [Set] of hidden indices by
    [gset Z]. *)

From Stdlib Require Import ZArith String Ascii List Lia Bool Sorted.
From stdpp Require Import base tactics option list strings gmap sets.

Local Open Scope string_scope.
Local Open Scope list_scope.
Set Warnings "-register-all".
Set Default Proof Using "Type".

(** ** JavaScript values and strings *)

Module JS.

(** A JSON document, as [JSON.parse] returns it. Numbers are the integers
    (phase numbers are integers); object members keep their textual order. *)
Inductive JSON : Type :=
  | JNull
  | JBool (b : bool)
  | JNumber (n : Z)
  | JString (s : string)
  | JArray (items : list JSON)
  | JObject (members : list (string * JSON)).

(** A value read from a property: [None] is [undefined]. *)
Definition value := option JSON.

(** [Boolean(v)], the truthiness used by [&&], [||], [!] and [if]. *)
Definition truthy_json (v : JSON) : bool :=
  match v with
  | JNull => false
  | JBool b => b
  | JNumber n => negb (n =? 0)%Z
  | JString s => negb (String.eqb s "")
  | JArray _ | JObject _ => true
  end.

Definition truthy (v : value) : bool :=
  match v with
  | None => false
  | Some j => truthy_json j
  end.

(** Truthiness of an optional string ([undefined] and [""] are falsy). *)
Definition truthy_str (s : option string) : bool :=
  match s with
  | None => false
  | Some t => negb (String.eqb t "")
  end.

(** [a || b] on optional strings. *)
Definition or_str (a b : option string) : option string :=
  if truthy_str a then a else b.

(** [a || b] on values. *)
Definition or_value (a b : value) : value :=
  if truthy a then a else b.

Fixpoint assoc {A} (k : string) (l : list (string * A)) : option A :=
  match l with
  | [] => None
  | (k', v) :: l' => if String.eqb k k' then Some v else assoc k l'
  end.

(** [v[key]] for a value that is not [null] or [undefined]: own members of an
    object; the other property reads made below (a named member of a number,
    boolean, string or array) give [undefined]. *)
Definition get (key : string) (v : JSON) : value :=
  match v with
  | JObject members => assoc key members
  | _ => None
  end.

(** [v?.[0]]: first element of an array, member ["0"] of an object. *)
Definition first_item (v : JSON) : value :=
  match v with
  | JArray items => head items
  | JObject members => assoc "0" members
  | _ => None
  end.

(** *** Strings *)

Definition dquote : string := String "034"%char EmptyString.
Definition newline : string := String "010"%char EmptyString.
Definition quoted (s : string) : string := dquote +:+ s +:+ dquote.

(** White space of [\s] and [trim] among the code units below 256. *)
Definition is_space (c : ascii) : bool :=
  let n := nat_of_ascii c in
  (n =? 9)%nat || (n =? 10)%nat || (n =? 11)%nat || (n =? 12)%nat || (n =? 13)%nat
  || (n =? 32)%nat || (n =? 160)%nat.

(** Line terminators, which [.] does not match. *)
Definition is_line_terminator (c : ascii) : bool :=
  let n := nat_of_ascii c in (n =? 10)%nat || (n =? 13)%nat.

Fixpoint starts_with (p s : string) : bool :=
  match p, s with
  | EmptyString, _ => true
  | String a p', String b s' => Ascii.eqb a b && starts_with p' s'
  | String _ _, EmptyString => false
  end.

(** [s.slice(n)] *)
Fixpoint slice_from (n : nat) (s : string) : string :=
  match n, s with
  | O, _ => s
  | S n', String _ s' => slice_from n' s'
  | S _, EmptyString => EmptyString
  end.

(** [s.slice(0, n)] *)
Fixpoint slice_to (n : nat) (s : string) : string :=
  match n, s with
  | O, _ => EmptyString
  | S n', String c s' => String c (slice_to n' s')
  | S _, EmptyString => EmptyString
  end.

(** [s.includes(p)] *)
Fixpoint includes (p s : string) : bool :=
  starts_with p s ||
  match s with
  | EmptyString => false
  | String _ s' => includes p s'
  end.

(** The text before the first occurrence of [p] and the text from it on. *)
Fixpoint split_at (p s : string) : option (string * string) :=
  if starts_with p s then Some (EmptyString, s)
  else match s with
       | EmptyString => None
       | String c s' =>
           match split_at p s' with
           | Some (before, from) => Some (String c before, from)
           | None => None
           end
       end.

Fixpoint trim_start (s : string) : string :=
  match s with
  | String c s' => if is_space c then trim_start s' else s
  | EmptyString => EmptyString
  end.

(** Removes trailing white space (the string is rebuilt from the right). *)
Fixpoint trim_end (s : string) : string :=
  match s with
  | EmptyString => EmptyString
  | String c s' =>
      match trim_end s' with
      | EmptyString => if is_space c then EmptyString else String c EmptyString
      | t => String c t
      end
  end.

(** [s.trim()] *)
Definition trim (s : string) : string := trim_end (trim_start s).

(** [s.split(/\s+/)]: the pieces between the maximal runs of white space;
    [cur] is the piece being read, [in_gap] tells that the previous code unit
    was white space. *)
Fixpoint split_ws_from (cur : string) (in_gap : bool) (s : string) : list string :=
  match s with
  | EmptyString => [cur]
  | String c s' =>
      if is_space c then
        if in_gap then split_ws_from cur true s'
        else cur :: split_ws_from EmptyString true s'
      else split_ws_from (cur +:+ String c EmptyString) false s'
  end.

Definition split_ws (s : string) : list string := split_ws_from EmptyString false s.

(** [parts.join(sep)] *)
Fixpoint join (sep : string) (parts : list string) : string :=
  match parts with
  | [] => EmptyString
  | [p] => p
  | p :: rest => p +:+ sep +:+ join sep rest
  end.

End JS.

(** ** A reader for JSON text

    [JSON.parse] belongs to the platform; the reconciliation code is verified
    for an arbitrary parser (a parameter of the model below). The reader of
    this module is the instance used to run the model on concrete message
    lists. It reads JSON text whose numerals are integers and whose strings
    stay below code unit 256; a later duplicate member replaces the earlier
    one, as in JavaScript. *)

Module JSONText.
Import JS.

Definition is_json_space (c : ascii) : bool :=
  let n := nat_of_ascii c in (n =? 32)%nat || (n =? 9)%nat || (n =? 10)%nat || (n =? 13)%nat.

Fixpoint skip_ws (s : string) : string :=
  match s with
  | String c s' => if is_json_space c then skip_ws s' else s
  | EmptyString => EmptyString
  end.

Definition digit_value (c : ascii) : option Z :=
  let n := nat_of_ascii c in
  if (48 <=? n)%nat && (n <=? 57)%nat then Some (Z.of_nat (n - 48)) else None.

Definition hex_value (c : ascii) : option nat :=
  let n := nat_of_ascii c in
  if (48 <=? n)%nat && (n <=? 57)%nat then Some (n - 48)
  else if (97 <=? n)%nat && (n <=? 102)%nat then Some (n - 87)
  else if (65 <=? n)%nat && (n <=? 70)%nat then Some (n - 55)
  else None.

(** The digits at the head of [s], read onto the accumulator. *)
Fixpoint read_digits (acc : Z) (s : string) : Z * string :=
  match s with
  | String c s' =>
      match digit_value c with
      | Some d => read_digits (10 * acc + d) s'
      | None => (acc, s)
      end
  | EmptyString => (acc, s)
  end.

Definition is_fraction_or_exponent (s : string) : bool :=
  starts_with "." s || starts_with "e" s || starts_with "E" s.

(** An unsigned integer literal: [0], or a non-zero digit and further digits. *)
Definition read_natural (s : string) : option (Z * string) :=
  match s with
  | String c s' =>
      match digit_value c with
      | Some 0%Z =>
          match s' with
          | String c' _ =>
              match digit_value c' with
              | Some _ => None
              | None => if is_fraction_or_exponent s' then None else Some (0%Z, s')
              end
          | EmptyString => Some (0%Z, s')
          end
      | Some d =>
          let '(n, rest) := read_digits d s' in
          if is_fraction_or_exponent rest then None else Some (n, rest)
      | None => None
      end
  | EmptyString => None
  end.

Definition read_number (s : string) : option (JSON * string) :=
  if starts_with "-" s then
    match read_natural (slice_from 1 s) with
    | Some (n, rest) => Some (JNumber (- n), rest)
    | None => None
    end
  else
    match read_natural s with
    | Some (n, rest) => Some (JNumber n, rest)
    | None => None
    end.

Definition escape (e : ascii) : option ascii :=
  let n := nat_of_ascii e in
  if (n =? 34)%nat then Some e
  else if (n =? 92)%nat then Some e
  else if (n =? 47)%nat then Some e
  else if (n =? 98)%nat then Some (ascii_of_nat 8)
  else if (n =? 102)%nat then Some (ascii_of_nat 12)
  else if (n =? 110)%nat then Some (ascii_of_nat 10)
  else if (n =? 114)%nat then Some (ascii_of_nat 13)
  else if (n =? 116)%nat then Some (ascii_of_nat 9)
  else None.

(** The characters of a string literal after its opening quote. *)
Fixpoint read_chars (s : string) : option (string * string) :=
  match s with
  | EmptyString => None
  | String c s' =>
      if (nat_of_ascii c =? 34)%nat then Some (EmptyString, s')
      else if (nat_of_ascii c =? 92)%nat then
        match s' with
        | String e s'' =>
            if (nat_of_ascii e =? 117)%nat then
              match s'' with
              | String h1 (String h2 (String h3 (String h4 s3))) =>
                  match hex_value h1, hex_value h2, hex_value h3, hex_value h4 with
                  | Some 0, Some 0, Some a, Some b =>
                      match read_chars s3 with
                      | Some (t, rest) => Some (String (ascii_of_nat (16 * a + b)) t, rest)
                      | None => None
                      end
                  | _, _, _, _ => None
                  end
              | _ => None
              end
            else
              match escape e, read_chars s'' with
              | Some x, Some (t, rest) => Some (String x t, rest)
              | _, _ => None
              end
        | EmptyString => None
        end
      else if (nat_of_ascii c <? 32)%nat then None
      else
        match read_chars s' with
        | Some (t, rest) => Some (String c t, rest)
        | None => None
        end
  end.

(** [o[k] = v] on the member list of an object under construction. *)
Fixpoint put_member (k : string) (v : JSON) (members : list (string * JSON))
  : list (string * JSON) :=
  match members with
  | [] => [(k, v)]
  | (k', v') :: rest =>
      if String.eqb k k' then (k, v) :: rest else (k', v') :: put_member k v rest
  end.

Fixpoint read_value (fuel : nat) (s : string) : option (JSON * string) :=
  match fuel with
  | O => None
  | S fuel' =>
      let s := skip_ws s in
      if starts_with "null" s then Some (JNull, slice_from 4 s)
      else if starts_with "true" s then Some (JBool true, slice_from 4 s)
      else if starts_with "false" s then Some (JBool false, slice_from 5 s)
      else if starts_with dquote s then
        match read_chars (slice_from 1 s) with
        | Some (t, rest) => Some (JString t, rest)
        | None => None
        end
      else if starts_with "[" s then
        let s1 := skip_ws (slice_from 1 s) in
        if starts_with "]" s1 then Some (JArray [], slice_from 1 s1)
        else read_items fuel' s1 []
      else if starts_with "{" s then
        let s1 := skip_ws (slice_from 1 s) in
        if starts_with "}" s1 then Some (JObject [], slice_from 1 s1)
        else read_members fuel' s1 []
      else read_number s
  end
with read_items (fuel : nat) (s : string) (acc : list JSON) : option (JSON * string) :=
  match fuel with
  | O => None
  | S fuel' =>
      match read_value fuel' s with
      | Some (v, rest) =>
          let rest := skip_ws rest in
          if starts_with "," rest then read_items fuel' (slice_from 1 rest) (acc ++ [v])
          else if starts_with "]" rest then Some (JArray (acc ++ [v]), slice_from 1 rest)
          else None
      | None => None
      end
  end
with read_members (fuel : nat) (s : string) (acc : list (string * JSON))
  : option (JSON * string) :=
  match fuel with
  | O => None
  | S fuel' =>
      let s := skip_ws s in
      if starts_with dquote s then
        match read_chars (slice_from 1 s) with
        | Some (k, rest) =>
            let rest := skip_ws rest in
            if starts_with ":" rest then
              match read_value fuel' (slice_from 1 rest) with
              | Some (v, rest') =>
                  let rest' := skip_ws rest' in
                  if starts_with "," rest' then
                    read_members fuel' (slice_from 1 rest') (put_member k v acc)
                  else if starts_with "}" rest' then
                    Some (JObject (put_member k v acc), slice_from 1 rest')
                  else None
              | None => None
              end
            else None
        | None => None
        end
      else None
  end.

(** The whole text must be one value; [None] stands for the [SyntaxError]. *)
Definition parse (s : string) : option JSON :=
  match read_value (2 * String.length s + 2) s with
  | Some (v, rest) =>
      match skip_ws rest with
      | EmptyString => Some v
      | String _ _ => None
      end
  | None => None
  end.

End JSONText.

Import JS.
Local Open Scope Z_scope.

(** ** Data model *)

(** [message.type] of the SDK's [Message]; [MOther] stands for the types the
    reconciliation does not look at (system, function, remove). *)
Inductive MessageType := MHuman | MAi | MTool | MOther.

Definition MessageType_eqb (a b : MessageType) : bool :=
  match a, b with
  | MHuman, MHuman | MAi, MAi | MTool, MTool | MOther, MOther => true
  | _, _ => false
  end.

(** [toolCall.function] of the structured shape. *)
Record FunctionPart := mkFunctionPart {
  fn_name : option string;
  fn_arguments : value;
}.

(** An element of one of the three tool-call shapes, or a content block: the
    optional members the code probes. *)
Record RawToolCall := mkRawToolCall {
  raw_id : option string;
  raw_function : option FunctionPart;
  raw_name : option string;
  raw_type : option string;
  raw_args : value;
  raw_input : value;
  raw_text : option string;
}.

Inductive Content :=
  | ContentString (s : string)
  | ContentBlocks (blocks : list RawToolCall).

(** The members of a [Message] that are read. A tool-call member is [Some]
    exactly when it is present and an array. *)
Record Message := mkMessage {
  msg_id : option string;
  msg_type : MessageType;
  msg_content : Content;
  additional_kwargs_tool_calls : option (list RawToolCall);
  msg_tool_calls : option (list RawToolCall);
  tool_call_id : option string;
}.

Inductive Status := pending | completed | error | interrupted.

Record ToolCall := mkToolCall {
  tc_id : string;
  tc_name : string;
  tc_args : JSON;
  tc_result : option string;
  tc_status : Status;
}.

(** A member of a parsed phase marker as the comparisons [===] see it: a
    primitive by value, an object or array by reference. The reference is the
    index of the message whose text was parsed, every parse giving fresh
    objects. *)
Inductive JSValue :=
  | VUndefined
  | VNull
  | VBool (b : bool)
  | VNumber (n : Z)
  | VString (s : string)
  | VObject (ref : Z).

#[global] Instance JSValue_eq_dec : EqDecision JSValue.
Proof. solve_decision. Defined.

#[global] Instance Status_eq_dec : EqDecision Status.
Proof. solve_decision. Defined.

(** [a === b] *)
Definition strict_equal (a b : JSValue) : bool := bool_decide (a = b).

(** [data[key]] of parsed marker data that is not [null]. *)
Definition member (ref : Z) (key : string) (data : JSON) : JSValue :=
  match get key data with
  | None => VUndefined
  | Some JNull => VNull
  | Some (JBool b) => VBool b
  | Some (JNumber n) => VNumber n
  | Some (JString s) => VString s
  | Some (JArray _) | Some (JObject _) => VObject ref
  end.

(** The value of [phaseStatusIndices]: [{ phase: data.phase, status: data.status }]. *)
Record PhaseRecord := mkPhaseRecord {
  phase : JSValue;
  status : JSValue;
}.

#[global] Instance PhaseRecord_eq_dec : EqDecision PhaseRecord.
Proof. solve_decision. Defined.

(** An entry of [messageMap]. *)
Record Entry := mkEntry {
  message : Message;
  toolCalls : list ToolCall;
}.

(** An element of the array [processedMessages] returns. *)
Record Processed := mkProcessed {
  p_message : Message;
  p_toolCalls : list ToolCall;
  showAvatar : bool;
}.

(** The sub-agent view model of [ChatMessage.tsx]; [sa_output] is the [result]
    member of [output], absent when [output] is [undefined]. *)
Record SubAgent := mkSubAgent {
  sa_id : string;
  sa_name : string;
  subAgentName : JSON;
  sa_input : JSON;
  sa_output : option string;
  sa_status : Status;
}.

(** A follow-up suggestion of [useSuggestions.ts]. *)
Record Suggestion := mkSuggestion {
  short : string;
  full : string;
}.

(** The [cacheMap] object of the suggestion cache: its members in the order
    of [Object.keys]. *)
Abbreviation Cache := (list (string * list Suggestion)).

(** ** Exceptions *)

(** The completion of a block of statements: a value, or a thrown exception. *)
Inductive Outcome (A : Type) :=
  | Returned (a : A)
  | Thrown.
Arguments Returned {A} a.
Arguments Thrown {A}.

(** Sequencing: a thrown exception skips the statements that follow. *)
Definition and_then {A B} (o : Outcome A) (k : A -> Outcome B) : Outcome B :=
  match o with
  | Returned a => k a
  | Thrown => Thrown
  end.

Notation "'let*' x ':=' o 'in' k" := (and_then o (fun x => k))
  (at level 10, x name, o at level 100, k at level 200, only parsing).

(** [try { body } catch { handler }] *)
Definition try_catch {A} (body : Outcome A) (handler : Outcome A) : Outcome A :=
  match body with
  | Returned a => Returned a
  | Thrown => handler
  end.

(** ** Content Normalizer *)

Definition block_text (b : RawToolCall) : string :=
  if bool_decide (raw_type b = Some "text") then default "" (raw_text b) else "".

(** Modelled from the spec: [extractStringFromMessageContent] of
    [@/app/utils/utils], which is not among the sources. A string content is
    returned unchanged; of a sequence of blocks the texts of the [text] blocks
    are concatenated in order, other blocks contributing nothing. *)
Definition extractStringFromMessageContent (m : Message) : string :=
  match msg_content m with
  | ContentString s => s
  | ContentBlocks blocks => String.concat "" (map block_text blocks)
  end.

(** ** Phase markers *)

(** The lazy group [(.+?)] once its first code unit is read: the shortest run
    of further code units, none a line terminator, that [__] follows. *)
Fixpoint lazy_group (s : string) : option string :=
  if starts_with "__" s then Some EmptyString
  else match s with
       | EmptyString => None
       | String c s' =>
           if is_line_terminator c then None
           else match lazy_group s' with
                | Some g => Some (String c g)
                | None => None
                end
       end.

(** A match of [/__PHASE_STATUS__(.+?)__/] starting at the head of [s]. *)
Definition marker_at (s : string) : option string :=
  if starts_with "__PHASE_STATUS__" s then
    match slice_from 16 s with
    | EmptyString => None
    | String c rest =>
        if is_line_terminator c then None
        else match lazy_group rest with
             | Some g => Some (String c g)
             | None => None
             end
    end
  else None.

(** [content.match(/__PHASE_STATUS__(.+?)__/)]: group 1 of the leftmost match. *)
Fixpoint phase_marker (content : string) : option string :=
  match marker_at content with
  | Some g => Some g
  | None =>
      match content with
      | EmptyString => None
      | String _ rest => phase_marker rest
      end
  end.

Definition isPhaseStatusMessage (content : string) : bool :=
  includes "__PHASE_STATUS__" content.

(** ** The derivation of the chat interface: [processedMessages] *)

Section Reconciliation.

(** [JSON.parse]; [None] stands for the thrown [SyntaxError]. *)
Variable JSON_parse : string -> option JSON.

(** The body of the first [messages.forEach]: the record, if any, that is put
    into [phaseStatusIndices] at [index]. Reading [data.phase] of [null]
    throws inside the [try], as a failed parse does. *)
Definition phaseRecordOf (index : Z) (m : Message) : option PhaseRecord :=
  match msg_type m with
  | MAi =>
      let content := extractStringFromMessageContent m in
      if isPhaseStatusMessage content then
        match phase_marker content with
        | Some group =>
            match JSON_parse group with
            | Some JNull => None
            | Some data =>
                Some {| phase := member index "phase" data;
                        status := member index "status" data |}
            | None => None
            end
        | None => None
        end
      else None
  | _ => None
  end.

Fixpoint scanPhases (index : Z) (messages : list Message) : list (Z * PhaseRecord) :=
  match messages with
  | [] => []
  | m :: rest =>
      match phaseRecordOf index m with
      | Some r => (index, r) :: scanPhases (index + 1) rest
      | None => scanPhases (index + 1) rest
      end
  end.

(** The entries of the [Map] [phaseStatusIndices], in insertion order. *)
Definition phaseStatusIndices (messages : list Message) : list (Z * PhaseRecord) :=
  scanPhases 0 messages.

(** [Set.prototype.add] on an insertion-ordered set. *)
Definition set_add (x : JSValue) (s : list JSValue) : list JSValue :=
  if bool_decide (x ∈ s) then s else s ++ [x].

Definition completedPhases (messages : list Message) : list JSValue :=
  foldl (fun acc (e : Z * PhaseRecord) =>
           if strict_equal (status e.2) (VString "completed")
           then set_add (phase e.2) acc else acc)
        [] (phaseStatusIndices messages).

Fixpoint insert_by_index (e : Z * PhaseRecord) (l : list (Z * PhaseRecord))
  : list (Z * PhaseRecord) :=
  match l with
  | [] => [e]
  | x :: l' => if e.1 <? x.1 then e :: x :: l' else x :: insert_by_index e l'
  end.

(** [entries.sort((a, b) => a[0] - b[0])]; the sort is stable. *)
Definition sort_by_index (l : list (Z * PhaseRecord)) : list (Z * PhaseRecord) :=
  foldr insert_by_index [] l.

Definition phaseStatusArray (messages : list Message) : list (Z * PhaseRecord) :=
  sort_by_index (phaseStatusIndices messages).

(** The body of [phaseStatusArray.forEach] for one phase; the pair is
    [(startedIndex, completedIndex)]. *)
Definition pairStep (p : JSValue) (acc : Z * Z) (e : Z * PhaseRecord) : Z * Z :=
  if strict_equal (phase e.2) p then
    if strict_equal (status e.2) (VString "started") then (e.1, acc.2)
    else if strict_equal (status e.2) (VString "completed") then (acc.1, e.1)
    else acc
  else acc.

(** [startedIndex] and [completedIndex] after the inner loop, both starting
    at [-1]. *)
Definition phasePair (array : list (Z * PhaseRecord)) (p : JSValue) : Z * Z :=
  foldl (pairStep p) (-1, -1) array.

Definition nonempty {A} (o : option (list A)) : bool :=
  match o with
  | Some (_ :: _) => true
  | _ => false
  end.

Definition is_tool_use (b : RawToolCall) : bool :=
  bool_decide (raw_type b = Some "tool_use").

(** [hasToolCalls] of the hiding loop. *)
Definition hasToolCalls (msg : Message) : bool :=
  nonempty (additional_kwargs_tool_calls msg)
  || nonempty (msg_tool_calls msg)
  || match msg_content msg with
     | ContentBlocks blocks => existsb is_tool_use blocks
     | ContentString _ => false
     end.

(** The body of the [for] loop at [j]. Every [j] the loop visits is the index
    of a message, lying between two of them. *)
Definition hideStep (messages : list Message) (skip : gset Z) (j : Z) : gset Z :=
  match messages !! Z.to_nat j with
  | Some msg =>
      match msg_type msg with
      | MAi => if hasToolCalls msg then skip else {[ j ]} ∪ skip
      | _ => skip
      end
  | None => skip
  end.

(** The body of [completedPhases.forEach]: what one phase adds to
    [skipIndices]. *)
Definition hidePhase (messages : list Message) (skip : gset Z) (p : JSValue) : gset Z :=
  let '(startedIndex, completedIndex) := phasePair (phaseStatusArray messages) p in
  if negb (startedIndex =? -1) && negb (completedIndex =? -1) then
    foldl (hideStep messages) ({[ startedIndex ]} ∪ skip)
          (seqZ (startedIndex + 1) (completedIndex - startedIndex - 1))
  else skip.

Definition skipIndices (messages : list Message) : gset Z :=
  foldl (hidePhase messages) ∅ (completedPhases messages).

(** *** Tool calls *)

Definition name_not_empty (t : RawToolCall) : bool :=
  negb (bool_decide (raw_name t = Some "")).

(** [toolCallsInMessage] after the three-way [if]. *)
Definition toolCallsInMessage (m : Message) : list RawToolCall :=
  match additional_kwargs_tool_calls m with
  | Some calls => calls
  | None =>
      match msg_tool_calls m with
      | Some calls => filter name_not_empty calls
      | None =>
          match msg_content m with
          | ContentBlocks blocks => filter is_tool_use blocks
          | ContentString _ => []
          end
      end
  end.

Definition resolveName (t : RawToolCall) : string :=
  default "unknown"
    (or_str (or_str (or_str (raw_function t ≫= fn_name) (raw_name t)) (raw_type t))
            (Some "unknown")).

Definition resolveArgs (t : RawToolCall) : JSON :=
  default (JObject [])
    (or_value (or_value (or_value (raw_function t ≫= fn_arguments) (raw_args t))
                        (raw_input t))
              (Some (JObject []))).

(** The callback of [toolCallsInMessage.map]. [random n] is the text of the
    [n]-th number [Math.random()] returns; the count of the draws made so far
    is threaded through. *)
Definition toToolCall (interrupt : bool) (random : nat -> string)
    (n : nat) (t : RawToolCall) : ToolCall * nat :=
  let name := resolveName t in
  let args := resolveArgs t in
  let '(id, n') :=
    if truthy_str (raw_id t) then (default "" (raw_id t), n)
    else ("tool-" +:+ random n, S n) in
  ({| tc_id := id; tc_name := name; tc_args := args; tc_result := None;
      tc_status := if interrupt then interrupted else pending |}, n').

Fixpoint toolCallsWithStatus (interrupt : bool) (random : nat -> string)
    (n : nat) (raws : list RawToolCall) : list ToolCall * nat :=
  match raws with
  | [] => ([], n)
  | t :: rest =>
      let '(tc, n1) := toToolCall interrupt random n t in
      let '(tcs, n2) := toolCallsWithStatus interrupt random n1 rest in
      (tc :: tcs, n2)
  end.

(** *** The message map and the second pass *)

(** [map.set(key, value)]: a present key keeps its place. *)
Fixpoint map_set (key : option string) (v : Entry)
    (m : list (option string * Entry)) : list (option string * Entry) :=
  match m with
  | [] => [(key, v)]
  | (k, old) :: rest =>
      if bool_decide (k = key) then (k, v) :: rest
      else (k, old) :: map_set key v rest
  end.

(** [array.findIndex(pred)], [None] for [-1]. *)
Fixpoint findIndex {A} (pred : A -> bool) (l : list A) : option nat :=
  match l with
  | [] => None
  | x :: rest => if pred x then Some O else S <$> findIndex pred rest
  end.

Definition has_id (toolCallId : string) (tc : ToolCall) : bool :=
  String.eqb (tc_id tc) toolCallId.

(** [{ ...toolCall, status: "completed", result }] *)
Definition complete (result : string) (tc : ToolCall) : ToolCall :=
  {| tc_id := tc_id tc; tc_name := tc_name tc; tc_args := tc_args tc;
     tc_result := Some result; tc_status := completed |}.

(** The [for ... of messageMap.entries()] loop of a tool message: the first
    entry holding a tool call with the identifier has that tool call replaced,
    and the loop breaks. *)
Fixpoint applyToolResult (toolCallId result : string)
    (m : list (option string * Entry)) : list (option string * Entry) :=
  match m with
  | [] => []
  | (k, data) :: rest =>
      match findIndex (has_id toolCallId) (toolCalls data) with
      | None => (k, data) :: applyToolResult toolCallId result rest
      | Some toolCallIndex =>
          (k, {| message := message data;
                 toolCalls := alter (complete result) toolCallIndex (toolCalls data) |})
          :: rest
      end
  end.

(** The state of the second [messages.forEach]: [messageMap] and the number
    of [Math.random()] draws made. *)
Definition PassState : Type := list (option string * Entry) * nat.

(** The body of the second [messages.forEach]. *)
Definition processMessage (skip : gset Z) (interrupt : bool) (random : nat -> string)
    (st : PassState) (index : Z) (m : Message) : PassState :=
  if bool_decide (index ∈ skip) then st
  else
    match msg_type m with
    | MAi =>
        let '(calls, n') :=
          toolCallsWithStatus interrupt random st.2 (toolCallsInMessage m) in
        (map_set (msg_id m) {| message := m; toolCalls := calls |} st.1, n')
    | MTool =>
        if truthy_str (tool_call_id m) then
          (applyToolResult (default "" (tool_call_id m))
                           (extractStringFromMessageContent m) st.1, st.2)
        else st
    | MHuman => (map_set (msg_id m) {| message := m; toolCalls := [] |} st.1, st.2)
    | MOther => st
    end.

Fixpoint secondPass (skip : gset Z) (interrupt : bool) (random : nat -> string)
    (st : PassState) (index : Z) (messages : list Message) : PassState :=
  match messages with
  | [] => st
  | m :: rest =>
      secondPass skip interrupt random
                 (processMessage skip interrupt random st index m) (index + 1) rest
  end.

(** [messageMap] when the second pass is over. *)
Definition messageMap (messages : list Message) (interrupt : bool)
    (random : nat -> string) : list (option string * Entry) :=
  (secondPass (skipIndices messages) interrupt random ([], O) 0 messages).1.

(** [processedArray.map((data, index) => ...)], [prev] being the message of
    the element before. *)
Fixpoint withAvatars (prev : option Message) (entries : list Entry) : list Processed :=
  match entries with
  | [] => []
  | data :: rest =>
      {| p_message := message data;
         p_toolCalls := toolCalls data;
         showAvatar :=
           match prev with
           | Some p => negb (MessageType_eqb (msg_type (message data)) (msg_type p))
           | None => true
           end |}
      :: withAvatars (Some (message data)) rest
  end.

Definition processedMessages (messages : list Message) (interrupt : bool)
    (random : nat -> string) : list Processed :=
  withAvatars None (map snd (messageMap messages interrupt random)).

(** ** [ChatMessage.tsx] *)

(** [parsePhaseStatus]: the parsed marker, [None] for the [null] it returns
    without a match or on a parse error. *)
Definition parsePhaseStatus (content : string) : value :=
  match phase_marker content with
  | Some group => JSON_parse group
  | None => None
  end.

(** [status && status.phase === p && status.status === "started"] for the
    marker parsed from the message at [i]. *)
Definition isStartedOf (p : JSValue) (i : Z) (m : Message) : bool :=
  match parsePhaseStatus (extractStringFromMessageContent m) with
  | Some st =>
      truthy_json st
      && strict_equal (member i "phase" st) p
      && strict_equal (member i "status" st) (VString "started")
  | None => false
  end.

(** The backwards [for] loop, [i] being one more than the index looked at
    next. *)
Fixpoint findStarted (p : JSValue) (allMessages : list Message) (i : nat) : option nat :=
  match i with
  | O => None
  | S i' =>
      match allMessages !! i' with
      | Some m =>
          if isStartedOf p (Z.of_nat i') m then Some i' else findStarted p allMessages i'
      | None => findStarted p allMessages i'
      end
  end.

(** The test of the collecting loop: an agent message whose text holds no
    (truthy) phase status and is not blank. *)
Definition isDetail (msg : Message) : bool :=
  match msg_type msg with
  | MAi =>
      let content := extractStringFromMessageContent msg in
      negb (truthy (parsePhaseStatus content))
      && negb (String.eqb (trim content) "")
  | _ => false
  end.

(** The messages at the indices [startedIndex + 1 .. completedIndex - 1]. *)
Definition between (startedIndex completedIndex : nat) (allMessages : list Message)
  : list Message :=
  take (completedIndex - (startedIndex + 1)) (drop (startedIndex + 1) allMessages).

Definition detailMessages (startedIndex completedIndex : nat)
    (allMessages : list Message) : list string :=
  map extractStringFromMessageContent
      (filter isDetail (between startedIndex completedIndex allMessages)).

Definition same_id (a b : Message) : bool := bool_decide (msg_id a = msg_id b).

(** [phaseDetails]; the marker of the message itself is parsed apart from the
    ones of the list (reference [-1]). *)
Definition phaseDetails (msg : Message) (allMessages : list Message) : option string :=
  let phaseStatus :=
    match msg_type msg with
    | MHuman => None
    | _ => parsePhaseStatus (extractStringFromMessageContent msg)
    end in
  match phaseStatus with
  | Some ps =>
      if negb (truthy_json ps)
         || negb (strict_equal (member (-1) "status" ps) (VString "completed"))
         || bool_decide (allMessages = [])
      then None
      else
        match findIndex (same_id msg) allMessages with
        | None => None
        | Some completedIndex =>
            match findStarted (member (-1) "phase" ps) allMessages completedIndex with
            | None => None
            | Some startedIndex =>
                match detailMessages startedIndex completedIndex allMessages with
                | [] => None
                | details => Some (join (newline +:+ newline) details)
                end
            end
        end
  | None => None
  end.

(** [v === ""] *)
Definition is_empty_string (v : value) : bool :=
  match v with
  | Some (JString s) => String.eqb s ""
  | _ => false
  end.

(** [v === null] *)
Definition is_null (v : value) : bool :=
  match v with
  | Some JNull => true
  | _ => false
  end.

(** The callback of [toolCalls.filter]. *)
Definition isSubAgentCall (toolCall : ToolCall) : bool :=
  String.eqb (tc_name toolCall) "task"
  && truthy (get "subagent_type" (tc_args toolCall))
  && negb (is_empty_string (get "subagent_type" (tc_args toolCall)))
  && negb (is_null (get "subagent_type" (tc_args toolCall))).

Definition toSubAgent (toolCall : ToolCall) : SubAgent :=
  {| sa_id := tc_id toolCall;
     sa_name := tc_name toolCall;
     subAgentName := default JNull (get "subagent_type" (tc_args toolCall));
     sa_input := tc_args toolCall;
     sa_output := if truthy_str (tc_result toolCall) then tc_result toolCall else None;
     sa_status := tc_status toolCall |}.

(** [subAgents] *)
Definition subAgents (toolCalls : list ToolCall) : list SubAgent :=
  map toSubAgent (filter isSubAgentCall toolCalls).

(** ** Suggestions: [useSuggestions.ts] *)

Definition DEFAULT_SUGGESTIONS : list Suggestion := [
  {| short := "Research this";
     full := "Please help me conduct thorough research on this topic. I'd like you to explore multiple perspectives, gather relevant data and statistics, identify key experts and sources, and provide a comprehensive overview of the current state of knowledge in this area." |};
  {| short := "Summarize points";
     full := "Please summarize the key points from our conversation so far. Highlight the most important insights, decisions made, action items identified, and any outstanding questions that still need to be addressed. Organize the summary in a clear and structured format." |};
  {| short := "Next steps";
     full := "Based on our discussion, what are the recommended next steps I should take? Please provide a prioritized list of actions with clear explanations for each, including any dependencies, estimated effort, and potential risks or considerations I should be aware of." |};
  {| short := "Explain details";
     full := "Please explain this concept in more detail. Break it down into simpler components, provide relevant examples and analogies, clarify any technical terms, and help me understand both the fundamentals and the nuances of this topic." |};
  {| short := "Create plan";
     full := "Help me create a comprehensive plan for this project or goal. Include clear objectives, milestones, timelines, resource requirements, potential challenges and mitigation strategies, and success metrics. Structure the plan in phases if appropriate." |};
  {| short := "Find related";
     full := "Please help me find related information, resources, and connections to this topic. Identify relevant articles, studies, tools, communities, or experts that could provide additional insights. Explain how each resource relates to my current needs." |};
  {| short := "Compare options";
     full := "Please compare the different options or approaches we've discussed. Create a structured comparison covering pros and cons, costs and benefits, risks and opportunities, and provide a recommendation based on the specific criteria and constraints of my situation." |};
  {| short := "Generate ideas";
     full := "Help me brainstorm and generate creative ideas for this challenge. Think outside the box, consider unconventional approaches, draw inspiration from different domains, and provide a diverse range of options from practical to innovative solutions." |};
  {| short := "Review improve";
     full := "Please review what we have so far and suggest improvements. Identify areas that could be strengthened, point out any gaps or inconsistencies, recommend specific enhancements, and help me elevate the quality and effectiveness of this work." |};
  {| short := "Key questions";
     full := "What are the most important questions I should be asking about this topic or situation? Help me identify blind spots, critical considerations I might have missed, and the key inquiries that will lead to better understanding and decision-making." |};
  {| short := "Identify issues";
     full := "Please help me identify potential issues, risks, or problems that could arise. Consider technical, practical, and strategic perspectives. For each issue identified, suggest possible mitigation strategies or preventive measures I could implement." |};
  {| short := "Best practices";
     full := "What are the industry best practices and proven approaches for this type of situation? Share relevant frameworks, methodologies, and lessons learned from successful implementations. Help me understand what separates good execution from great execution." |};
  {| short := "Simplify this";
     full := "Please help me simplify this concept or process. Break it down into its most essential components, remove unnecessary complexity, and present it in a way that is easier to understand and implement. Focus on clarity and accessibility." |};
  {| short := "Provide examples";
     full := "Please provide concrete examples that illustrate this concept or approach. Include real-world scenarios, case studies, or practical demonstrations that help me understand how this applies in different contexts and situations." |};
  {| short := "Analyze deeper";
     full := "Help me analyze this topic more deeply. Look beyond the surface level, examine underlying patterns and relationships, consider different angles and perspectives, and provide insights that reveal the deeper significance and implications." |};
  {| short := "Create checklist";
     full := "Please create a comprehensive checklist for this task or project. Include all the essential steps, important considerations, quality checks, and verification points that I should address to ensure thorough and successful completion." |};
  {| short := "Suggest tools";
     full := "What tools, technologies, or resources would you recommend for this task? Please provide specific suggestions with brief explanations of why each tool is suitable, including any alternatives and considerations for different use cases." |};
  {| short := "Estimate effort";
     full := "Help me estimate the time, resources, and effort required for this task or project. Consider different scenarios, identify factors that could affect the timeline, and provide realistic expectations along with any assumptions made." |};
  {| short := "Explore alternatives";
     full := "Please explore alternative approaches or solutions to this problem. Present different options I might not have considered, compare their trade-offs, and help me understand which alternatives might work best under different circumstances." |};
  {| short := "Validate approach";
     full := "Please help me validate this approach or solution. Review the logic and assumptions, identify potential weaknesses or blind spots, suggest improvements, and confirm whether this is a sound and viable path forward." |}
].

(** *** The cache

    The item stored under [SUGGESTIONS_CACHE_KEY] is written by
    [saveSuggestionsToCache] alone, as the [JSON.stringify] of a [cacheMap];
    it is kept here in parsed form, its keys in the order of [Object.keys].
    The keys the hook builds hold an underscore, so none is an array index and
    [Object.keys] lists them in insertion order. [None] is the absent item.
    The hook runs in the browser with a working storage: the guards for
    rendering on the server and for exceptions of the storage are left out. *)

(** [cacheMap[key] = v] *)
Fixpoint obj_set (key : string) (v : list Suggestion) (cacheMap : Cache) : Cache :=
  match cacheMap with
  | [] => [(key, v)]
  | (k, old) :: rest =>
      if String.eqb k key then (k, v) :: rest else (k, old) :: obj_set key v rest
  end.

(** [delete cacheMap[key]] *)
Definition obj_delete (cacheMap : Cache) (key : string) : Cache :=
  filter (fun e : string * list Suggestion => negb (String.eqb e.1 key)) cacheMap.

Definition getCachedSuggestions (cacheKey : string) (storage : option Cache)
  : option (list Suggestion) :=
  match storage with
  | None => None
  | Some cacheMap => assoc cacheKey cacheMap
  end.

Definition saveSuggestionsToCache (cacheKey : string) (suggestions : list Suggestion)
    (storage : option Cache) : option Cache :=
  let cacheMap := obj_set cacheKey suggestions (default [] storage) in
  let keys := map fst cacheMap in
  Some (if (50 <? length keys)%nat
        then foldl obj_delete cacheMap (take (length keys - 50) keys)
        else cacheMap).

(** *** The generation call *)

Record OpenRouterConfig := mkOpenRouterConfig {
  or_apiKey : option string;
  or_baseUrl : option string;
}.

(** The members of the configuration ([@/lib/config], not among the sources)
    that the generation call reads. *)
Record Config := mkConfig {
  activeProvider : option string;
  openaiApiKey : option string;
  anthropicApiKey : option string;
  googleApiKey : option string;
  openRouterConfig : option OpenRouterConfig;
  (* of an overrides object, its [suggestions] member *)
  modelOverridesByProvider : option (list (string * option string));
  modelOverrides : option (option string);
  selectedModels : option (list (string * string));
  selectedModel : option string;
}.

(** What is sent to [fetch]: the address, the bearer key, the model and the
    part of the conversation put into the user prompt (the fixed texts of the
    two prompts are left out). *)
Record Request := mkRequest {
  req_url : string;
  req_apiKey : string;
  req_model : string;
  req_context : string;
}.

(** What [fetch] and the reading of the response body come to. *)
Inductive FetchResult :=
  | FetchRejected
  | ResponseNotOk
  | ResponseBodyRejected
  | ResponseJson (data : JSON).

Definition presets : list (string * string) :=
  [ ("OpenRouter", "https://openrouter.ai/api/v1");
    ("DeerAPI", "https://api.deerapi.com/v1");
    ("ZenMux", "https://zenmux.ai/api/v1");
    ("Together AI", "https://api.together.xyz/v1");
    ("Groq", "https://api.groq.com/openai/v1");
    ("Fireworks", "https://api.fireworks.ai/inference/v1");
    ("Ollama (Local)", "http://localhost:11434/v1") ].

Definition providerKeyOf (config : option Config) : string :=
  let active := default "" (config ≫= activeProvider) in
  let baseUrl := (config ≫= openRouterConfig) ≫= or_baseUrl in
  if String.eqb active "openrouter" && truthy_str baseUrl then
    match List.find (fun p : string * string => String.eqb p.2 (default "" baseUrl)) presets with
    | Some p => "openrouter:" +:+ p.1
    | None => "openrouter:Custom"
    end
  else active.

Definition effectiveModelOf (config : option Config) : string :=
  let providerKey := providerKeyOf config in
  let suggestionsModel :=
    match (config ≫= modelOverridesByProvider) ≫= assoc providerKey with
    | Some overrides => overrides
    | None => mjoin (config ≫= modelOverrides)
    end in
  let primaryModel :=
    match truthy_str (config ≫= activeProvider), config ≫= selectedModels with
    | true, Some models =>
        or_str (assoc providerKey models)
               (assoc (default "" (config ≫= activeProvider)) models)
    | _, _ => config ≫= selectedModel
    end in
  default "gpt-4o-mini"
    (or_str (or_str suggestionsModel primaryModel) (Some "gpt-4o-mini")).

(** The group of [/```(?:json)?\s*([\s\S]*?)```/] for a match at the head. *)
Definition fence_at (s : string) : option string :=
  if starts_with "```" s then
    let r := slice_from 3 s in
    let r := if starts_with "json" r then slice_from 4 r else r in
    fst <$> split_at "```" (trim_start r)
  else None.

Fixpoint fence_match (s : string) : option string :=
  match fence_at s with
  | Some g => Some g
  | None =>
      match s with
      | EmptyString => None
      | String _ rest => fence_match rest
      end
  end.

(** The prefix of [s] that ends with its last [']']. *)
Fixpoint up_to_last_bracket (s : string) : option string :=
  match s with
  | EmptyString => None
  | String c rest =>
      match up_to_last_bracket rest with
      | Some t => Some (String c t)
      | None => if Ascii.eqb c "]" then Some (String c EmptyString) else None
      end
  end.

(** [fullResponse.match(/\[[\s\S]*\]/)] *)
Definition array_match (s : string) : option string :=
  match split_at "[" s with
  | Some (_, from) => up_to_last_bracket from
  | None => None
  end.

Definition jsonStrOf (fullResponse : string) : string :=
  match fence_match fullResponse with
  | Some g => trim g
  | None => default fullResponse (array_match fullResponse)
  end.

(** The callback of [parsed.filter]. *)
Definition isValidSuggestion (s : JSON) : bool :=
  match s with
  | JObject members =>
      match assoc "short" members, assoc "full" members with
      | Some (JString _), Some (JString f) => (15 <=? length (split_ws f))%nat
      | _, _ => false
      end
  | _ => false
  end.

(** The callback of [.map] after the filter. *)
Definition toSuggestion (s : JSON) : Suggestion :=
  match get "short" s, get "full" s with
  | Some (JString sh), Some (JString f) => {| short := slice_to 30 sh; full := f |}
  | _, _ => {| short := ""; full := "" |}
  end.

Definition validSuggestions (parsed : list JSON) : list Suggestion :=
  map toSuggestion (take 20 (filter isValidSuggestion parsed)).

(** [o?.[key]] on a value. *)
Definition opt_get (key : string) (v : value) : value :=
  match v with
  | None | Some JNull => None
  | Some j => get key j
  end.

(** [data.choices?.[0]?.message?.content]; reading [choices] of [null]
    throws. *)
Definition contentOf (data : JSON) : Outcome value :=
  match data with
  | JNull => Thrown
  | _ =>
      let first :=
        match get "choices" data with
        | None | Some JNull => None
        | Some choices => first_item choices
        end in
      Returned (opt_get "content" (opt_get "message" first))
  end.

(** The inner [try] block; [Returned None] is the end of the block without a
    [return]. *)
Definition parseSuggestions (jsonStr : string) : Outcome (option (list Suggestion)) :=
  match JSON_parse jsonStr with
  | None => Thrown
  | Some (JArray (item :: items)) =>
      let valid := validSuggestions (item :: items) in
      if (3 <=? length valid)%nat then Returned (Some valid) else Returned None
  | Some _ => Returned None
  end.

(** The outer [try] block. *)
Definition requestSuggestions (fetch : Request -> FetchResult) (req : Request)
  : Outcome (option (list Suggestion)) :=
  match fetch req with
  | FetchRejected => Thrown
  | ResponseNotOk => Returned (Some DEFAULT_SUGGESTIONS)
  | ResponseBodyRejected => Thrown
  | ResponseJson data =>
      let* content := contentOf data in
      if truthy content then
        match content with
        | Some (JString fullResponse) =>
            try_catch (parseSuggestions (jsonStrOf fullResponse)) (Returned None)
        | _ => Thrown
        end
      else Returned None
  end.

(** The provider branch at the head of the generation call. *)
Inductive Credentials :=
  | UseDefaults
  | Credential (apiKey : option string) (baseUrl : string).

Definition credentialsOf (config : option Config) : Credentials :=
  let active p := bool_decide (config ≫= activeProvider = Some p) in
  if active "openai" && truthy_str (config ≫= openaiApiKey) then
    Credential (config ≫= openaiApiKey) "https://api.openai.com/v1"
  else if active "anthropic" && truthy_str (config ≫= anthropicApiKey) then UseDefaults
  else if active "google" && truthy_str (config ≫= googleApiKey) then UseDefaults
  else if active "openrouter" && truthy_str ((config ≫= openRouterConfig) ≫= or_apiKey) then
    Credential ((config ≫= openRouterConfig) ≫= or_apiKey)
               (default "https://openrouter.ai/api/v1"
                  (or_str ((config ≫= openRouterConfig) ≫= or_baseUrl)
                          (Some "https://openrouter.ai/api/v1")))
  else Credential None "https://api.openai.com/v1".

(** [generateSuggestionsWithLLM]; [config] is what [getConfig()] returns, and
    the outcome is the settlement of the promise. *)
Definition generateSuggestionsWithLLM (config : option Config)
    (fetch : Request -> FetchResult) (conversationContext : string)
  : Outcome (list Suggestion) :=
  match credentialsOf config with
  | UseDefaults => Returned DEFAULT_SUGGESTIONS
  | Credential apiKey baseUrl =>
      if negb (truthy_str apiKey) then Returned DEFAULT_SUGGESTIONS
      else
        let req := {| req_url := baseUrl +:+ "/chat/completions";
                      req_apiKey := default "" apiKey;
                      req_model := effectiveModelOf config;
                      req_context := slice_to 3000 conversationContext |} in
        let* r := try_catch (requestSuggestions fetch req) (Returned None) in
        match r with
        | Some suggestions => Returned suggestions
        | None => Returned DEFAULT_SUGGESTIONS
        end
  end.

(** *** [loadSuggestions] *)

(** [formatConversationForLLM] of [@/app/utils/utils], not among the sources:
    the transcript given to the generation call. *)
Variable formatConversationForLLM : list Message -> string.

Inductive LogEntry :=
  | UsingCached (cachedKey : string)
  | GeneratingNew (cachedKey : string).

(** What [loadSuggestions] reads and writes: the two pieces of hook state,
    the stored cache and the console. *)
Record HookState := mkHookState {
  suggestions : list Suggestion;
  isRefreshing : bool;
  storage : option Cache;
  console : list LogEntry;
}.

(** [getLastAIMessageContext]: the [id] of the last agent message (its
    [content] is not used by the callers modelled here). *)
Fixpoint getLastAIMessageContext (messages : list Message) : option (option string) :=
  match messages with
  | [] => None
  | m :: rest =>
      match getLastAIMessageContext rest with
      | Some found => Some found
      | None => match msg_type m with MAi => Some (msg_id m) | _ => None end
      end
  end.

(** [`${threadId || "new"}_${id}`] *)
Definition cachedKeyOf (threadId : option string) (id : option string) : string :=
  default "new" (or_str threadId (Some "new")) +:+ "_" +:+ default "undefined" id.

Definition loadSuggestions (config : option Config) (fetch : Request -> FetchResult)
    (threadId : option string) (messages : list Message) (st : HookState) : HookState :=
  match getLastAIMessageContext messages with
  | None =>
      {| suggestions := DEFAULT_SUGGESTIONS; isRefreshing := isRefreshing st;
         storage := storage st; console := console st |}
  | Some id =>
      let cachedKey := cachedKeyOf threadId id in
      match getCachedSuggestions cachedKey (storage st) with
      | Some cachedSuggestions =>
          {| suggestions := cachedSuggestions; isRefreshing := isRefreshing st;
             storage := storage st;
             console := console st ++ [UsingCached cachedKey] |}
      | None =>
          let log := console st ++ [GeneratingNew cachedKey] in
          match generateSuggestionsWithLLM config fetch
                  (formatConversationForLLM messages) with
          | Returned newSuggestions =>
              {| suggestions := newSuggestions; isRefreshing := false;
                 storage := saveSuggestionsToCache cachedKey newSuggestions (storage st);
                 console := log |}
          | Thrown =>
              {| suggestions := DEFAULT_SUGGESTIONS; isRefreshing := false;
                 storage := storage st; console := log |}
          end
      end
  end.

(** ** Notions used in the statements *)




(** The records are in the order of their indices. *)
Definition increasing (l : list (Z * PhaseRecord)) : Prop :=
  StronglySorted (fun a b : Z * PhaseRecord => a.1 < b.1) l.

(** [e] is a record of phase [p] with status [st]. *)
Definition isRecord (p : JSValue) (st : string) (e : Z * PhaseRecord) : bool :=
  bool_decide (e.2 = {| phase := p; status := VString st |}).

(** [x] is the index of the last record of phase [p] with status [st] among
    [records], or [-1] when there is none. *)
Definition latest (records : list (Z * PhaseRecord)) (p : JSValue) (st : string)
    (x : Z) : Prop :=
  let r := {| phase := p; status := VString st |} in
  (x = -1 /\ forall i, (i, r) ∉ records)
  \/ ((x, r) ∈ records /\ forall i, (i, r) ∈ records -> i <= x).

(** Phase [p] puts the index [k] into the skip-set: it has a last started
    record at [s] and a last completed record at [c], and [k] is [s] or the
    index of an agent message strictly between them for which none of the
    three tool-call shapes is non-empty. *)
Definition contributes (messages : list Message) (p : JSValue) (k : Z) : Prop :=
  exists s c,
    phasePair (phaseStatusArray messages) p = (s, c)
    /\ s <> -1 /\ c <> -1
    /\ (k = s
        \/ (s < k < c
            /\ exists m, messages !! Z.to_nat k = Some m
                         /\ msg_type m = MAi /\ hasToolCalls m = false)).

(** [e] is a record of phase [p] whose status is one of [statuses]. *)
Definition isMarkerOf (p : JSValue) (statuses : list string) (e : Z * PhaseRecord) : bool :=
  strict_equal (phase e.2) p
  && existsb (fun st => strict_equal (status e.2) (VString st)) statuses.

(** The pairing the specification describes: the earliest started record of
    the phase with the earliest later completed or error record. *)
Definition spec_pairing (records : list (Z * PhaseRecord)) (p : JSValue)
  : option (Z * Z) :=
  match List.find (isMarkerOf p ["started"]) records with
  | Some s =>
      match List.find (fun e => (s.1 <? e.1) && isMarkerOf p ["completed"; "error"] e)
                      records with
      | Some c => Some (s.1, c.1)
      | None => None
      end
  | None => None
  end.

(** An entry of the message map holds a tool call with the identifier. *)
Definition holds_id (toolCallId : string) (e : option string * Entry) : Prop :=
  exists tc, tc ∈ toolCalls e.2 /\ tc_id tc = toolCallId.

(** What a derivation shows of the tool calls apart from their identifiers. *)
Definition shown (tc : ToolCall) : string * JSON * option string * Status :=
  (tc_name tc, tc_args tc, tc_result tc, tc_status tc).

(** What a derivation shows: the messages, their tool calls apart from the
    identifiers, and the avatar flags. *)
Definition statuses (processed : list Processed)
  : list (Message * list (string * JSON * option string * Status) * bool) :=
  map (fun d => (p_message d, map shown (p_toolCalls d), showAvatar d)) processed.

(** Some tool result of the list refers to the identifier [c]. *)
Definition answered (messages : list Message) (c : string) : Prop :=
  exists m, m ∈ messages /\ msg_type m = MTool /\ tool_call_id m = Some c.

(** No tool result of the list refers to an identifier that [Math.random()]
    can lead to. *)
Definition unguessed (random : nat -> string) (messages : list Message) : Prop :=
  forall n, ~ answered messages ("tool-" +:+ random n).

(** No tool result of the list refers to [tool-<text>]. *)
Definition unanswered (text : string) (messages : list Message) : bool :=
  forallb (fun m => negb (MessageType_eqb (msg_type m) MTool
                          && bool_decide (tool_call_id m = Some ("tool-" +:+ text))))
          messages.

(** Two tool calls show the same and are matched by the same tool results of
    the list. *)
Definition alike (messages : list Message) (a b : ToolCall) : Prop :=
  shown a = shown b
  /\ forall c, answered messages c -> (tc_id a = c <-> tc_id b = c).

(** Two entries of the message map have the same key and message, and tool
    calls that are alike. *)
Definition alike_entries (messages : list Message)
    (e1 e2 : option string * Entry) : Prop :=
  e1.1 = e2.1 /\ message e1.2 = message e2.2
  /\ Forall2 (alike messages) (toolCalls e1.2) (toolCalls e2.2).

(** From [a] to [b] the identifier is kept and a completed status stays. *)
Definition advances (a b : ToolCall) : Prop :=
  tc_id a = tc_id b /\ (tc_status a = completed -> tc_status b = completed).

(** The same, for the tool calls of two entries with one key. *)
Definition entries_advance (e e' : option string * Entry) : Prop :=
  e.1 = e'.1 /\ Forall2 advances (toolCalls e.2) (toolCalls e'.2).



(** ** Sample inputs *)

(** A message whose content is a string and that has no tool call. *)
Definition text_message (id : string) (type : MessageType) (text : string) : Message :=
  {| msg_id := Some id; msg_type := type; msg_content := ContentString text;
     additional_kwargs_tool_calls := None; msg_tool_calls := None;
     tool_call_id := None |}.

(** An element of a tool-call array with an identifier and a name. *)
Definition call (id name : string) : RawToolCall :=
  {| raw_id := Some id; raw_function := None; raw_name := Some name;
     raw_type := None; raw_args := Some (JObject []); raw_input := None;
     raw_text := None |}.

(** An agent message with the first-class tool-call array [calls]. *)
Definition calling_message (id text : string) (calls : list RawToolCall) : Message :=
  {| msg_id := Some id; msg_type := MAi; msg_content := ContentString text;
     additional_kwargs_tool_calls := None; msg_tool_calls := Some calls;
     tool_call_id := None |}.

(** A tool result that answers the tool call [ref]. *)
Definition tool_result (id ref text : string) : Message :=
  {| msg_id := Some id; msg_type := MTool; msg_content := ContentString text;
     additional_kwargs_tool_calls := None; msg_tool_calls := None;
     tool_call_id := Some ref |}.

(** [Math.random()] always returning the same number. *)
Definition always (text : string) : nat -> string := fun _ => text.

(** The text of a phase marker whose data has the members [phase] and
    [status], and further members [more] (empty, or starting with a comma). *)
Definition phaseMarker (p st more : string) : string :=
  "__PHASE_STATUS__{" +:+ quoted "phase" +:+ ":" +:+ p +:+ ","
  +:+ quoted "status" +:+ ":" +:+ quoted st +:+ more +:+ "}__".

(** Scenario A of the specification. *)
Definition scenarioA : list Message :=
  [ text_message "m0" MHuman "hi";
    text_message "m1" MAi (phaseMarker "1" "started" "");
    text_message "m2" MAi "working...";
    text_message "m3" MAi
      (phaseMarker "1" "completed" ("," +:+ quoted "summary" +:+ ":" +:+ quoted "done")) ].

(** Phase 1 is started twice before it completes. *)
Definition restartedPhase : list Message :=
  [ text_message "m0" MAi (phaseMarker "1" "started" "");
    text_message "m1" MAi "first attempt";
    text_message "m2" MAi (phaseMarker "1" "started" "");
    text_message "m3" MAi (phaseMarker "1" "completed" "") ].

(** Phase 1 ends with an error record. *)
Definition failedPhase : list Message :=
  [ text_message "m0" MAi (phaseMarker "1" "started" "");
    text_message "m1" MAi (phaseMarker "1" "error" "") ].

(** Phase 2 runs inside phase 1. *)
Definition nestedPhases : list Message :=
  [ text_message "m0" MAi (phaseMarker "1" "started" "");
    text_message "m1" MAi (phaseMarker "2" "started" "");
    text_message "m2" MAi (phaseMarker "2" "completed" "");
    text_message "m3" MAi (phaseMarker "1" "completed" "") ].

(** Phase 1 completes and is started again. *)
Definition startedAgain : list Message :=
  [ text_message "m0" MAi (phaseMarker "1" "started" "");
    text_message "m1" MAi (phaseMarker "1" "completed" "");
    text_message "m2" MAi (phaseMarker "1" "started" "") ].


(** Scenario B of the specification, followed by a second result for the
    same tool call. *)
Definition duplicateResult : list Message :=
  [ calling_message "m1" "" [call "t1" "search"];
    tool_result "r1" "t1" "3 results";
    tool_result "r2" "t1" "late duplicate" ].

(** Two agent messages issue a tool call with the same identifier, each
    followed by its result. *)
Definition reusedIdentifier : list Message :=
  [ calling_message "m1" "" [call "t1" "search"];
    tool_result "r1" "t1" "first answer";
    calling_message "m2" "" [call "t1" "search"];
    tool_result "r2" "t1" "second answer" ].

(** Scenario C of the specification: a result that answers no tool call. *)
Definition strayResult : list Message :=
  [ calling_message "m1" "" [call "t1" "search"];
    tool_result "r1" "tX" "nobody asked" ].

(** The pending tool call derived from [call "t1" "search"]. *)
Definition searchCall : ToolCall :=
  {| tc_id := "t1"; tc_name := "search"; tc_args := JObject [];
     tc_result := None; tc_status := pending |}.

(** The message map after the first message of Scenario B. *)
Definition afterCall : PassState :=
  ([(Some "m1", {| message := calling_message "m1" "" [call "t1" "search"];
                   toolCalls := [searchCall] |})], O).

(** An agent message whose structured tool-call array is present and empty
    while its first-class array and its content blocks both hold the tool
    call [t1]. *)
Definition shadowedCalls : Message :=
  {| msg_id := Some "m1"; msg_type := MAi;
     msg_content :=
       ContentBlocks
         [{| raw_id := Some "t1"; raw_function := None; raw_name := Some "search";
             raw_type := Some "tool_use"; raw_args := None;
             raw_input := Some (JObject []); raw_text := None |}];
     additional_kwargs_tool_calls := Some [];
     msg_tool_calls := Some [call "t1" "search"];
     tool_call_id := None |}.

(** A tool call without identifier, answered by a result that names the
    identifier [Math.random() = 0.5] leads to. *)
Definition guessedIdentifier : list Message :=
  [ calling_message "m1" ""
      [{| raw_id := None; raw_function := None; raw_name := Some "search";
          raw_type := None; raw_args := None; raw_input := None;
          raw_text := None |}];
    tool_result "r1" "tool-0.5" "3 results" ].

(** A conversation of one agent turn, and a hook that has not stored
    anything yet. *)
Definition oneTurn : list Message := [text_message "m1" MAi "Hello"].

Definition freshHook : HookState :=
  {| suggestions := DEFAULT_SUGGESTIONS; isRefreshing := false;
     storage := None; console := [] |}.

(** A network on which every request is rejected. *)
Definition offline : Request -> FetchResult := fun _ => FetchRejected.


(** Scenario D of the specification: a configuration with an OpenAI key, and
    a response whose content is an array of one item without [full]. *)
Definition openaiConfig : option Config :=
  Some {| activeProvider := Some "openai"; openaiApiKey := Some "sk-test";
          anthropicApiKey := None; googleApiKey := None; openRouterConfig := None;
          modelOverridesByProvider := None; modelOverrides := None;
          selectedModels := None; selectedModel := None |}.

(** The response of Scenario D. *)
Definition scenarioD : Request -> FetchResult := fun _ =>
  ResponseJson
    (JObject [("choices",
       JArray [JObject [("message",
         JObject [("content",
           JString ("[{" +:+ quoted "short" +:+ ":" +:+ quoted "ok" +:+ "}]"))])]])]).

(** ** Further parts of the chat view *)

(** [String(v)], the conversion made by a template literal and by a property
    key; it belongs to the platform, and the text of an object depends on the
    members the reference stands for. *)
Variable ToString : JSValue -> string.

(** [Boolean(v)] for a member of parsed marker data. *)
Definition truthy_value (v : JSValue) : bool :=
  match v with
  | VUndefined | VNull => false
  | VBool b => b
  | VNumber n => negb (n =? 0)
  | VString s => negb (String.eqb s "")
  | VObject _ => true
  end.

(** *** The running phase and the task list of the chat interface *)

Definition PHASE_NAMES : list (string * string) :=
  [ ("1", "Batch Overview");
    ("2", "Historical Trends");
    ("3", "Content & Technical SEO");
    ("4", "Keyword Gap Analysis");
    ("5", "Competitive Benchmark");
    ("6", "Root Cause Investigation");
    ("7", "Report Generation") ].

(** [typeof msg.content === 'string' ? msg.content : ''] *)
Definition stringContent (m : Message) : string :=
  match msg_content m with
  | ContentString s => s
  | ContentBlocks _ => ""
  end.

(** The [try] block of the loop of [inferredCurrentPhase] for the message at
    [index]: the members [phase] and [status] of the parsed marker, when the
    text matches and parses. Reading [data.status] of [null] throws inside the
    [try], as a failed parse does. *)
Definition statusRecordOf (index : Z) (m : Message) : option PhaseRecord :=
  match phase_marker (stringContent m) with
  | Some group =>
      match JSON_parse group with
      | Some JNull => None
      | Some data =>
          Some {| phase := member index "phase" data;
                  status := member index "status" data |}
      | None => None
      end
  | None => None
  end.

(** The body of [for (const msg of messages)]; the state is the pair of
    [startedPhases] and [completedPhases], both in insertion order. *)
Definition inferStep (acc : list JSValue * list JSValue) (index : Z) (m : Message)
  : list JSValue * list JSValue :=
  match statusRecordOf index m with
  | Some data =>
      if strict_equal (status data) (VString "started")
      then (set_add (phase data) acc.1, acc.2)
      else if strict_equal (status data) (VString "completed")
      then (acc.1, set_add (phase data) acc.2)
      else acc
  | None => acc
  end.

Fixpoint inferPhases (acc : list JSValue * list JSValue) (index : Z)
    (messages : list Message) : list JSValue * list JSValue :=
  match messages with
  | [] => acc
  | m :: rest => inferPhases (inferStep acc index m) (index + 1) rest
  end.

(** [inferredCurrentPhase]; [None] is the [null] it returns. *)
Definition inferredCurrentPhase (isLoading : bool) (messages : list Message)
  : option JSValue :=
  if negb isLoading || (length messages =? 0)%nat then None
  else
    let '(startedPhases, completedPhases) := inferPhases ([], []) 0 messages in
    List.find (fun p => negb (bool_decide (p ∈ completedPhases))) startedPhases.

(** An element of [todos]: the members [displayTodos] reads and writes. *)
Record TodoItem := mkTodoItem {
  todo_id : string;
  todo_content : string;
  todo_status : string;
}.

(** [names[p] || `Phase ${p}`] on the own members of the table [names]. *)
Definition phaseNameIn (names : list (string * string)) (p : JSValue) : string :=
  default ("Phase " +:+ ToString p)
    (or_str (assoc (ToString p) names) (Some ("Phase " +:+ ToString p))).

Definition is_phase_todo (p : JSValue) (t : TodoItem) : bool :=
  String.eqb (todo_id t) ("phase_" +:+ ToString p).

(** [existingTodo.status = 'in_progress'] unless it is in progress or
    completed. *)
Definition markInProgress (t : TodoItem) : TodoItem :=
  if negb (String.eqb (todo_status t) "in_progress")
     && negb (String.eqb (todo_status t) "completed")
  then {| todo_id := todo_id t; todo_content := todo_content t;
          todo_status := "in_progress" |}
  else t.

(** [displayTodos]. The todo that is found is updated in place: the copy
    [result] shares its elements with [todos]. *)
Definition displayTodos (todos : list TodoItem) (inferredCurrentPhase : option JSValue)
    (isLoading : bool) : list TodoItem :=
  match inferredCurrentPhase with
  | Some p =>
      if truthy_value p && isLoading then
        match findIndex (is_phase_todo p) todos with
        | None =>
            todos ++ [{| todo_id := "phase_" +:+ ToString p;
                         todo_content := phaseNameIn PHASE_NAMES p;
                         todo_status := "in_progress" |}]
        | Some i => alter markInProgress i todos
        end
      else todos
  | None => todos
  end.

(** *** The maps of the pending approvals *)

(** [map.set(key, v)] on the entries of a [Map] in insertion order. *)
Fixpoint Map_set {A} (key : string) (v : A) (m : list (string * A))
  : list (string * A) :=
  match m with
  | [] => [(key, v)]
  | (k, old) :: rest =>
      if String.eqb k key then (k, v) :: rest else (k, old) :: Map_set key v rest
  end.

(** [new Map(entries)] *)
Definition Map_new {A} (entries : list (string * A)) : list (string * A) :=
  foldl (fun m (e : string * A) => Map_set e.1 e.2 m) [] entries.

(** [actionRequestsMap], and [reviewConfigsMap] with [actionName] for [name]:
    [requests] is the member of the interrupt value, [None] when it is absent
    or falsy. *)
Definition actionRequestsMap {A} (name : A -> string) (requests : option (list A))
  : list (string * A) :=
  match requests with
  | None => []
  | Some l => Map_new (map (fun ar => (name ar, ar)) l)
  end.

(** *** [ChatMessage.tsx]: status row, tool-call boxes, reports and panels *)

(** [phaseStatus] *)
Definition phaseStatus (msg : Message) : value :=
  match msg_type msg with
  | MHuman => None
  | _ => parsePhaseStatus (extractStringFromMessageContent msg)
  end.

(** [displayableToolCalls] *)
Definition displayableToolCalls (toolCalls : list ToolCall) : list ToolCall :=
  filter (fun tc : ToolCall => negb (String.eqb (tc_name tc) "task")) toolCalls.

Definition TOOL_CALLS_THRESHOLD : nat := 3.

Definition hasMoreToolCalls (toolCalls : list ToolCall) : bool :=
  (TOOL_CALLS_THRESHOLD <? length (displayableToolCalls toolCalls))%nat.

(** The callback of [displayableToolCalls.map] in the rendering: the tool
    call whose box is rendered, [None] for the [null] of a box left out. *)
Definition renderedBox (toolCallsExpanded : bool) (toolCalls : list ToolCall)
    (index : nat) (toolCall : ToolCall) : option ToolCall :=
  if negb toolCallsExpanded && hasMoreToolCalls toolCalls
     && (TOOL_CALLS_THRESHOLD <=? index)%nat
  then None else Some toolCall.

(** The boxes under [hasToolCalls && ...], in order. *)
Definition toolCallBoxes (toolCallsExpanded : bool) (toolCalls : list ToolCall)
  : list ToolCall :=
  if (0 <? length toolCalls)%nat then
    omap id (imap (renderedBox toolCallsExpanded toolCalls)
                  (displayableToolCalls toolCalls))
  else [].

(** An element of [htmlReports]; title and content are members of the
    parsed result, whatever their type. *)
Record HtmlReport := mkHtmlReport {
  report_id : string;
  report_toolName : string;
  report_title : JSON;
  report_htmlContent : JSON;
}.

(** The callback of [toolCalls.map] in [htmlReports]; the result of a tool
    call is a string. *)
Definition htmlReportOf (toolCall : ToolCall) : option HtmlReport :=
  if truthy_str (tc_result toolCall) then
    match JSON_parse (default "" (tc_result toolCall)) with
    | Some (JObject members) =>
        match assoc "html_content" members with
        | Some html =>
            Some {| report_id := tc_id toolCall;
                    report_toolName := tc_name toolCall;
                    report_title :=
                      default (JString "Report")
                        (or_value (assoc "title" members) (Some (JString "Report")));
                    report_htmlContent := html |}
        | None => None
        end
    | _ => None
    end
  else None.

(** [htmlReports]: the map, then the filter of the non-null results. *)
Definition htmlReports (toolCalls : list ToolCall) : list HtmlReport :=
  omap htmlReportOf toolCalls.



(** *** The tool-call box *)

(** [toolCall.name || "Unknown Tool"] *)
Definition boxName (toolCall : ToolCall) : string :=
  if String.eqb (tc_name toolCall) "" then "Unknown Tool" else tc_name toolCall.

(** The fall-back of [htmlContent]: a result that holds a whole document. *)
Definition htmlDocument (resultStr : string) : JSON :=
  if includes "<!DOCTYPE html>" resultStr
     || (includes "<html" resultStr && includes "</html>" resultStr)
  then JString resultStr else JNull.

(** [htmlContent] of the box; [JNull] is the [null] it returns. *)
Definition htmlContent (toolCall : ToolCall) : JSON :=
  if truthy_str (tc_result toolCall) then
    let result := default "" (tc_result toolCall) in
    match JSON_parse result with
    | Some (JObject members) =>
        match assoc "html_content" members with
        | Some html => html
        | None => htmlDocument result
        end
    | _ => htmlDocument result
    end
  else JNull.

(** *** The phase status row *)

Definition PhaseStatusMessage_PHASE_NAMES : list (string * string) :=
  [ ("1", "Batch Overview");
    ("2", "Historical Trends");
    ("3", "Content & Technical SEO");
    ("4", "Keyword Gap Analysis");
    ("5", "Competitive Benchmark");
    ("6", "Root Cause Investigation");
    ("7", "Report Generation") ].

(** [phaseName] of the row for the marker data [data]. *)
Definition phaseName (data : JSON) : string :=
  phaseNameIn PhaseStatusMessage_PHASE_NAMES (member (-1) "phase" data).

(** [phaseDetails && phaseDetails.trim().length > 0] *)
Definition hasDetails (phaseDetails : option string) : bool :=
  match phaseDetails with
  | Some d => negb (String.eqb d "") && (0 <? String.length (trim d))%nat
  | None => false
  end.

Definition canExpand (data : JSON) (phaseDetails : option string) : bool :=
  strict_equal (member (-1) "status" data) (VString "completed")
  && hasDetails phaseDetails.

(** *** The summary line of a sub-agent panel *)

(** [content.split("\n")[0]] *)
Fixpoint first_line (s : string) : string :=
  match s with
  | EmptyString => EmptyString
  | String c s' =>
      if (nat_of_ascii c =? 10)%nat then EmptyString else String c (first_line s')
  end.

Fixpoint drop_hashes (s : string) : string :=
  match s with
  | String c s' => if Ascii.eqb c "#" then drop_hashes s' else s
  | EmptyString => EmptyString
  end.

(** [s.replace(/^#+\s*/, "")] *)
Definition strip_heading (s : string) : string :=
  if starts_with "#" s then trim_start (drop_hashes s) else s.

(** [s.replace(/\*\*/g, "")]: the pairs of stars met from left to right. *)
Fixpoint remove_bold (s : string) : string :=
  match s with
  | EmptyString => EmptyString
  | String c s' =>
      match s' with
      | String c' s'' =>
          if Ascii.eqb c "*" && Ascii.eqb c' "*" then remove_bold s''
          else String c (remove_bold s')
      | EmptyString => s
      end
  end.

(** [getTaskSummary] of [SubAgentIndicator.tsx] *)
Definition getTaskSummary (content : string) : string :=
  if String.eqb content "" then ""
  else trim (remove_bold (strip_heading (trim (first_line content)))).

(** *** The effects of [useSuggestions] *)

#[global] Instance Suggestion_eq_dec : EqDecision Suggestion.
Proof. solve_decision. Defined.

(** The three references of the hook; for [lastMessageIdRef], [None] is
    [null]. *)
Record Refs := mkRefs {
  prevIsLoadingRef : bool;
  lastMessageIdRef : option string;
  prevAgentSuggestionsRef : option (list Suggestion);
}.

(** [messages.find((m, i) => i === messages.length - 1 ||
    messages.slice(i + 1).every(msg => msg.type !== "ai"))] *)
Fixpoint findLastAIMessage (messages : list Message) : option Message :=
  match messages with
  | [] => None
  | m :: rest =>
      if match rest with [] => true | _ => false end
         || forallb (fun msg => negb (MessageType_eqb (msg_type msg) MAi)) rest
      then Some m else findLastAIMessage rest
  end.

(** [id !== lastMessageIdRef.current], [id] being [undefined] when absent. *)
Definition id_changed (id : option string) (ref : option string) : bool :=
  match id, ref with
  | Some a, Some b => negb (String.eqb a b)
  | _, _ => true
  end.

(** [id || null] *)
Definition id_or_null (id : option string) : option string :=
  if truthy_str id then id else None.


Definition setSuggestions (set : list Suggestion) (st : HookState) : HookState :=
  {| suggestions := set; isRefreshing := isRefreshing st;
     storage := storage st; console := console st |}.

Definition setLastMessageId (id : option string) (refs : Refs) : Refs :=
  {| prevIsLoadingRef := prevIsLoadingRef refs;
     lastMessageIdRef := id;
     prevAgentSuggestionsRef := prevAgentSuggestionsRef refs |}.

(** The effect on the loading state; [loadSuggestions] is followed to its
    settlement. *)
Definition onLoadingChange (config : option Config) (fetch : Request -> FetchResult)
    (threadId : option string) (messages : list Message) (isLoading : bool)
    (h : HookState * Refs) : HookState * Refs :=
  let wasLoading := prevIsLoadingRef h.2 in
  let refs := {| prevIsLoadingRef := isLoading;
                 lastMessageIdRef := lastMessageIdRef h.2;
                 prevAgentSuggestionsRef := prevAgentSuggestionsRef h.2 |} in
  if wasLoading && negb isLoading && (0 <? length messages)%nat then
    match getLastAIMessageContext messages with
    | Some id =>
        if id_changed id (lastMessageIdRef refs) then
          match getCachedSuggestions (cachedKeyOf threadId id) (storage h.1) with
          | Some cachedSuggestions =>
              (setSuggestions cachedSuggestions h.1,
               setLastMessageId (id_or_null id) refs)
          | None =>
              (loadSuggestions config fetch threadId messages h.1,
               setLastMessageId (id_or_null id) refs)
          end
        else (h.1, refs)
    | None => (h.1, refs)
    end
  else (h.1, refs).

(** The end of the effect on the thread: the reset for a thread without
    messages. *)
Definition resetForNewThread (messages : list Message) (h : HookState * Refs)
  : HookState * Refs :=
  if (length messages =? 0)%nat
  then (setSuggestions DEFAULT_SUGGESTIONS h.1, setLastMessageId None h.2)
  else h.

(** The effect on the thread and its messages. *)
Definition onThreadLoad (config : option Config) (fetch : Request -> FetchResult)
    (threadId : option string) (messages : list Message) (isLoading : bool)
    (h : HookState * Refs) : HookState * Refs :=
  match getLastAIMessageContext messages with
  | Some id =>
      match getCachedSuggestions (cachedKeyOf threadId id) (storage h.1) with
      | Some cachedSuggestions =>
          (setSuggestions cachedSuggestions h.1, setLastMessageId (id_or_null id) h.2)
      | None =>
          if id_changed id (lastMessageIdRef h.2) && negb isLoading then
            (loadSuggestions config fetch threadId messages h.1,
             setLastMessageId (id_or_null id) h.2)
          else resetForNewThread messages h
      end
  | None => resetForNewThread messages h
  end.

(** ** Further notions used in the statements *)

(** Every code unit of the string is white space. *)
Fixpoint blank (s : string) : bool :=
  match s with
  | EmptyString => true
  | String c s' => is_space c && blank s'
  end.

(** Every code unit of the string satisfies [P]. *)
Fixpoint every (P : ascii -> bool) (s : string) : bool :=
  match s with
  | EmptyString => true
  | String c s' => P c && every P s'
  end.

(** The code unit is not a line feed. *)
Definition not_line_feed (c : ascii) : bool := negb (nat_of_ascii c =? 10)%nat.

(** The code unit is not a line terminator. *)
Definition not_line_terminator (c : ascii) : bool := negb (is_line_terminator c).

(** The texts the group of the marker pattern can match: not empty, on one
    line, and without a double underscore after the first code unit, be it
    inside the text or made with the underscore that follows it. *)
Definition readableGroup (group : string) : bool :=
  negb (String.eqb group "")
  && every not_line_terminator group
  && negb (includes "__" (slice_from 1 group +:+ "_")).

(** The code unit is not an underscore. *)
Definition not_underscore (c : ascii) : bool := negb (Ascii.eqb c "_").

(** The two parts of a cache key. *)
Definition threadPart (threadId : option string) : string :=
  default "new" (or_str threadId (Some "new")).

Definition idPart (id : option string) : string := default "undefined" id.

(** The record of phase [p] with status [st] is read from a message of the
    list by the loop of [inferredCurrentPhase]. *)
Definition marked (messages : list Message) (p : JSValue) (st : string) : Prop :=
  exists i m, messages !! i = Some m
              /\ statusRecordOf (Z.of_nat i) m
                 = Some {| phase := p; status := VString st |}.

(** The content of the message is a string. *)
Definition hasStringContent (m : Message) : bool :=
  match msg_content m with
  | ContentString _ => true
  | ContentBlocks _ => false
  end.

(** What a derived tool call is made of: an identifier and a name that are
    not empty, and a result exactly when its status is [completed], the
    status being otherwise the one every tool call of the derivation starts
    with. *)
Definition wellFormed (interrupt : bool) (tc : ToolCall) : Prop :=
  tc_id tc <> "" /\ tc_name tc <> ""
  /\ ((tc_status tc = completed /\ tc_result tc <> None)
      \/ (tc_status tc = (if interrupt then interrupted else pending)
          /\ tc_result tc = None)).

(** The name and the arguments a tool call shows. *)
Definition nameAndArgs (tc : ToolCall) : string * JSON := (tc_name tc, tc_args tc).

(** The message is shown by the derivation: a human or agent message. *)
Definition isShownType (m : Message) : bool :=
  MessageType_eqb (msg_type m) MHuman || MessageType_eqb (msg_type m) MAi.

(** The human and agent messages of the list whose index is not in [skip],
    in order; [index] is the index of the first message of the list. *)
Fixpoint visibleFrom (skip : gset Z) (index : Z) (messages : list Message)
  : list Message :=
  match messages with
  | [] => []
  | m :: rest =>
      if bool_decide (index ∈ skip) then visibleFrom skip (index + 1) rest
      else if isShownType m then m :: visibleFrom skip (index + 1) rest
      else visibleFrom skip (index + 1) rest
  end.

(** The messages the conversation view has to show. *)
Definition visibleMessages (messages : list Message) : list Message :=
  visibleFrom (skipIndices messages) 0 messages.

(** The last element of [l] that satisfies [pred]. *)
Definition findLast {A} (pred : A -> bool) (l : list A) : option A :=
  List.find pred (rev l).

Definition hasMessageId (id : option string) (m : Message) : bool :=
  bool_decide (msg_id m = id).

(** The tool calls [tcs] are the ones derived for the message [m]: none for
    a human message, for an agent message one for each tool call read from
    it, in order and with its name and arguments, each of them well formed. *)
Definition derivedToolCalls (interrupt : bool) (m : Message) (tcs : list ToolCall)
  : Prop :=
  (msg_type m = MHuman -> tcs = [])
  /\ (msg_type m = MAi ->
      map nameAndArgs tcs
      = map (fun t => (resolveName t, resolveArgs t)) (toolCallsInMessage m))
  /\ Forall (wellFormed interrupt) tcs.

(** The invariant of the second pass: [seen] being the visible messages met
    so far, the message map has one entry for each of their identifiers, under that
    identifier, and the entry holds the last of them with the identifier and
    tool calls derived for it. *)
Definition passInvariant (interrupt : bool) (entries : list (option string * Entry))
    (seen : list Message) : Prop :=
  NoDup (map fst entries)
  /\ Forall (fun e : option string * Entry =>
               isShownType (message e.2) = true
               /\ derivedToolCalls interrupt (message e.2) (toolCalls e.2)
               /\ findLast (hasMessageId e.1) seen = Some (message e.2)) entries
  /\ (forall m, m ∈ seen -> msg_id m ∈ map fst entries).

(** The result of the tool call, if it has one, is the text of a tool
    message of the list that refers to the identifier of the tool call. *)
Definition resultFrom (messages : list Message) (tc : ToolCall) : Prop :=
  forall result, tc_result tc = Some result ->
    exists m, m ∈ messages /\ msg_type m = MTool
              /\ tool_call_id m = Some (tc_id tc)
              /\ extractStringFromMessageContent m = result.

(** The message map [later] continues [earlier]: it holds the entries of
    [earlier] under their keys and in their places, their tool calls
    advanced, and further entries after them. *)
Definition continues (earlier later : list (option string * Entry)) : Prop :=
  exists kept more,
    later = kept ++ more /\ Forall2 entries_advance earlier kept.

(** Some entry of the message map holds a tool call with the identifier, and
    some entry holds a completed one. *)
Definition holdsCall (toolCallId : string) (entries : list (option string * Entry))
  : Prop :=
  exists e, e ∈ entries /\ holds_id toolCallId e.

Definition holdsCompleted (toolCallId : string)
    (entries : list (option string * Entry)) : Prop :=
  exists e tc, e ∈ entries /\ tc ∈ toolCalls e.2
               /\ tc_id tc = toolCallId /\ tc_status tc = completed.

(** The request of the generation call, when the configuration lets it make
    one. *)
Definition requestOf (config : option Config) (conversationContext : string)
  : option Request :=
  match credentialsOf config with
  | UseDefaults => None
  | Credential apiKey baseUrl =>
      if truthy_str apiKey then
        Some {| req_url := baseUrl +:+ "/chat/completions";
                req_apiKey := default "" apiKey;
                req_model := effectiveModelOf config;
                req_context := slice_to 3000 conversationContext |}
      else None
  end.

(** ** Further sample inputs *)

(** A conversion to text that writes the phase numbers 1 to 9. *)
Definition digitText (v : JSValue) : string :=
  match v with
  | VNumber 1 => "1" | VNumber 2 => "2" | VNumber 3 => "3"
  | VNumber 4 => "4" | VNumber 5 => "5" | VNumber 6 => "6"
  | VNumber 7 => "7" | VNumber 8 => "8" | VNumber 9 => "9"
  | VString s => s
  | _ => "?"
  end.

(** Phase 1 has completed and phase 2 is running. *)
Definition secondPhaseRunning : list Message :=
  [ text_message "m0" MAi (phaseMarker "1" "started" "");
    text_message "m1" MAi (phaseMarker "1" "completed" "");
    text_message "m2" MAi (phaseMarker "2" "started" "");
    text_message "m3" MAi "looking at the trends" ].

(** A task list of the backend that holds the second phase as pending. *)
Definition backendTodos : list TodoItem :=
  [ {| todo_id := "phase_1"; todo_content := "Batch Overview";
       todo_status := "completed" |};
    {| todo_id := "phase_2"; todo_content := "Historical Trends";
       todo_status := "pending" |} ].

(** A tool call with the result [result]. *)
Definition finishedCall (id name result : string) : ToolCall :=
  {| tc_id := id; tc_name := name; tc_args := JObject [];
     tc_result := Some result; tc_status := completed |}.

(** A result that holds a report. *)
Definition reportResult : string :=
  "{" +:+ quoted "title" +:+ ":" +:+ quoted "Audit" +:+ ","
  +:+ quoted "html_content" +:+ ":" +:+ quoted "<p>ok</p>" +:+ "}".

(** The completed marker of Scenario A, and the started marker of a phase. *)
Definition summaryRow : Message :=
  text_message "m3" MAi
    (phaseMarker "1" "completed" ("," +:+ quoted "summary" +:+ ":" +:+ quoted "done")).

Definition startedRow : Message :=
  text_message "m1" MAi (phaseMarker "1" "started" "").

(** The element derived from the first message of [duplicateResult]. *)
Definition answeredCall : Processed :=
  {| p_message := calling_message "m1" "" [call "t1" "search"];
     p_toolCalls := [complete "late duplicate" searchCall];
     showAvatar := true |}.

(** A task in Markdown, on two lines. *)
Definition markdownTask : string :=
  "## **Research** the *market* **now**  " +:+ newline +:+ "and report".

(** The references of a hook that was mounted while the agent was loading. *)
Definition loadingRefs : Refs :=
  {| prevIsLoadingRef := true; lastMessageIdRef := None;
     prevAgentSuggestionsRef := None |}.


(** * Verified properties *)

(** [tauto] on the goal alone, leaving the parameters of the model out of
    the proof. *)
Ltac tauto_goal :=
  repeat match goal with
         | f : string -> option JSON |- _ => clear f
         | f : list Message -> string |- _ => clear f
         | f : JSValue -> string |- _ => clear f
         end;
  tauto.

(** ** Sub-agent deriver *)

Lemma isSubAgentCall_spec (tc : ToolCall) :
  isSubAgentCall tc = true <->
  tc_name tc = "task" /\
  exists target, get "subagent_type" (tc_args tc) = Some target
                 /\ truthy_json target = true
                 /\ target <> JString "" /\ target <> JNull.
Proof.
  unfold isSubAgentCall. rewrite !andb_true_iff, !negb_true_iff, String.eqb_eq.
  split.
  - intros [[[Hn Ht] He] Hz]. split; [done|].
    destruct (get "subagent_type" (tc_args tc)) as [target|]; [|done].
    exists target. repeat split; try done; intros ->; simpl in *; congruence.
  - intros [Hn (target & -> & Ht & He & Hz)]. repeat split; try done.
    + destruct target; simpl in *; try done.
      apply String.eqb_neq. congruence.
    + destruct target; simpl in *; congruence.
Qed.

(** C9. The sub-agents of a tool-call list are, in the order of the list, the
    tool calls named ["task"] whose [subagent_type] argument is present
    (defined and truthy), not the empty string and not [null]; each is mapped
    to the view model with the tool call's id, that argument as the agent
    name shown, the arguments as input, the result as output when there is
    one (a defined, non-empty result), and the status. Nothing but the list is
    read: the derivation distributes over concatenation. *)
Theorem subAgents_projection (calls : list ToolCall) :
  (forall v, v ∈ subAgents calls <->
     exists tc target,
       tc ∈ calls /\ tc_name tc = "task"
       /\ get "subagent_type" (tc_args tc) = Some target
       /\ truthy_json target = true /\ target <> JString "" /\ target <> JNull
       /\ v = {| sa_id := tc_id tc; sa_name := "task"; subAgentName := target;
                 sa_input := tc_args tc;
                 sa_output := match tc_result tc with
                              | Some r => if String.eqb r "" then None else Some r
                              | None => None
                              end;
                 sa_status := tc_status tc |})
  /\ (forall more, subAgents (calls ++ more) = subAgents calls ++ subAgents more)
  /\ map sa_id (subAgents calls) = map tc_id (filter isSubAgentCall calls).
Proof.
  split; [|split].
  - intros v. unfold subAgents. rewrite list_elem_of_fmap. split.
    + intros (tc & -> & Hin). apply list_elem_of_filter in Hin as [Hok Hin].
      apply Is_true_true, isSubAgentCall_spec in Hok as [Hn (target & Hg & Ht & He & Hz)].
      exists tc, target. repeat split; try done.
      unfold toSubAgent. rewrite Hg, Hn. simpl. f_equal.
      destruct (tc_result tc) as [r|]; simpl; [|done].
      by destruct (String.eqb r "").
    + intros (tc & target & Hin & Hn & Hg & Ht & He & Hz & ->).
      exists tc. split.
      * unfold toSubAgent. rewrite Hg, Hn. simpl. f_equal.
        destruct (tc_result tc) as [r|]; simpl; [|done].
        by destruct (String.eqb r "").
      * apply list_elem_of_filter. split; [|done].
        apply Is_true_true, isSubAgentCall_spec. eauto 10.
  - intros more. unfold subAgents. by rewrite filter_app, fmap_app.
  - unfold subAgents. rewrite <- list_fmap_compose. done.
Qed.

(** ** Suggestion cache *)

Section CacheLemmas.

Implicit Types (m : Cache) (key : string) (v : list Suggestion).



(** [cacheMap[key] = v] overwrites in place or appends. *)
Lemma obj_set_cases m key v :
  (exists pre old post, m = pre ++ (key, old) :: post
                        /\ obj_set key v m = pre ++ (key, v) :: post)
  \/ ((key ∉ map fst m) /\ obj_set key v m = m ++ [(key, v)]).
Proof.
  induction m as [|[k w] m IH]; simpl.
  - right. split; [apply not_elem_of_nil | done].
  - destruct (String.eqb_spec k key) as [->|Hne].
    + left. by exists [], w, m.
    + destruct IH as [(pre & old & post & -> & ->)|[Hnin ->]].
      * left. by exists ((k, w) :: pre), old, post.
      * right. split; [|done]. rewrite not_elem_of_cons. split; [congruence | done].
Qed.



Lemma obj_set_elem m key v : (key, v) ∈ obj_set key v m.
Proof.
  destruct (obj_set_cases m key v) as [(pre & old & post & -> & ->)|[Hnin ->]];
    rewrite elem_of_app, elem_of_cons; [right|right]; by left.
Qed.













End CacheLemmas.



(** ** Suggestion generation *)

Lemma validSuggestions_elem (parsed : list JSON) (x : Suggestion) :
  x ∈ validSuggestions parsed ->
  exists members sh f,
    JObject members ∈ parsed
    /\ assoc "short" members = Some (JString sh)
    /\ assoc "full" members = Some (JString f)
    /\ (15 <= length (split_ws f))%nat
    /\ x = {| short := slice_to 30 sh; full := f |}.
Proof.
  unfold validSuggestions. intros Hx.
  apply list_elem_of_fmap in Hx as (j & -> & Hj).
  apply (subseteq_take 20) in Hj.
  apply list_elem_of_filter in Hj as [Hvalid Hj].
  apply Is_true_true in Hvalid. unfold isValidSuggestion in Hvalid.
  destruct j as [| | | |?|members]; try done.
  destruct (assoc "short" members) as [[| | |sh| |]|] eqn:Hs; try done.
  destruct (assoc "full" members) as [[| | |f| |]|] eqn:Hf; try done.
  exists members, sh, f. repeat split; try done.
  - by apply Nat.leb_le.
  - unfold toSuggestion. simpl. by rewrite Hs, Hf.
Qed.

Lemma validSuggestions_length (parsed : list JSON) :
  (length (validSuggestions parsed) <= 20)%nat.
Proof. unfold validSuggestions. rewrite length_map, length_take. lia. Qed.

Lemma parseSuggestions_cases (jsonStr : string) :
  try_catch (parseSuggestions jsonStr) (Returned None) = Returned None
  \/ exists item items,
       JSON_parse jsonStr = Some (JArray (item :: items))
       /\ (3 <= length (validSuggestions (item :: items)))%nat
       /\ try_catch (parseSuggestions jsonStr) (Returned None)
          = Returned (Some (validSuggestions (item :: items))).
Proof.
  unfold parseSuggestions.
  destruct (JSON_parse jsonStr) as [[| | | |[|item items]|]|]; try (by left).
  destruct (Nat.leb_spec 3 (length (validSuggestions (item :: items))));
    [right | by left].
  by exists item, items.
Qed.

(** The courses that end with the default set. *)
Lemma generation_falls_back (config : option Config)
    (fetch : Request -> FetchResult) (conversationContext : string) :
  (credentialsOf config = UseDefaults
   \/ (exists baseUrl, credentialsOf config = Credential None baseUrl)
   \/ (forall req, fetch req = FetchRejected)
   \/ (forall req, fetch req = ResponseNotOk)
   \/ (forall req, fetch req = ResponseBodyRejected)
   \/ (forall req, exists fullResponse,
          fetch req = ResponseJson (JObject [("choices",
            JArray [JObject [("message",
              JObject [("content", JString fullResponse)])]])])
          /\ (JSON_parse (jsonStrOf fullResponse) = None
              \/ exists parsed,
                   JSON_parse (jsonStrOf fullResponse) = Some (JArray parsed)
                   /\ (length (validSuggestions parsed) < 3)%nat))) ->
  generateSuggestionsWithLLM config fetch conversationContext
  = Returned DEFAULT_SUGGESTIONS.
Proof.
  unfold generateSuggestionsWithLLM.
  intros [->|[[baseUrl ->]|Hfetch]]; [done | done |].
  destruct (credentialsOf config) as [|apiKey baseUrl]; [done|].
  destruct (truthy_str apiKey); simpl; [|done].
  set (req := {| req_url := _ |}). unfold requestSuggestions.
  destruct Hfetch as [H|[H|[H|H]]]; try (by rewrite H).
  destruct (H req) as (fullResponse & -> & Hparse). simpl.
  destruct (String.eqb fullResponse ""); simpl; [done|].
  unfold parseSuggestions.
  destruct Hparse as [->|(parsed & -> & Hlen)]; [done|].
  destruct parsed as [|item items]; [done|].
  by destruct (Nat.leb_spec 3 (length (validSuggestions (item :: items)))); [lia|].
Qed.


(** ** Phase lifecycle tracker *)

Section PhaseLemmas.

Implicit Types (messages : list Message) (p : JSValue) (e : Z * PhaseRecord).

Lemma phaseRecordOf_ai index m r : phaseRecordOf index m = Some r -> msg_type m = MAi.
Proof. unfold phaseRecordOf. by destruct (msg_type m). Qed.

Lemma scanPhases_elem messages : forall n i r,
  (i, r) ∈ scanPhases n messages <->
  n <= i /\ exists m, messages !! Z.to_nat (i - n) = Some m
                      /\ phaseRecordOf i m = Some r.
Proof.
  induction messages as [|m messages IH]; intros n i r; simpl.
  - split; [intros H; by apply elem_of_nil in H | by intros [_ (m & H & _)]].
  - assert (Hshift : forall m', i <> n -> n <= i ->
              (m :: messages) !! Z.to_nat (i - n) = Some m'
              <-> messages !! Z.to_nat (i - (n + 1)) = Some m').
    { intros m' Hne Hle.
      by replace (Z.to_nat (i - n)) with (S (Z.to_nat (i - (n + 1)))) by lia. }
    assert (Hhead : forall m', (m :: messages) !! Z.to_nat (n - n) = Some m' <-> m' = m).
    { intros m'. replace (n - n) with 0 by lia. simpl. split; congruence. }
    assert (Htail : (i, r) ∈ scanPhases (n + 1) messages <->
              n < i /\ exists m', (m :: messages) !! Z.to_nat (i - n) = Some m'
                                  /\ phaseRecordOf i m' = Some r).
    { rewrite IH. split; intros [Hle (m' & Hm' & Hr)]; (split; [lia|]);
        exists m'; (split; [|done]); apply (Hshift m'); (done || lia). }
    destruct (phaseRecordOf n m) as [r0|] eqn:Hr0.
    + rewrite elem_of_cons, Htail. split.
      * intros [Heq|[Hlt H]]; [|split; [lia | done]].
        injection Heq as -> ->. split; [lia|]. exists m. by rewrite Hhead.
      * intros [Hle (m' & Hm' & Hr)]. destruct (decide (i = n)) as [->|Hne].
        -- left. apply Hhead in Hm' as ->. congruence.
        -- right. split; [lia | by exists m'].
    + rewrite Htail. split.
      * intros [Hlt H]. split; [lia | done].
      * intros [Hle (m' & Hm' & Hr)]. destruct (decide (i = n)) as [->|Hne].
        -- apply Hhead in Hm' as ->. congruence.
        -- split; [lia | by exists m'].
Qed.

(** A record of [phaseStatusIndices] sits at the index of an agent message,
    and an index has at most one record. *)
Lemma phaseStatusIndices_elem messages i r :
  (i, r) ∈ phaseStatusIndices messages <->
  0 <= i /\ exists m, messages !! Z.to_nat i = Some m /\ phaseRecordOf i m = Some r.
Proof.
  unfold phaseStatusIndices. rewrite scanPhases_elem.
  by replace (i - 0) with i by lia.
Qed.

Lemma phaseStatusIndices_agent messages i r :
  (i, r) ∈ phaseStatusIndices messages ->
  0 <= i /\ exists m, messages !! Z.to_nat i = Some m /\ msg_type m = MAi.
Proof.
  intros [Hle (m & Hm & Hr)]%phaseStatusIndices_elem. split; [done|].
  exists m. split; [done|]. by eapply phaseRecordOf_ai.
Qed.

Lemma phaseStatusIndices_functional messages i r r' :
  (i, r) ∈ phaseStatusIndices messages -> (i, r') ∈ phaseStatusIndices messages ->
  r = r'.
Proof.
  intros [_ (m & Hm & Hr)]%phaseStatusIndices_elem
         [_ (m' & Hm' & Hr')]%phaseStatusIndices_elem.
  congruence.
Qed.

Lemma scanPhases_increasing messages : forall n, increasing (scanPhases n messages).
Proof.
  induction messages as [|m messages IH]; intros n; simpl; [constructor|].
  destruct (phaseRecordOf n m); [|apply IH].
  constructor; [apply IH|]. apply list.Forall_forall. intros [i r] Hin.
  apply scanPhases_elem in Hin as [Hle _]. simpl. lia.
Qed.

Lemma sort_increasing (l : list (Z * PhaseRecord)) :
  increasing l -> sort_by_index l = l.
Proof.
  induction 1 as [|x l Hsorted IH Hall]; [done|].
  unfold sort_by_index in *. simpl. rewrite IH.
  destruct l as [|y l]; [done|]. simpl.
  apply Forall_cons in Hall as [Hlt _]. by apply Z.ltb_lt in Hlt as ->.
Qed.

(** The entries are inserted by increasing index: sorting changes nothing. *)
Lemma phaseStatusArray_eq messages :
  phaseStatusArray messages = phaseStatusIndices messages.
Proof. apply sort_increasing, scanPhases_increasing. Qed.

Lemma pairStep_eq p acc e :
  pairStep p acc e =
  (if isRecord p "started" e then e.1 else acc.1,
   if isRecord p "completed" e then e.1 else acc.2).
Proof.
  unfold pairStep, isRecord, strict_equal. destruct acc as [s c], e as [i [ph st]].
  simpl. repeat case_bool_decide; simplify_eq; done.
Qed.

Lemma isRecord_elem p st e (l : list (Z * PhaseRecord)) :
  isRecord p st e = true -> e ∈ l -> (e.1, {| phase := p; status := VString st |}) ∈ l.
Proof.
  unfold isRecord. intros Hrec%bool_decide_eq_true Hin. rewrite <- Hrec.
  by destruct e.
Qed.

(** One component of the pair after the loop over an increasing list. *)
Lemma last_record_fold p st (l : list (Z * PhaseRecord)) : forall x0 : Z,
  increasing l ->
  let r := {| phase := p; status := VString st |} in
  let x := foldl (fun x e => if isRecord p st e then e.1 else x) x0 l in
  (x = x0 /\ forall i, (i, r) ∉ l)
  \/ ((x, r) ∈ l /\ forall i, (i, r) ∈ l -> i <= x).
Proof.
  induction l as [|e l IH]; intros x0 Hinc; simpl.
  - left. split; [done|]. intros i. apply not_elem_of_nil.
  - apply StronglySorted_inv in Hinc as [Hinc Hall].
    rewrite list.Forall_forall in Hall.
    destruct (IH (if isRecord p st e then e.1 else x0) Hinc) as [[Hx Hnone]|[Hin Hmax]].
    + destruct (isRecord p st e) eqn:Hrec.
      * right. rewrite Hx. split.
        -- apply (isRecord_elem p st e); [done | by left].
        -- intros i [Heq|Hi]%elem_of_cons; [by subst e | by apply Hnone in Hi].
      * left. split; [done|]. intros i [Heq|Hi]%elem_of_cons; [|by apply Hnone in Hi].
        subst e. unfold isRecord in Hrec. simpl in Hrec.
        by apply bool_decide_eq_false in Hrec.
    + right. split; [by right|].
      intros i [Heq|Hi]%elem_of_cons; [|by apply Hmax].
      pose proof (Hall _ Hin) as Hlt. subst e. cbn [fst] in Hlt |- *. lia.
Qed.

Lemma phasePair_components p (l : list (Z * PhaseRecord)) : forall acc,
  foldl (pairStep p) acc l =
  (foldl (fun x e => if isRecord p "started" e then e.1 else x) acc.1 l,
   foldl (fun x e => if isRecord p "completed" e then e.1 else x) acc.2 l).
Proof.
  induction l as [|e l IH]; intros [s c]; simpl; [done|].
  by rewrite pairStep_eq, IH.
Qed.

Lemma phasePair_latest messages p :
  latest (phaseStatusIndices messages) p "started"
         (phasePair (phaseStatusArray messages) p).1
  /\ latest (phaseStatusIndices messages) p "completed"
            (phasePair (phaseStatusArray messages) p).2.
Proof.
  rewrite phaseStatusArray_eq. unfold phasePair. rewrite phasePair_components.
  simpl. split; apply last_record_fold, scanPhases_increasing.
Qed.

Lemma set_add_elem (x y : JSValue) (s : list JSValue) :
  x ∈ set_add y s <-> x = y \/ x ∈ s.
Proof.
  unfold set_add. case_bool_decide as Hy.
  - split; [by right | by intros [->|?]].
  - rewrite elem_of_app, list_elem_of_singleton. tauto_goal.
Qed.

Lemma completedPhases_elem messages p :
  p ∈ completedPhases messages <->
  exists i, (i, {| phase := p; status := VString "completed" |})
            ∈ phaseStatusIndices messages.
Proof.
  unfold completedPhases.
  assert (Hfold : forall l acc,
    p ∈ foldl (fun acc (e : Z * PhaseRecord) =>
                 if strict_equal (status e.2) (VString "completed")
                 then set_add (phase e.2) acc else acc) acc l
    <-> p ∈ acc \/ exists i, (i, {| phase := p; status := VString "completed" |}) ∈ l).
  { induction l as [|[i [ph st]] l IH]; intros acc; simpl.
    - split; [by left | intros [?|[i Hi]]; [done | by apply elem_of_nil in Hi]].
    - rewrite IH. unfold strict_equal. case_bool_decide as Hst; simpl in *.
      + rewrite set_add_elem. subst st. split.
        * intros [[->|?]|[j Hj]]; [right; exists i; by left | by left |].
          right. exists j. by right.
        * intros [?|[j [Heq|Hj]%elem_of_cons]]; [left; by right | |right; by exists j].
          injection Heq as -> ->. left. by left.
      + split.
        * intros [?|[j Hj]]; [by left | right; exists j; by right].
        * intros [?|[j [Heq|Hj]%elem_of_cons]]; [by left | |right; by exists j].
          injection Heq as _ _ Hst'. by rewrite Hst' in Hst. }
  rewrite Hfold. split; [intros [H|H]; [by apply elem_of_nil in H | done] | by right].
Qed.

Lemma hideStep_one messages (skip : gset Z) (j k : Z) :
  k ∈ hideStep messages skip j <->
  k ∈ skip
  \/ (k = j /\ exists m, messages !! Z.to_nat k = Some m
                         /\ msg_type m = MAi /\ hasToolCalls m = false).
Proof.
  unfold hideStep.
  destruct (messages !! Z.to_nat j) as [m|] eqn:Hm.
  - destruct (msg_type m) eqn:Hty; [| destruct (hasToolCalls m) eqn:Hhas | |].
    3:{ rewrite elem_of_union, elem_of_singleton. split.
        - intros [->|?]; [right | by left]. split; [done | by exists m].
        - intros [?|[-> _]]; [by right | by left]. }
    all: split; [by left|];
      intros [?|[-> (m' & Hm' & Hty' & Hhas')]]; [done|]; congruence.
  - split; [by left|]. intros [?|[-> (m' & Hm' & _)]]; [done | congruence].
Qed.

Lemma hideStep_elem messages (js : list Z) : forall (skip : gset Z) (k : Z),
  k ∈ foldl (hideStep messages) skip js <->
  k ∈ skip
  \/ (k ∈ js /\ exists m, messages !! Z.to_nat k = Some m
                          /\ msg_type m = MAi /\ hasToolCalls m = false).
Proof.
  induction js as [|j js IH]; intros skip k; simpl.
  - rewrite elem_of_nil. tauto_goal.
  - rewrite IH, hideStep_one, elem_of_cons. tauto_goal.
Qed.

Lemma hidePhase_elem messages (skip : gset Z) p k :
  k ∈ hidePhase messages skip p <-> k ∈ skip \/ contributes messages p k.
Proof.
  unfold hidePhase, contributes.
  destruct (phasePair (phaseStatusArray messages) p) as [s c].
  destruct (Z.eqb_spec s (-1)) as [->|Hs]; simpl.
  { split; [by left | intros [?|(s' & c' & Heq & Hs & _)]; [done | congruence]]. }
  destruct (Z.eqb_spec c (-1)) as [->|Hc]; simpl.
  { split; [by left | intros [?|(s' & c' & Heq & _ & Hc & _)]; [done | congruence]]. }
  rewrite hideStep_elem, elem_of_union, elem_of_singleton, elem_of_seqZ. split.
  - intros [[->|?]|[Hk Hm]]; [right | by left | right].
    + exists s, c. repeat split; try done. by left.
    + exists s, c. repeat split; try done. right. split; [lia | done].
  - intros [?|(s' & c' & Heq & _ & _ & Hk)]; [left; by right|].
    injection Heq as <- <-. destruct Hk as [->|[Hk Hm]]; [left; by left|].
    right. split; [lia | done].
Qed.

(** The skip-set is what the completed phases contribute. *)
Lemma skipIndices_elem messages k :
  k ∈ skipIndices messages <->
  exists p, p ∈ completedPhases messages /\ contributes messages p k.
Proof.
  unfold skipIndices.
  assert (Hfold : forall ps (skip : gset Z),
    k ∈ foldl (hidePhase messages) skip ps
    <-> k ∈ skip \/ exists p, p ∈ ps /\ contributes messages p k).
  { induction ps as [|q ps IH]; intros skip; simpl.
    - split; [by left | intros [?|(p & H & _)]; [done | by apply elem_of_nil in H]].
    - rewrite IH, hidePhase_elem. split.
      + intros [[?|?]|(p & ? & ?)]; [by left | right; exists q; split; [by left | done] |].
        right. exists p. split; [by right | done].
      + intros [?|(p & [->|?]%elem_of_cons & ?)]; [left; by left | left; by right |].
        right. by exists p. }
  rewrite Hfold. split; [intros [H|H]; [by apply not_elem_of_empty in H | done] | by right].
Qed.

End PhaseLemmas.

Lemma latest_found (records : list (Z * PhaseRecord)) p st x :
  latest records p st x -> x <> -1 ->
  (x, {| phase := p; status := VString st |}) ∈ records.
Proof. intros [[-> _]|[Hin _]] Hx; done. Qed.

(** A message from which tool calls are derived has a non-empty shape. *)
Lemma derived_hasToolCalls (m : Message) :
  toolCallsInMessage m <> [] -> hasToolCalls m = true.
Proof.
  unfold toolCallsInMessage, hasToolCalls.
  destruct (additional_kwargs_tool_calls m) as [[|t calls]|]; simpl; try done.
  destruct (msg_tool_calls m) as [[|t calls]|]; simpl; try done.
  destruct (msg_content m) as [s|blocks]; [done|].
  intros Hne. apply existsb_exists.
  destruct (filter is_tool_use blocks) as [|b rest] eqn:Hf; [done|].
  assert (Hb : b ∈ filter is_tool_use blocks) by (rewrite Hf; by left).
  apply list_elem_of_filter in Hb as [Hb Hin%list_elem_of_In].
  exists b. split; [done | by apply Is_true_true].
Qed.

(** C1 (amended). A phase is resolved exactly when it has a completed record
    (an error record does not resolve it). For a phase the tracker pairs the
    last started index of the phase with its last completed index, each [-1]
    when there is no such record; and a phase without a started record hides
    nothing. *)
Theorem phase_pairing (messages : list Message) (p : JSValue) :
  let records := phaseStatusIndices messages in
  let pair := phasePair (phaseStatusArray messages) p in
  phaseStatusArray messages = records
  /\ (p ∈ completedPhases messages <->
      exists i, (i, {| phase := p; status := VString "completed" |}) ∈ records)
  /\ latest records p "started" pair.1
  /\ latest records p "completed" pair.2
  /\ (pair.1 = -1 -> forall skip, hidePhase messages skip p = skip).
Proof.
  intros records pair. split; [apply phaseStatusArray_eq|].
  split; [apply completedPhases_elem|].
  split; [apply phasePair_latest|]. split; [apply phasePair_latest|].
  subst pair. unfold hidePhase.
  destruct (phasePair (phaseStatusArray messages) p) as [s c]. simpl.
  by intros -> skip.
Qed.

(** What a paired phase hides: its started marker and the agent messages
    between the markers that have no non-empty tool-call shape. *)
Lemma paired_phase_hides (messages : list Message) (p : JSValue) (i j : Z) :
  p ∈ completedPhases messages ->
  phasePair (phaseStatusArray messages) p = (i, j) ->
  0 <= i < j ->
  i ∈ skipIndices messages
  /\ forall k m, i < k < j -> messages !! Z.to_nat k = Some m ->
       msg_type m = MAi -> hasToolCalls m = false -> k ∈ skipIndices messages.
Proof.
  intros Hp Hpair Hij. split.
  - apply skipIndices_elem. exists p. split; [done|].
    exists i, j. split; [done|]. split; [lia|]. split; [lia|]. by left.
  - intros k m Hk Hm Hty Hhas. apply skipIndices_elem. exists p. split; [done|].
    exists i, j. split; [done|]. split; [lia|]. split; [lia|].
    right. split; [done | by exists m].
Qed.

(** C2 (amended). Let the tracker pair, for a completed phase [p], the started
    marker at [i] with the completed marker at [j > i]. Then the message at
    [i] is hidden, and so is every agent message strictly between [i] and [j]
    for which none of the three tool-call shapes is non-empty. An agent
    message from which tool calls are derived is hidden only when it is the
    paired started marker of a completed phase; the message at [j] is hidden
    only when it lies strictly inside the paired range of another phase. Only
    agent messages are ever hidden (no tool result is), and every hidden index
    is due to a phase that has both a started and a completed record. *)
Theorem skip_set_of_paired_phase (messages : list Message) (p : JSValue) (i j : Z) :
  p ∈ completedPhases messages ->
  phasePair (phaseStatusArray messages) p = (i, j) ->
  0 <= i < j ->
  let skip := skipIndices messages in
  i ∈ skip
  /\ (forall k m, i < k < j -> messages !! Z.to_nat k = Some m ->
        msg_type m = MAi -> hasToolCalls m = false -> k ∈ skip)
  /\ (forall k m, 0 <= k -> messages !! Z.to_nat k = Some m ->
        toolCallsInMessage m <> [] -> k ∈ skip ->
        exists q c, q ∈ completedPhases messages
                    /\ phasePair (phaseStatusArray messages) q = (k, c) /\ c <> -1)
  /\ (j ∈ skip ->
        exists q s c, q ∈ completedPhases messages /\ q <> p
                      /\ phasePair (phaseStatusArray messages) q = (s, c)
                      /\ s < j < c)
  /\ (forall k, k ∈ skip ->
        0 <= k /\ exists m, messages !! Z.to_nat k = Some m /\ msg_type m = MAi)
  /\ (forall k, k ∈ skip ->
        exists q s c, q ∈ completedPhases messages
                      /\ phasePair (phaseStatusArray messages) q = (s, c)
                      /\ (s, {| phase := q; status := VString "started" |})
                         ∈ phaseStatusIndices messages
                      /\ (c, {| phase := q; status := VString "completed" |})
                         ∈ phaseStatusIndices messages).
Proof.
  intros Hp Hpair Hij skip. subst skip.
  assert (Hrecords : forall q s c,
            phasePair (phaseStatusArray messages) q = (s, c) -> s <> -1 -> c <> -1 ->
            (s, {| phase := q; status := VString "started" |})
              ∈ phaseStatusIndices messages
            /\ (c, {| phase := q; status := VString "completed" |})
                 ∈ phaseStatusIndices messages).
  { intros q s c Hq Hs Hc. destruct (phasePair_latest messages q) as [H1 H2].
    rewrite Hq in H1, H2. simpl in *. split; by eapply latest_found. }
  split; [|split; [|split; [|split; [|split]]]].
  - by apply (paired_phase_hides messages p i j).
  - by apply (paired_phase_hides messages p i j).
  - intros k m Hk Hm Hcalls (q & Hq & s & c & Hqpair & Hs & Hc & Hcase)%skipIndices_elem.
    destruct Hcase as [->|[_ (m' & Hm' & _ & Hhas)]]; [by exists q, c|].
    apply derived_hasToolCalls in Hcalls. congruence.
  - intros (q & Hq & s & c & Hqpair & Hs & Hc & Hcase)%skipIndices_elem.
    destruct (Hrecords p i j Hpair) as [_ Hj]; [lia | lia |].
    destruct Hcase as [->|[Hrange _]].
    + destruct (Hrecords q s c Hqpair Hs Hc) as [Hstarted _].
      pose proof (phaseStatusIndices_functional _ _ _ _ Hj Hstarted) as Heq.
      congruence.
    + exists q, s, c. repeat split; try done; try lia.
      intros ->. rewrite Hpair in Hqpair. injection Hqpair as <- <-. lia.
  - intros k (q & Hq & s & c & Hqpair & Hs & Hc & Hcase)%skipIndices_elem.
    destruct Hcase as [->|[Hrange (m & Hm & Hty & _)]].
    + destruct (Hrecords q s c Hqpair Hs Hc) as [Hstarted _].
      by apply phaseStatusIndices_agent in Hstarted.
    + destruct (Hrecords q s c Hqpair Hs Hc) as [Hstarted _].
      apply phaseStatusIndices_agent in Hstarted as [Hle _].
      split; [lia | by exists m].
  - intros k (q & Hq & s & c & Hqpair & Hs & Hc & _)%skipIndices_elem.
    exists q, s, c. destruct (Hrecords q s c Hqpair Hs Hc). done.
Qed.

(** ** Tool-call correlator *)

Lemma skipIndices_agent (messages : list Message) (k : Z) :
  k ∈ skipIndices messages ->
  0 <= k /\ exists m, messages !! Z.to_nat k = Some m /\ msg_type m = MAi.
Proof.
  intros (q & Hq & s & c & Hpair & Hs & Hc & Hcase)%skipIndices_elem.
  destruct (phasePair_latest messages q) as [Hstarted _].
  rewrite Hpair in Hstarted. simpl in Hstarted.
  apply latest_found, phaseStatusIndices_agent in Hstarted; [|done].
  destruct Hcase as [->|[Hrange (m & Hm & Hty & _)]]; [done|].
  split; [lia | by exists m].
Qed.

Section CorrelatorLemmas.

Implicit Types (tcs : list ToolCall) (map : list (option string * Entry)).

Lemma findIndex_None {A} (pred : A -> bool) (l : list A) :
  findIndex pred l = None <-> forall x, x ∈ l -> pred x = false.
Proof.
  induction l as [|x l IH]; simpl.
  - split; [intros _ x Hx; by apply elem_of_nil in Hx | done].
  - destruct (pred x) eqn:Hx.
    + split; [done|]. intros H. rewrite H in Hx; [done | by left].
    + rewrite fmap_None, IH. split.
      * intros H y [->|Hy]%elem_of_cons; [done | by apply H].
      * intros H y Hy. apply H. by right.
Qed.

Lemma findIndex_first {A} (pred : A -> bool) (before : list A) x after :
  (forall y, y ∈ before -> pred y = false) -> pred x = true ->
  findIndex pred (before ++ x :: after) = Some (length before).
Proof.
  induction before as [|y before IH]; intros Hbefore Hx; simpl.
  - by rewrite Hx.
  - rewrite (Hbefore y) by by left. rewrite IH; [done | | done].
    intros z Hz. apply Hbefore. by right.
Qed.

Lemma has_id_false toolCallId tcs :
  (forall tc, tc ∈ tcs -> has_id toolCallId tc = false) <->
  (forall tc, tc ∈ tcs -> tc_id tc <> toolCallId).
Proof.
  unfold has_id. split; intros H tc Htc; specialize (H tc Htc).
  - by apply String.eqb_neq.
  - by apply String.eqb_neq.
Qed.

Lemma not_holds_id toolCallId (e : option string * Entry) :
  ~ holds_id toolCallId e <->
  findIndex (has_id toolCallId) (toolCalls e.2) = None.
Proof.
  rewrite findIndex_None, has_id_false. unfold holds_id. split.
  - intros H tc Htc Hid. apply H. by exists tc.
  - intros H (tc & Htc & Hid). by apply (H tc).
Qed.

Lemma applyToolResult_none toolCallId result map :
  (forall e, e ∈ map -> ~ holds_id toolCallId e) ->
  applyToolResult toolCallId result map = map.
Proof.
  induction map as [|[k data] map IH]; intros Hnone; simpl; [done|].
  assert (Hhead : findIndex (has_id toolCallId) (toolCalls data) = None).
  { apply (not_holds_id toolCallId (k, data)), Hnone. by left. }
  rewrite Hhead, IH; [done|]. intros e He. apply Hnone. by right.
Qed.

Lemma applyToolResult_first toolCallId result pre k data post before tc after :
  (forall e, e ∈ pre -> ~ holds_id toolCallId e) ->
  toolCalls data = before ++ tc :: after ->
  (forall tc', tc' ∈ before -> tc_id tc' <> toolCallId) ->
  tc_id tc = toolCallId ->
  applyToolResult toolCallId result (pre ++ (k, data) :: post)
  = pre ++ (k, {| message := message data;
                  toolCalls := before ++ complete result tc :: after |}) :: post.
Proof.
  intros Hpre Hcalls Hbefore Hid.
  induction pre as [|[k' d'] pre IH]; simpl.
  - rewrite Hcalls, findIndex_first.
    + replace (length before) with (length before + 0)%nat by lia.
      by rewrite alter_app_r.
    + by apply has_id_false.
    + unfold has_id. by apply String.eqb_eq.
  - assert (Hhead : findIndex (has_id toolCallId) (toolCalls d') = None).
    { apply (not_holds_id toolCallId (k', d')), Hpre. by left. }
    rewrite Hhead, IH; [done|]. intros e He. apply Hpre. by right.
Qed.

End CorrelatorLemmas.

(** C3 (amended). A tool result is never hidden. When it is processed, the
    first entry of the message map that holds a tool call with the result's
    identifier has the first such tool call completed: its status becomes
    [completed] and its result the normalized text of the result message,
    whatever the status and result were before. When no tool call has the
    identifier, or the result carries none, nothing changes. Processing is a
    total function: no error is raised. *)
Theorem tool_result_correlation (messages : list Message) (interrupt : bool)
    (random : nat -> string) (st : PassState) (index : Z) (m : Message) :
  0 <= index -> messages !! Z.to_nat index = Some m -> msg_type m = MTool ->
  let toolCallId := default "" (tool_call_id m) in
  let result := extractStringFromMessageContent m in
  let st' := processMessage (skipIndices messages) interrupt random st index m in
  (index ∉ skipIndices messages)
  /\ (truthy_str (tool_call_id m) = false
      \/ (forall e, e ∈ st.1 -> ~ holds_id toolCallId e) -> st' = st)
  /\ (forall pre k data post before tc after,
        truthy_str (tool_call_id m) = true ->
        st.1 = pre ++ (k, data) :: post ->
        (forall e, e ∈ pre -> ~ holds_id toolCallId e) ->
        toolCalls data = before ++ tc :: after ->
        (forall tc', tc' ∈ before -> tc_id tc' <> toolCallId) ->
        tc_id tc = toolCallId ->
        st' = (pre ++ (k, {| message := message data;
                             toolCalls := before ++ complete result tc :: after |})
                   :: post, st.2)).
Proof.
  intros Hindex Hm Hty toolCallId result st'.
  assert (Hvisible : index ∉ skipIndices messages).
  { intros [_ (m' & Hm' & Hty')]%skipIndices_agent. congruence. }
  assert (Hst' : st' = if truthy_str (tool_call_id m)
                       then (applyToolResult toolCallId result st.1, st.2) else st).
  { subst st'. unfold processMessage. rewrite bool_decide_eq_false_2 by done.
    by rewrite Hty. }
  split; [done|]. rewrite Hst'. destruct st as [map n]. simpl. split.
  - intros [->|Hnone]; [done|]. destruct (truthy_str (tool_call_id m)); [|done].
    by rewrite applyToolResult_none.
  - intros pre k data post before tc after -> -> Hpre Hcalls Hbefore Hid.
    by rewrite (applyToolResult_first _ _ _ _ _ _ before tc after).
Qed.

(** ** Repeating the derivation *)

Section Repeatable.

Variable messages : list Message.
Variables random1 random2 : nat -> string.
Hypothesis Hfresh1 : unguessed random1 messages.
Hypothesis Hfresh2 : unguessed random2 messages.

Lemma toToolCall_alike interrupt n1 n2 t :
  alike messages (toToolCall interrupt random1 n1 t).1
                 (toToolCall interrupt random2 n2 t).1.
Proof using Hfresh1 Hfresh2.
  unfold toToolCall. destruct (truthy_str (raw_id t)); simpl.
  - split; [done|]. by intros c _.
  - split; [done|]. intros c Hc. split; intros <-; exfalso.
    + by apply (Hfresh1 n1).
    + by apply (Hfresh2 n2).
Qed.

Lemma toolCallsWithStatus_alike interrupt raws : forall n1 n2,
  Forall2 (alike messages) (toolCallsWithStatus interrupt random1 n1 raws).1
                           (toolCallsWithStatus interrupt random2 n2 raws).1.
Proof using Hfresh1 Hfresh2.
  induction raws as [|t raws IH]; intros n1 n2; simpl; [constructor|].
  pose proof (toToolCall_alike interrupt n1 n2 t) as Hhead.
  destruct (toToolCall interrupt random1 n1 t) as [tc1 n1'].
  destruct (toToolCall interrupt random2 n2 t) as [tc2 n2'].
  specialize (IH n1' n2').
  destruct (toolCallsWithStatus interrupt random1 n1' raws) as [tcs1 n1''].
  destruct (toolCallsWithStatus interrupt random2 n2' raws) as [tcs2 n2''].
  by constructor.
Qed.

Lemma map_set_alike key v1 v2 map1 map2 :
  Forall2 (alike_entries messages) map1 map2 ->
  alike_entries messages (key, v1) (key, v2) ->
  Forall2 (alike_entries messages) (map_set key v1 map1) (map_set key v2 map2).
Proof using Type.
  intros Hmaps Hv. induction Hmaps as [|[k1 d1] [k2 d2] map1 map2 He Hmaps IH]; simpl.
  - by constructor.
  - destruct He as (Hk & Hm & Hcalls). simpl in Hk. subst k2.
    case_bool_decide as Hkey; constructor; try done.
    by subst k1.
Qed.

Lemma findIndex_alike c tcs1 tcs2 :
  answered messages c -> Forall2 (alike messages) tcs1 tcs2 ->
  findIndex (has_id c) tcs1 = findIndex (has_id c) tcs2.
Proof using Type.
  intros Hc Hcalls. induction Hcalls as [|a b tcs1 tcs2 [_ Hid] _ IH]; simpl; [done|].
  rewrite IH. unfold has_id.
  destruct (String.eqb_spec (tc_id a) c) as [Ha|Ha],
           (String.eqb_spec (tc_id b) c) as [Hb|Hb]; try done.
  - by apply (Hid c Hc) in Ha.
  - by apply (Hid c Hc) in Hb.
Qed.

Lemma complete_alike result a b :
  alike messages a b -> alike messages (complete result a) (complete result b).
Proof using Type.
  intros [Hshown Hid]. unfold shown in Hshown. split; [|done].
  unfold shown, complete. simpl. congruence.
Qed.

Lemma applyToolResult_alike c result map1 map2 :
  answered messages c ->
  Forall2 (alike_entries messages) map1 map2 ->
  Forall2 (alike_entries messages) (applyToolResult c result map1)
                                   (applyToolResult c result map2).
Proof using Type.
  intros Hc Hmaps.
  induction Hmaps as [|[k1 d1] [k2 d2] map1 map2 He Hmaps IH]; simpl; [constructor|].
  destruct He as (Hk & Hm & Hcalls). simpl in *.
  rewrite (findIndex_alike c _ _ Hc Hcalls).
  destruct (findIndex (has_id c) (toolCalls d2)) as [i|].
  - constructor; [|done]. repeat split; try done. simpl.
    apply Forall2_alter; [done|]. intros a b _ _. apply complete_alike.
  - constructor; [|done]. by repeat split.
Qed.

Lemma processMessage_alike skip interrupt st1 st2 index m :
  m ∈ messages ->
  Forall2 (alike_entries messages) st1.1 st2.1 ->
  Forall2 (alike_entries messages)
          (processMessage skip interrupt random1 st1 index m).1
          (processMessage skip interrupt random2 st2 index m).1.
Proof using Hfresh1 Hfresh2.
  intros Hm Hmaps. unfold processMessage.
  case_bool_decide; [done|]. destruct (msg_type m) eqn:Hty; try done.
  - simpl. apply map_set_alike; [done|]. repeat split; constructor.
  - pose proof (toolCallsWithStatus_alike interrupt (toolCallsInMessage m) st1.2 st2.2)
      as Hcalls.
    destruct (toolCallsWithStatus interrupt random1 st1.2 (toolCallsInMessage m)).
    destruct (toolCallsWithStatus interrupt random2 st2.2 (toolCallsInMessage m)).
    simpl. apply map_set_alike; [done|]. by repeat split.
  - destruct (tool_call_id m) as [c|] eqn:Href; simpl; [|done].
    destruct (negb (String.eqb c "")); [|done]. simpl.
    apply applyToolResult_alike; [|done]. by exists m.
Qed.

Lemma secondPass_alike skip interrupt rest : forall st1 st2 index,
  (forall m, m ∈ rest -> m ∈ messages) ->
  Forall2 (alike_entries messages) st1.1 st2.1 ->
  Forall2 (alike_entries messages)
          (secondPass skip interrupt random1 st1 index rest).1
          (secondPass skip interrupt random2 st2 index rest).1.
Proof using Hfresh1 Hfresh2.
  induction rest as [|m rest IH]; intros st1 st2 index Hsub Hmaps; simpl; [done|].
  apply IH.
  - intros m' Hm'. apply Hsub. by right.
  - apply processMessage_alike; [|done]. apply Hsub. by left.
Qed.

Lemma withAvatars_alike map1 map2 : forall prev,
  Forall2 (alike_entries messages) map1 map2 ->
  statuses (withAvatars prev (map snd map1))
  = statuses (withAvatars prev (map snd map2)).
Proof using Type.
  intros prev Hmaps. revert prev.
  induction Hmaps as [|[k1 d1] [k2 d2] map1 map2 He Hmaps IH]; intros prev;
    simpl; [done|].
  destruct He as (_ & Hm & Hcalls). simpl in *. rewrite Hm.
  unfold statuses in *. simpl. f_equal; [|apply IH].
  f_equal. f_equal. clear -Hcalls.
  induction Hcalls as [|a b ? ? [Hshown _] _ IH']; simpl; [done|].
  by rewrite Hshown, IH'.
Qed.

Lemma processedMessages_alike interrupt :
  statuses (processedMessages messages interrupt random1)
  = statuses (processedMessages messages interrupt random2).
Proof using Hfresh1 Hfresh2.
  unfold processedMessages, messageMap. apply withAvatars_alike.
  apply secondPass_alike; [done | constructor].
Qed.

End Repeatable.

Lemma advances_refl (tcs : list ToolCall) : Forall2 advances tcs tcs.
Proof. induction tcs; constructor; [by split | done]. Qed.

Lemma entries_advance_refl (map : list (option string * Entry)) :
  Forall2 entries_advance map map.
Proof.
  induction map; constructor; [|done]. split; [done | apply advances_refl].
Qed.

Lemma advances_alter (result : string) (tcs : list ToolCall) : forall i,
  Forall2 advances tcs (alter (complete result) i tcs).
Proof.
  induction tcs as [|tc tcs IH]; intros [|i]; simpl; try constructor;
    try apply advances_refl; try apply IH; by split.
Qed.

(** A tool result leaves the identifiers as they are and a completed tool
    call completed. *)
Lemma completed_stays_completed (c result : string)
    (map : list (option string * Entry)) :
  Forall2 entries_advance map (applyToolResult c result map).
Proof.
  induction map as [|[k data] map IH]; simpl; [constructor|].
  destruct (findIndex (has_id c) (toolCalls data)) as [i|].
  - constructor; [|apply entries_advance_refl].
    split; [done | apply advances_alter].
  - constructor; [|done]. split; [done | apply advances_refl].
Qed.

(** For a constant random number the identifiers made up are one string. *)
Lemma unanswered_unguessed (text : string) (messages : list Message) :
  unanswered text messages = true -> unguessed (always text) messages.
Proof.
  unfold unanswered. rewrite forallb_forall.
  intros Hall n (m & Hin%list_elem_of_In & Hty & Href).
  apply Hall in Hin. unfold always in Href. rewrite Hty, Href in Hin.
  by rewrite bool_decide_eq_true_2 in Hin.
Qed.

(** C5 (amended). The skip-set is computed from the message list alone, so
    two derivations agree on it. Two derivations over the same message list
    and interrupt state show the same messages with the same tool-call names,
    arguments, results and statuses, provided no tool result of the list
    refers to an identifier of the form [tool-<random number>], which the
    derivation makes up for a tool call that has none. A tool result leaves
    every completed tool call completed: no status regresses. *)
Theorem derivation_repeatable (messages : list Message) (interrupt : bool)
    (random1 random2 : nat -> string) :
  unguessed random1 messages -> unguessed random2 messages ->
  statuses (processedMessages messages interrupt random1)
  = statuses (processedMessages messages interrupt random2)
  /\ forall skip st index m,
       msg_type m = MTool ->
       Forall2 entries_advance
               st.1 (processMessage skip interrupt random1 st index m).1.
Proof.
  intros Hfresh1 Hfresh2. split; [by apply processedMessages_alike|].
  intros skip st index m Hty. unfold processMessage.
  case_bool_decide; [apply entries_advance_refl|]. rewrite Hty.
  destruct (truthy_str (tool_call_id m)); [|apply entries_advance_refl].
  apply completed_stays_completed.
Qed.

(** ** Detail view of a completed phase *)

Section DetailLemmas.

Implicit Types (messages : list Message).





End DetailLemmas.


(** ** White space and trimming *)

Section TrimLemmas.

Lemma trim_end_empty (s : string) : trim_end s = "" <-> blank s = true.
Proof.
  induction s as [|c s IH]; simpl; [done|].
  destruct (trim_end s) eqn:Hs.
  - destruct (is_space c); simpl; [|by split].
    rewrite <- IH. by split.
  - split; [done|]. rewrite andb_true_iff. intros [_ Hb].
    apply IH in Hb. done.
Qed.

Lemma blank_trim_start (s : string) : blank (trim_start s) = blank s.
Proof.
  induction s as [|c s IH]; simpl; [done|].
  destruct (is_space c) eqn:Hc; simpl; [done|]. by rewrite Hc.
Qed.

Lemma trim_empty (s : string) : trim s = "" <-> blank s = true.
Proof. unfold trim. by rewrite trim_end_empty, blank_trim_start. Qed.

Lemma blank_app (a b : string) : blank (a +:+ b) = blank a && blank b.
Proof.
  induction a as [|c a IH]; simpl; [done|]. by rewrite IH, andb_assoc.
Qed.

Lemma blank_join (sep : string) (parts : list string) :
  (exists p, p ∈ parts /\ blank p = false) -> blank (join sep parts) = false.
Proof.
  induction parts as [|p rest IH]; intros (q & Hq & Hblank).
  - by apply elem_of_nil in Hq.
  - simpl. destruct rest as [|r rest].
    + apply list_elem_of_singleton in Hq. by subst.
    + rewrite !blank_app. apply elem_of_cons in Hq as [->|Hq].
      * by rewrite Hblank.
      * rewrite IH by eauto. by rewrite !andb_false_r.
Qed.

(** The first code unit of a trimmed string is not white space. *)
Lemma trim_start_head (s : string) c t :
  trim_start s = String c t -> is_space c = false.
Proof.
  induction s as [|a s IH]; simpl; [done|].
  destruct (is_space a) eqn:Ha; [done|]. by intros [= <- _].
Qed.

Lemma trim_end_head (c : ascii) (t : string) :
  is_space c = false -> exists t', trim_end (String c t) = String c t'.
Proof.
  intros Hc. simpl. destruct (trim_end t); rewrite ?Hc; eauto.
Qed.

Lemma trim_end_idempotent (s : string) : trim_end (trim_end s) = trim_end s.
Proof.
  induction s as [|c s IH]; simpl; [done|].
  destruct (trim_end s) as [|d t] eqn:Hs.
  - destruct (is_space c) eqn:Hc; simpl; [done|]. by rewrite Hc.
  - simpl in IH |- *. by rewrite IH.
Qed.

Lemma trim_idempotent (s : string) : trim (trim s) = trim s.
Proof.
  unfold trim. destruct (trim_start s) as [|c t] eqn:Hs; [done|].
  pose proof (trim_start_head _ _ _ Hs) as Hc.
  destruct (trim_end_head c t Hc) as [t' Ht'].
  rewrite Ht'. simpl trim_start. rewrite Hc.
  rewrite <- Ht'. apply trim_end_idempotent.
Qed.

End TrimLemmas.

(** ** The summary line of a sub-agent panel *)

Section SummaryLemmas.

Lemma every_trim_start P s : every P s = true -> every P (trim_start s) = true.
Proof.
  induction s as [|c s IH]; simpl; [done|].
  rewrite andb_true_iff. intros [Hc Hs].
  destruct (is_space c); [by apply IH|]. simpl. by rewrite Hc, Hs.
Qed.

Lemma every_trim_end P s : every P s = true -> every P (trim_end s) = true.
Proof.
  induction s as [|c s IH]; simpl; [done|].
  rewrite andb_true_iff. intros [Hc Hs]. specialize (IH Hs).
  destruct (trim_end s) as [|d t].
  - destruct (is_space c); simpl; [done|]. by rewrite Hc.
  - simpl in IH |- *. by rewrite Hc, IH.
Qed.

Lemma every_trim P s : every P s = true -> every P (trim s) = true.
Proof. intros. by apply every_trim_end, every_trim_start. Qed.

Lemma every_drop_hashes P s : every P s = true -> every P (drop_hashes s) = true.
Proof.
  induction s as [|c s IH]; simpl; [done|].
  rewrite andb_true_iff. intros [Hc Hs].
  destruct (Ascii.eqb c "#"); [by apply IH|]. simpl. by rewrite Hc, Hs.
Qed.

Lemma every_strip_heading P s : every P s = true -> every P (strip_heading s) = true.
Proof.
  intros Hs. unfold strip_heading. destruct (starts_with "#" s); [|done].
  by apply every_trim_start, every_drop_hashes.
Qed.

(** [remove_bold] on a string and on its tail, the shape the two-step
    recursion needs. *)
Lemma remove_bold_both (Q : string -> string -> Prop) :
  Q "" "" ->
  (forall c, Q (String c "") (String c "")) ->
  (forall c c' s, Ascii.eqb c "*" && Ascii.eqb c' "*" = true ->
     Q s (remove_bold s) -> Q (String c (String c' s)) (remove_bold s)) ->
  (forall c c' s, Ascii.eqb c "*" && Ascii.eqb c' "*" = false ->
     Q (String c' s) (remove_bold (String c' s)) ->
     Q (String c (String c' s)) (String c (remove_bold (String c' s)))) ->
  forall s, Q s (remove_bold s).
Proof.
  intros H0 H1 H2 H3.
  assert (Hboth : forall s, Q s (remove_bold s)
                            /\ forall c, Q (String c s) (remove_bold (String c s))).
  { induction s as [|c' s [IHs IHc]].
    - split; [done|]. intros c. apply H1.
    - split; [apply IHc|]. intros c.
      change (remove_bold (String c (String c' s)))
        with (if Ascii.eqb c "*" && Ascii.eqb c' "*" then remove_bold s
              else String c (remove_bold (String c' s))).
      destruct (Ascii.eqb c "*" && Ascii.eqb c' "*") eqn:Hpair.
      + apply H2; [done|]. destruct s; [done|]. apply IHs.
      + apply H3; [done|]. apply IHc. }
  intros s. apply Hboth.
Qed.

Lemma every_remove_bold P s : every P s = true -> every P (remove_bold s) = true.
Proof.
  revert s. apply (remove_bold_both (fun s r => every P s = true -> every P r = true)).
  - done.
  - done.
  - intros c c' s _ IH. simpl. rewrite !andb_true_iff. intros (_ & _ & Hs). by apply IH.
  - intros c c' s _ IH. simpl. rewrite !andb_true_iff. intros (Hc & Hc' & Hs).
    split; [done|]. apply IH. simpl. by rewrite Hc', Hs.
Qed.

Lemma remove_bold_no_pair s :
  includes "**" (remove_bold s) = false
  /\ forall c t, s = String c t -> Ascii.eqb c "*" = false ->
       exists t', remove_bold s = String c t'.
Proof.
  revert s.
  apply (remove_bold_both (fun s r =>
    includes "**" r = false
    /\ forall c t, s = String c t -> Ascii.eqb c "*" = false ->
         exists t', r = String c t')).
  - done.
  - intros c. split; [|by intros ? ? [= <- <-]; eauto].
    simpl. by rewrite !andb_false_r.
  - intros c c' s Hpair [IH _]. split; [done|].
    intros d t [= <- <-] Hd. apply andb_true_iff in Hpair as [Hc _]. congruence.
  - intros c c' s Hpair [IH Hhead]. split; [|by intros ? ? [= <- <-]; eauto].
    change (includes "**" (String c (remove_bold (String c' s))))
      with (starts_with "**" (String c (remove_bold (String c' s)))
            || includes "**" (remove_bold (String c' s))).
    rewrite IH, orb_false_r.
    change (starts_with "**" (String c (remove_bold (String c' s))))
      with (Ascii.eqb "*" c && starts_with "*" (remove_bold (String c' s))).
    rewrite (Ascii.eqb_sym "*" c).
    destruct (Ascii.eqb c "*") eqn:Hc; [|done]. rewrite andb_true_l in Hpair |- *.
    destruct (Hhead c' s eq_refl Hpair) as [t' ->].
    change (starts_with "*" (String c' t')) with (Ascii.eqb "*" c' && true).
    by rewrite (Ascii.eqb_sym "*" c'), Hpair.
Qed.

Lemma includes_tail p c s : includes p s = true -> includes p (String c s) = true.
Proof.
  intros Hs.
  change (includes p (String c s)) with (starts_with p (String c s) || includes p s).
  by rewrite Hs, orb_true_r.
Qed.

Lemma remove_bold_fixed s : includes "**" s = false -> remove_bold s = s.
Proof.
  revert s. apply (remove_bold_both (fun s r => includes "**" s = false -> r = s)).
  - done.
  - done.
  - intros c c' s Hpair _ Hs. apply andb_true_iff in Hpair as [Hc Hc'].
    apply Ascii.eqb_eq in Hc, Hc'. by subst.
  - intros c c' s _ IH Hs. f_equal. apply IH.
    destruct (includes "**" (String c' s)) eqn:Hrest; [|done].
    by rewrite (includes_tail _ c _ Hrest) in Hs.
Qed.

Lemma starts_with_app p a b : starts_with p a = true -> starts_with p (a +:+ b) = true.
Proof.
  revert a. induction p as [|x p IH]; intros [|y a]; simpl; try done.
  rewrite !andb_true_iff. intros [-> Hp]. split; [done|]. by apply IH.
Qed.

Lemma includes_app_l p a b : includes p a = true -> includes p (a +:+ b) = true.
Proof.
  induction a as [|c a IH].
  - simpl. rewrite orb_false_r. intros Hp. destruct p; [|done]. by destruct b.
  - change (includes p (String c a)) with (starts_with p (String c a) || includes p a).
    change (includes p (String c a +:+ b))
      with (starts_with p (String c a +:+ b) || includes p (a +:+ b)).
    rewrite !orb_true_iff. intros [Hp|Hp]; [left|right].
    + by apply (starts_with_app p (String c a) b).
    + by apply IH.
Qed.

Lemma includes_app_r p a b : includes p b = true -> includes p (a +:+ b) = true.
Proof.
  intros Hb. induction a as [|c a IH]; [done|]. by apply includes_tail.
Qed.

Lemma trim_end_prefix s : exists t, s = trim_end s +:+ t.
Proof.
  induction s as [|c s [t IH]]; [by exists ""|].
  simpl. destruct (trim_end s) as [|d r].
  - destruct (is_space c).
    + by exists (String c s).
    + exists s. done.
  - exists t. simpl in IH |- *. by rewrite IH at 1.
Qed.

Lemma trim_start_suffix s : exists t, s = t +:+ trim_start s.
Proof.
  induction s as [|c s [t IH]]; [by exists ""|].
  simpl. destruct (is_space c).
  - exists (String c t).
    change (String c t +:+ trim_start s) with (String c (t +:+ trim_start s)).
    by rewrite <- IH.
  - by exists "".
Qed.

Lemma includes_trim p s : includes p (trim s) = true -> includes p s = true.
Proof.
  unfold trim. intros Hp.
  destruct (trim_start_suffix s) as [a Ha].
  destruct (trim_end_prefix (trim_start s)) as [b Hb].
  rewrite Ha. apply includes_app_r. rewrite Hb. by apply includes_app_l.
Qed.

Lemma line_feed_code c : Ascii.eqb "010" c = negb (not_line_feed c).
Proof.
  unfold not_line_feed. rewrite negb_involutive.
  destruct (Ascii.eqb_spec "010" c) as [<-|Hne]; [done|].
  symmetry. apply Nat.eqb_neq. intros Hc. apply Hne.
  by rewrite <- (ascii_nat_embedding c), Hc.
Qed.

Lemma every_first_line s : every not_line_feed (first_line s) = true.
Proof.
  induction s as [|c s IH]; simpl; [done|].
  destruct (nat_of_ascii c =? 10)%nat eqn:Hc; [done|].
  simpl. unfold not_line_feed at 1. by rewrite Hc, IH.
Qed.

Lemma first_line_fixed s : every not_line_feed s = true -> first_line s = s.
Proof.
  induction s as [|c s IH]; simpl; [done|].
  rewrite andb_true_iff. unfold not_line_feed at 1. intros [Hc Hs].
  apply negb_true_iff in Hc. rewrite Hc. by rewrite IH.
Qed.

Lemma no_line_feed s : every not_line_feed s = true -> includes newline s = false.
Proof.
  induction s as [|c s IH]; [done|]. simpl every. rewrite andb_true_iff. intros [Hc Hs].
  change (includes newline (String c s))
    with ((Ascii.eqb "010" c && true) || includes newline s).
  by rewrite line_feed_code, Hc, IH.
Qed.

End SummaryLemmas.

(** X1. The summary line of a sub-agent panel is one plain line: it holds no
    line feed and no pair of stars, and it neither starts nor ends with white
    space. It is empty when the first line of the task is blank, and a task
    that already is one plain line (no line feed, no pair of stars, no hash
    mark at its head, not empty, trimmed) is shown unchanged. *)
Theorem getTaskSummary_one_plain_line (content : string) :
  let summary := getTaskSummary content in
  includes newline summary = false
  /\ includes "**" summary = false
  /\ trim summary = summary
  /\ (blank (first_line content) = true -> summary = "")
  /\ (every not_line_feed content = true -> includes "**" content = false ->
      starts_with "#" content = false -> trim content = content ->
      summary = content).
Proof.
  unfold getTaskSummary. destruct (String.eqb_spec content "") as [->|Hne]; [done|].
  cbv zeta. repeat split.
  - apply no_line_feed, every_trim, every_remove_bold, every_strip_heading,
      every_trim, every_first_line.
  - destruct (includes "**" (trim (remove_bold _))) eqn:Hp; [|done].
    apply includes_trim in Hp. by rewrite (proj1 (remove_bold_no_pair _)) in Hp.
  - apply trim_idempotent.
  - intros Hblank. apply trim_empty in Hblank. by rewrite Hblank.
  - intros Hline Hbold Hhash Htrim.
    rewrite (first_line_fixed _ Hline), Htrim.
    unfold strip_heading. rewrite Hhash.
    by rewrite (remove_bold_fixed _ Hbold).
Qed.

(** ** Panels, boxes and reports of a chat message *)

Section PanelLemmas.



Lemma imap_boxes (f : nat -> ToolCall -> option ToolCall) (l : list ToolCall) (k : nat) :
  (forall i tc, f i tc = if (k <=? i)%nat then None else Some tc) ->
  omap id (imap f l) = take k l.
Proof.
  revert f k. induction l as [|tc l IH]; intros f k Hf; [by destruct k|].
  simpl. rewrite Hf. destruct k as [|k]; simpl.
  - apply (IH _ 0%nat). intros i tc'. unfold compose. by rewrite Hf.
  - f_equal. apply (IH _ k). intros i tc'. unfold compose. by rewrite Hf.
Qed.

Lemma imap_all (f : nat -> ToolCall -> option ToolCall) (l : list ToolCall) :
  (forall i tc, f i tc = Some tc) -> omap id (imap f l) = l.
Proof.
  revert f. induction l as [|tc l IH]; intros f Hf; [done|].
  simpl. rewrite Hf. simpl. f_equal. apply IH. intros i tc'. unfold compose. apply Hf.
Qed.

Lemma filter_disjoint_length {A} (P Q : A -> bool) (l : list A) :
  (forall x, P x -> Q x -> False) ->
  (length (filter P l) + length (filter Q l) <= length l)%nat.
Proof.
  intros Hdisjoint. induction l as [|x l IH]; [done|].
  rewrite !filter_cons. repeat case_decide; simpl; try lia.
  by destruct (Hdisjoint x).
Qed.


End PanelLemmas.


(** X3. Every tool call of a message is shown at most once: as a
    box when its name is not [task], as a sub-agent panel when it is a [task]
    call with a usable [subagent_type]. A [task] call whose [subagent_type]
    is missing or falsy is shown neither as a box nor as a panel. The boxes
    and the panels together are never more than the tool calls. *)
Theorem box_or_panel (toolCalls : list ToolCall) :
  (forall tc, tc ∈ displayableToolCalls toolCalls <->
              tc ∈ toolCalls /\ tc_name tc <> "task")
  /\ (forall tc, tc ∈ displayableToolCalls toolCalls -> isSubAgentCall tc = false)
  /\ (forall tc, tc ∈ toolCalls -> tc_name tc = "task" ->
        truthy (get "subagent_type" (tc_args tc)) = false ->
        (tc ∉ displayableToolCalls toolCalls)
        /\ (tc ∉ filter isSubAgentCall toolCalls))
  /\ (length (displayableToolCalls toolCalls) + length (subAgents toolCalls)
      <= length toolCalls)%nat.
Proof.
  unfold displayableToolCalls.
  assert (Hbox : forall tc,
    tc ∈ filter (fun tc : ToolCall => negb (String.eqb (tc_name tc) "task")) toolCalls
    <-> tc ∈ toolCalls /\ tc_name tc <> "task").
  { intros tc. rewrite list_elem_of_filter.
    destruct (String.eqb_spec (tc_name tc) "task") as [->|Hne]; simpl.
    - split; [by intros [[] _]|by intros [_ []]].
    - split; [by intros [_ ?]|by intros [? _]]. }
  split; [done|]. split; [|split].
  - intros tc [_ Hname]%Hbox. unfold isSubAgentCall.
    by destruct (String.eqb_spec (tc_name tc) "task").
  - intros tc Hin Hname Hfalsy. split.
    + rewrite Hbox. by intros [_ []].
    + rewrite list_elem_of_filter. unfold isSubAgentCall.
      rewrite Hfalsy, andb_false_r. simpl. by intros [[] _].
  - unfold subAgents. rewrite length_map. apply filter_disjoint_length.
    intros tc Hname Hagent. unfold isSubAgentCall in Hagent.
    by destruct (String.eqb (tc_name tc) "task").
Qed.

(** X4. While the tool calls are collapsed and more than three boxes
    could be shown, exactly the first three are rendered; otherwise all of
    them are. In both cases no box is rendered for a [task] call. *)
Theorem collapsed_boxes_are_first_three (toolCallsExpanded : bool)
    (toolCalls : list ToolCall) :
  toolCallBoxes toolCallsExpanded toolCalls
  = (if negb toolCallsExpanded && hasMoreToolCalls toolCalls
     then take TOOL_CALLS_THRESHOLD (displayableToolCalls toolCalls)
     else displayableToolCalls toolCalls)
  /\ (hasMoreToolCalls toolCalls = true ->
      length (toolCallBoxes false toolCalls) = TOOL_CALLS_THRESHOLD)
  /\ Forall (fun tc => tc_name tc <> "task") (toolCallBoxes toolCallsExpanded toolCalls).
Proof.
  assert (Heq : toolCallBoxes toolCallsExpanded toolCalls
    = (if negb toolCallsExpanded && hasMoreToolCalls toolCalls
       then take TOOL_CALLS_THRESHOLD (displayableToolCalls toolCalls)
       else displayableToolCalls toolCalls)).
  { unfold toolCallBoxes. destruct (0 <? length toolCalls)%nat eqn:Hlen.
    2: { destruct toolCalls; [|done]. by destruct (_ && _). }
    destruct (negb toolCallsExpanded && hasMoreToolCalls toolCalls) eqn:Hmore.
    - apply imap_boxes. intros i tc'. unfold renderedBox. by rewrite Hmore.
    - apply imap_all. intros i tc'. unfold renderedBox. by rewrite Hmore. }
  assert (Hnames : Forall (fun tc => tc_name tc <> "task")
                          (displayableToolCalls toolCalls)).
  { apply list.Forall_forall. intros tc Htc.
    apply list_elem_of_filter in Htc as [Hname _].
    by destruct (String.eqb_spec (tc_name tc) "task"). }
  split; [done|]. split.
  - intros Hmore. clear Heq.
    assert (Heq : toolCallBoxes false toolCalls
                  = take TOOL_CALLS_THRESHOLD (displayableToolCalls toolCalls)).
    { unfold toolCallBoxes. destruct (0 <? length toolCalls)%nat eqn:Hlen.
      2: { by destruct toolCalls. }
      apply imap_boxes. intros i tc'. unfold renderedBox. by rewrite Hmore. }
    rewrite Heq, length_take. unfold hasMoreToolCalls in Hmore.
    apply Nat.ltb_lt in Hmore. lia.
  - rewrite Heq. destruct (_ && _); [|done]. by apply Forall_take.
Qed.


Lemma detailMessages_not_blank (startedIndex completedIndex : nat)
    (allMessages : list Message) (x : string) :
  x ∈ detailMessages startedIndex completedIndex allMessages -> blank x = false.
Proof.
  unfold detailMessages. rewrite list_elem_of_fmap.
  intros (m & -> & Hm). apply list_elem_of_filter in Hm as [Hdetail _].
  unfold isDetail in Hdetail. destruct (msg_type m); try done.
  apply Is_true_true, andb_true_iff in Hdetail as [_ Htrim].
  destruct (blank (extractStringFromMessageContent m)) eqn:Hblank; [|done].
  apply trim_empty in Hblank. by rewrite Hblank in Htrim.
Qed.

Lemma hasDetails_not_blank (d : string) : blank d = false -> hasDetails (Some d) = true.
Proof.
  intros Hblank. unfold hasDetails.
  destruct (String.eqb_spec d "") as [->|_]; [done|]. simpl.
  destruct (trim d) eqn:Htrim; [|done].
  apply trim_empty in Htrim. congruence.
Qed.

(** X6. Whenever the detail view of a message is not null, the message
    is rendered as a phase status row whose details can be expanded: its
    parsed marker is truthy with status [completed], and the detail text is
    not blank. Without a detail view no row can be expanded. *)
Theorem details_make_row_expandable (msg : Message) (allMessages : list Message)
    (details : string) :
  phaseDetails msg allMessages = Some details ->
  blank details = false
  /\ (exists data, phaseStatus msg = Some data /\ truthy_json data = true
                   /\ canExpand data (phaseDetails msg allMessages) = true)
  /\ forall data, canExpand data None = false.
Proof.
  intros Hdetails. rewrite Hdetails.
  assert (Hshape : blank details = false
                   /\ exists data, phaseStatus msg = Some data
                                   /\ truthy_json data = true
                                   /\ strict_equal (member (-1) "status" data)
                                                   (VString "completed") = true).
  { unfold phaseDetails in Hdetails. cbv zeta in Hdetails. unfold phaseStatus.
    destruct (match msg_type msg with MHuman => _ | MAi => _ | MTool => _ | MOther => _ end)
      as [data|]; [|done].
    destruct (truthy_json data) eqn:Htruthy; [|done].
    destruct (strict_equal _ _) eqn:Hstatus; [|done].
    simpl in Hdetails. case_bool_decide; [done|].
    destruct (findIndex _ _) as [completedIndex|]; [|done].
    destruct (findStarted _ _ _) as [startedIndex|]; [|done].
    destruct (detailMessages _ _ _) as [|x rest] eqn:Hlist; [done|].
    injection Hdetails as <-. split; [|by eauto].
    apply (blank_join (newline +:+ newline) (x :: rest)). exists x. split; [by left|].
    apply (detailMessages_not_blank startedIndex completedIndex allMessages).
    rewrite Hlist. by left. }
  destruct Hshape as (Hblank & data & Hdata & Htruthy & Hstatus).
  split; [done|]. split.
  - exists data. unfold canExpand. by rewrite Hstatus, hasDetails_not_blank.
  - intros data'. unfold canExpand. apply andb_false_r.
Qed.

(** ** The running phase and the task list *)

Section RunningPhaseLemmas.

Lemma inferStep_elem (acc : list JSValue * list JSValue) (index : Z) (m : Message)
    (p : JSValue) :
  (p ∈ (inferStep acc index m).1 <->
   p ∈ acc.1
   \/ statusRecordOf index m = Some {| phase := p; status := VString "started" |})
  /\ (p ∈ (inferStep acc index m).2 <->
      p ∈ acc.2
      \/ statusRecordOf index m = Some {| phase := p; status := VString "completed" |}).
Proof.
  unfold inferStep. destruct (statusRecordOf index m) as [[ph st]|]; simpl.
  2: { split; (split; [by left|by intros [?|?]]). }
  unfold strict_equal.
  case_bool_decide as Hstarted; [|case_bool_decide as Hcompleted]; simpl.
  - subst st. rewrite set_add_elem. split.
    + split; [intros [->|?]; [by right|by left]|].
      intros [?|Heq]; [by right|left; by injection Heq].
    + split; [by left|by intros [?|?]].
  - subst st. rewrite set_add_elem. split.
    + split; [by left|by intros [?|?]].
    + split; [intros [->|?]; [by right|by left]|].
      intros [?|Heq]; [by right|left; by injection Heq].
  - split; (split; [by left|]; intros [?|Heq]; [done|];
            injection Heq as ? ?; by subst).
Qed.

Lemma inferPhases_elem (messages : list Message) (p : JSValue) :
  forall (acc : list JSValue * list JSValue) (n : Z),
  (p ∈ (inferPhases acc n messages).1 <->
   p ∈ acc.1
   \/ exists i m, messages !! i = Some m
                  /\ statusRecordOf (n + Z.of_nat i) m
                     = Some {| phase := p; status := VString "started" |})
  /\ (p ∈ (inferPhases acc n messages).2 <->
      p ∈ acc.2
      \/ exists i m, messages !! i = Some m
                     /\ statusRecordOf (n + Z.of_nat i) m
                        = Some {| phase := p; status := VString "completed" |}).
Proof.
  induction messages as [|m rest IH]; intros acc n; simpl.
  { split; (split; [by left|by intros [?|(i & ? & ? & _)]]). }
  destruct (IH (inferStep acc n m) (n + 1)) as [IH1 IH2].
  destruct (inferStep_elem acc n m p) as [Hs1 Hs2].
  rewrite IH1, IH2, Hs1, Hs2. clear IH IH1 IH2 Hs1 Hs2.
  split; (split;
    [ intros [[?|Hhere]|(i & m' & Hi & Hrec)];
      [ by left
      | right; exists 0%nat, m; split; [done|]; by rewrite Z.add_0_r
      | right; exists (S i), m'; split; [done|];
        by replace (n + Z.of_nat (S i)) with (n + 1 + Z.of_nat i) by lia ]
    | intros [?|(i & m' & Hi & Hrec)]; [by left; left|];
      destruct i as [|i];
      [ injection Hi as <-; rewrite Z.add_0_r in Hrec; by left; right
      | right; exists i, m'; split; [done|];
        by replace (n + 1 + Z.of_nat i) with (n + Z.of_nat (S i)) by lia ] ]).
Qed.

Lemma inferredCurrentPhase_Some (isLoading : bool) (messages : list Message) (p : JSValue) :
  inferredCurrentPhase isLoading messages = Some p ->
  isLoading = true /\ marked messages p "started" /\ ~ marked messages p "completed".
Proof.
  unfold inferredCurrentPhase. destruct isLoading; [|done]. simpl.
  destruct (length messages =? 0)%nat; [done|].
  destruct (inferPhases ([], []) 0 messages) as [started completed] eqn:Hinfer.
  intros Hfind. apply find_some in Hfind as [Hin Hnot].
  apply list_elem_of_In in Hin. apply negb_true_iff, bool_decide_eq_false in Hnot.
  destruct (inferPhases_elem messages p ([], []) 0) as [H1 H2].
  rewrite Hinfer in H1, H2. simpl in H1, H2. split; [done|]. split.
  - apply H1 in Hin as [Hin|Hin]; [by apply elem_of_nil in Hin|]. exact Hin.
  - intros Hmarked. apply Hnot, H2. by right.
Qed.

Lemma inferredCurrentPhase_None (messages : list Message) (p : JSValue) :
  inferredCurrentPhase true messages = None ->
  marked messages p "started" -> marked messages p "completed".
Proof.
  unfold inferredCurrentPhase. simpl.
  destruct (length messages =? 0)%nat eqn:Hlen.
  { destruct messages; [|done]. by intros _ (i & m & Hi & _). }
  destruct (inferPhases ([], []) 0 messages) as [started completed] eqn:Hinfer.
  intros Hfind Hstarted.
  destruct (inferPhases_elem messages p ([], []) 0) as [H1 H2].
  rewrite Hinfer in H1, H2. simpl in H1, H2.
  assert (Hin : p ∈ started) by (apply H1; by right).
  apply list_elem_of_In in Hin.
  pose proof (find_none _ _ Hfind p Hin) as Hnot. simpl in Hnot.
  apply negb_false_iff, bool_decide_eq_true in Hnot.
  apply H2 in Hnot as [Hnot|Hnot]; [by apply elem_of_nil in Hnot|]. exact Hnot.
Qed.

Lemma phase_marker_includes (s g : string) :
  phase_marker s = Some g -> isPhaseStatusMessage s = true.
Proof.
  unfold isPhaseStatusMessage. induction s as [|c s IH].
  - simpl. unfold marker_at. simpl. done.
  - change (phase_marker (String c s))
      with (match marker_at (String c s) with
            | Some g => Some g
            | None => phase_marker s
            end).
    change (includes "__PHASE_STATUS__" (String c s))
      with (starts_with "__PHASE_STATUS__" (String c s)
            || includes "__PHASE_STATUS__" s).
    unfold marker_at.
    destruct (starts_with "__PHASE_STATUS__" (String c s)); [done|].
    intros Hs. by rewrite IH.
Qed.

(** On an agent message whose content is a string, the loop of the running
    phase and the phase tracker read the same record. *)
Lemma statusRecordOf_agent (index : Z) (m : Message) :
  msg_type m = MAi -> hasStringContent m = true ->
  phaseRecordOf index m = statusRecordOf index m.
Proof.
  intros Hai Hstring. unfold phaseRecordOf, statusRecordOf. rewrite Hai.
  unfold extractStringFromMessageContent, stringContent, hasStringContent in *.
  destruct (msg_content m) as [s|]; [|done].
  destruct (phase_marker s) as [g|] eqn:Hmarker.
  - by rewrite (phase_marker_includes s g Hmarker).
  - by destruct (isPhaseStatusMessage s).
Qed.

Lemma findIndex_Some {A} (pred : A -> bool) (l : list A) (i : nat) :
  findIndex pred l = Some i -> exists x, l !! i = Some x /\ pred x = true.
Proof.
  revert i. induction l as [|x l IH]; intros i; simpl; [done|].
  destruct (pred x) eqn:Hx.
  - intros [= <-]. by exists x.
  - destruct (findIndex pred l) as [j|]; [|done]. intros [= <-]. by apply IH.
Qed.

End RunningPhaseLemmas.

(** X7. The running phase inferred from the messages: there is none
    while the agent is not loading; a phase that is returned has a [started]
    marker in a message with string content and no [completed] marker in any
    such message, whatever the order of the two; and when none is returned
    while loading, every started phase has a [completed] marker. *)
Theorem inferredCurrentPhase_started_not_completed (isLoading : bool)
    (messages : list Message) :
  (isLoading = false -> inferredCurrentPhase isLoading messages = None)
  /\ (forall p, inferredCurrentPhase isLoading messages = Some p ->
        isLoading = true /\ marked messages p "started"
        /\ ~ marked messages p "completed")
  /\ (isLoading = true -> inferredCurrentPhase isLoading messages = None ->
        forall p, marked messages p "started" -> marked messages p "completed").
Proof.
  split; [by intros ->|]. split.
  - apply inferredCurrentPhase_Some.
  - intros -> Hnone p. by apply inferredCurrentPhase_None.
Qed.

(** X8. When the content of every agent message is a string, the
    phase shown as running in the task list is not one of the completed
    phases of the phase tracker: it hides no message, and every hidden index
    is hidden by another phase. *)
Theorem running_phase_is_not_folded (messages : list Message) (p : JSValue) :
  forallb (fun m => implb (MessageType_eqb (msg_type m) MAi) (hasStringContent m))
          messages = true ->
  inferredCurrentPhase true messages = Some p ->
  (p ∉ completedPhases messages)
  /\ forall k, k ∈ skipIndices messages ->
       exists q, q <> p /\ q ∈ completedPhases messages /\ contributes messages q k.
Proof.
  intros Hstrings Hphase.
  apply inferredCurrentPhase_Some in Hphase as (_ & _ & Hnot).
  assert (Hout : p ∉ completedPhases messages).
  { intros Hin. apply completedPhases_elem in Hin as [i Hi].
    apply phaseStatusIndices_elem in Hi as (Hpos & m & Hm & Hrec).
    pose proof (phaseRecordOf_ai _ _ _ Hrec) as Hai.
    rewrite forallb_forall in Hstrings.
    assert (Hstring : hasStringContent m = true).
    { specialize (Hstrings m). rewrite Hai in Hstrings. apply Hstrings.
      apply list_elem_of_In. by eapply list_elem_of_lookup_2. }
    rewrite statusRecordOf_agent in Hrec by done.
    apply Hnot. exists (Z.to_nat i), m. split; [done|]. by rewrite Z2Nat.id. }
  split; [done|]. intros k Hk.
  apply skipIndices_elem in Hk as (q & Hq & Hcontributes).
  exists q. split; [|done]. by intros ->.
Qed.

(** X9. The task list that is displayed keeps every todo of the
    backend in its place with its identifier and content, and changes at most
    the status of one of them, to [in_progress], never that of a completed
    one. It adds at most one todo, at the end. While the agent is loading and
    a (truthy) running phase is inferred, the list holds a todo of that phase
    that is in progress or completed; a todo that is added bears the name the
    status row of the phase shows. When the agent is not loading the list is
    the one of the backend. *)
Theorem displayTodos_keeps_backend_todos (todos : list TodoItem)
    (current : option JSValue) (isLoading : bool) :
  let result := displayTodos todos current isLoading in
  (isLoading = false -> result = todos)
  /\ (length todos <= length result <= S (length todos))%nat
  /\ (forall i t, todos !! i = Some t ->
        exists t', result !! i = Some t'
                   /\ todo_id t' = todo_id t /\ todo_content t' = todo_content t
                   /\ (t' = t
                       \/ (todo_status t' = "in_progress"
                           /\ todo_status t <> "completed")))
  /\ (exists j, forall i t, i <> j -> todos !! i = Some t -> result !! i = Some t)
  /\ (forall p, current = Some p -> truthy_value p = true -> isLoading = true ->
        exists t, t ∈ result /\ todo_id t = "phase_" +:+ ToString p
                  /\ (todo_status t = "in_progress" \/ todo_status t = "completed"))
  /\ (forall i t, (length todos <= i)%nat -> result !! i = Some t ->
        exists p, current = Some p
                  /\ todo_id t = "phase_" +:+ ToString p
                  /\ todo_status t = "in_progress"
                  /\ (forall t0, t0 ∈ todos -> todo_id t0 <> todo_id t)
                  /\ forall data, member (-1) "phase" data = p ->
                       todo_content t = phaseName data).
Proof.
  intros result. subst result.
  assert (Hnone : forall (l : list TodoItem) i t,
    (length l <= i)%nat -> l !! i = Some t -> False).
  { intros l i t Hlen Hi. apply lookup_lt_Some in Hi. lia. }
  assert (Hsame : displayTodos todos current isLoading = todos ->
    (forall p, current = Some p -> truthy_value p = true -> isLoading = true -> False) ->
    let result := displayTodos todos current isLoading in
    (isLoading = false -> result = todos)
    /\ (length todos <= length result <= S (length todos))%nat
    /\ (forall i t, todos !! i = Some t ->
          exists t', result !! i = Some t'
                     /\ todo_id t' = todo_id t /\ todo_content t' = todo_content t
                     /\ (t' = t
                         \/ (todo_status t' = "in_progress"
                             /\ todo_status t <> "completed")))
    /\ (exists j, forall i t, i <> j -> todos !! i = Some t -> result !! i = Some t)
    /\ (forall p, current = Some p -> truthy_value p = true -> isLoading = true ->
          exists t, t ∈ result /\ todo_id t = "phase_" +:+ ToString p
                    /\ (todo_status t = "in_progress" \/ todo_status t = "completed"))
    /\ (forall i t, (length todos <= i)%nat -> result !! i = Some t ->
          exists p, current = Some p
                    /\ todo_id t = "phase_" +:+ ToString p
                    /\ todo_status t = "in_progress"
                    /\ (forall t0, t0 ∈ todos -> todo_id t0 <> todo_id t)
                    /\ forall data, member (-1) "phase" data = p ->
                         todo_content t = phaseName data)).
  { intros -> Hoff result. subst result. split; [done|]. split; [lia|].
    split; [|split; [|split]].
    - intros i t Hi. exists t. by eauto.
    - by exists 0%nat.
    - intros p Hp Htruthy Hloading. by destruct (Hoff p).
    - intros i t Hlen Hi. by destruct (Hnone todos i t). }
  destruct current as [p|]; [|by apply Hsame].
  destruct (truthy_value p) eqn:Htruthy.
  2: { apply Hsame; [by unfold displayTodos; rewrite Htruthy|].
       intros q [= <-]. congruence. }
  destruct isLoading.
  2: { apply Hsame; [by unfold displayTodos; rewrite Htruthy|]. by intros q _ _. }
  clear Hsame. unfold displayTodos. rewrite Htruthy. simpl andb. cbv iota.
  destruct (findIndex (is_phase_todo p) todos) as [j|] eqn:Hfind.
  - apply findIndex_Some in Hfind as (found & Hj & Hid).
    apply String.eqb_eq in Hid.
    split; [done|]. split; [rewrite length_alter; lia|]. split; [|split; [|split]].
    + intros i t Hi. destruct (decide (i = j)) as [->|Hne].
      * rewrite list_lookup_alter_eq, Hi. simpl. eexists. split; [done|].
        unfold markInProgress.
        destruct (String.eqb_spec (todo_status t) "in_progress");
          destruct (String.eqb_spec (todo_status t) "completed"); simpl; eauto.
      * rewrite list_lookup_alter_ne by done. exists t. by eauto.
    + exists j. intros i t Hne Hi. by rewrite list_lookup_alter_ne.
    + intros q [= <-] _ _. exists (markInProgress found). split.
      * apply list_elem_of_lookup. exists j. by rewrite list_lookup_alter_eq, Hj.
      * unfold markInProgress.
        destruct (String.eqb_spec (todo_status found) "in_progress");
          destruct (String.eqb_spec (todo_status found) "completed"); simpl; eauto.
    + intros i t Hlen Hi. rewrite <- (length_alter markInProgress todos j) in Hlen.
      by destruct (Hnone _ i t Hlen).
  - split; [done|]. split; [rewrite length_app; simpl; lia|]. split; [|split; [|split]].
    + intros i t Hi. exists t. rewrite lookup_app_l by (by eapply lookup_lt_Some).
      by eauto.
    + exists 0%nat. intros i t _ Hi.
      by rewrite lookup_app_l by (by eapply lookup_lt_Some).
    + intros q [= <-] _ _. eexists. split; [apply elem_of_app; right; by left|].
      simpl. by eauto.
    + intros i t Hlen Hi. rewrite lookup_app_r in Hi by done.
      apply list_lookup_singleton_Some in Hi as [_ <-]. simpl.
      exists p. repeat split; try done.
      * intros t0 Ht0 Hid.
        pose proof (proj1 (findIndex_None _ _) Hfind t0 Ht0) as Hno.
        unfold is_phase_todo in Hno. by apply String.eqb_neq in Hno.
      * intros data <-. reflexivity.
Qed.

(** ** The maps of the pending approvals *)

Section ApprovalLemmas.

Context {A : Type}.

Lemma assoc_Map_set (key k : string) (v : A) (m : list (string * A)) :
  assoc key (Map_set k v m) = if String.eqb key k then Some v else assoc key m.
Proof.
  induction m as [|[k' old] m IH]; simpl; [done|].
  destruct (String.eqb_spec k' k) as [->|Hk]; simpl.
  - by destruct (String.eqb_spec key k).
  - rewrite IH. destruct (String.eqb_spec key k') as [->|Hkey]; [|done].
    by destruct (String.eqb_spec k' k).
Qed.

Lemma Map_set_keys (k : string) (v : A) (m : list (string * A)) :
  NoDup (map fst m) -> NoDup (map fst (Map_set k v m)).
Proof.
  intros Hnd.
  assert (Hkeys : map fst (Map_set k v m) = map fst m
                  \/ ((k ∉ map fst m) /\ map fst (Map_set k v m) = map fst m ++ [k])).
  { clear Hnd. induction m as [|[k' old] m IH]; simpl.
    - right. split; [apply not_elem_of_nil|done].
    - destruct (String.eqb_spec k' k) as [->|Hk]; simpl; [by left|].
      destruct IH as [->|[Hnot ->]]; [by left|]. right. split; [|done].
      rewrite not_elem_of_cons. by split. }
  destruct Hkeys as [->|[Hnot ->]]; [done|].
  apply NoDup_app. split; [done|]. split; [|apply NoDup_singleton].
  intros x Hx ->%list_elem_of_singleton. done.
Qed.

Lemma Map_new_snoc (entries : list (string * A)) (e : string * A) :
  Map_new (entries ++ [e]) = Map_set e.1 e.2 (Map_new entries).
Proof. unfold Map_new. by rewrite foldl_app. Qed.

End ApprovalLemmas.

(** X10. The map of the pending approvals holds one entry for each
    name: looking a tool name up gives the last request of the array with
    that name (a later request replaces an earlier one), and nothing when no
    request has the name or the interrupt carries no requests. *)
Theorem later_request_wins {A : Type} (name : A -> string) (requests : list A)
    (toolName : string) :
  assoc toolName (actionRequestsMap name (Some requests))
  = List.find (fun ar => String.eqb toolName (name ar)) (rev requests)
  /\ NoDup (map fst (actionRequestsMap name (Some requests)))
  /\ assoc toolName (actionRequestsMap name None) = None.
Proof.
  unfold actionRequestsMap. split; [|split; [|done]].
  - induction requests as [|ar l IH] using rev_ind; [done|].
    rewrite map_app. cbn [map]. rewrite Map_new_snoc, assoc_Map_set, rev_app_distr.
    simpl. by rewrite IH.
  - induction requests as [|ar l IH] using rev_ind; [apply NoDup_nil_2|].
    rewrite map_app. cbn [map]. rewrite Map_new_snoc. by apply Map_set_keys.
Qed.

(** ** Invariants of the derivation *)

Section DerivationLemmas.

Variable skip : gset Z.
Variable interrupt : bool.
Variable random : nat -> string.

Lemma or_str_truthy (a b : option string) :
  truthy_str b = true -> truthy_str (or_str a b) = true.
Proof. intros Hb. unfold or_str. by destruct (truthy_str a) eqn:Ha. Qed.

Lemma resolveName_not_empty (t : RawToolCall) : resolveName t <> "".
Proof.
  unfold resolveName.
  pose proof (or_str_truthy
    (or_str (or_str (raw_function t ≫= fn_name) (raw_name t)) (raw_type t))
    (Some "unknown") eq_refl) as Htruthy.
  destruct (or_str _ (Some "unknown")) as [s|]; [|done].
  simpl in *. by destruct (String.eqb_spec s "").
Qed.

Lemma toToolCall_ok (n : nat) (t : RawToolCall) :
  wellFormed interrupt (toToolCall interrupt random n t).1
  /\ nameAndArgs (toToolCall interrupt random n t).1 = (resolveName t, resolveArgs t).
Proof.
  unfold toToolCall, wellFormed, nameAndArgs.
  destruct (truthy_str (raw_id t)) eqn:Hid; simpl.
  - repeat split; try (by right).
    + destruct (raw_id t) as [s|]; [|done]. simpl in *.
      by destruct (String.eqb_spec s "").
    + apply resolveName_not_empty.
  - repeat split; try (by right); [by simpl|apply resolveName_not_empty].
Qed.

Lemma toolCallsWithStatus_ok (raws : list RawToolCall) : forall n,
  Forall (wellFormed interrupt) (toolCallsWithStatus interrupt random n raws).1
  /\ map nameAndArgs (toolCallsWithStatus interrupt random n raws).1
     = map (fun t => (resolveName t, resolveArgs t)) raws.
Proof.
  induction raws as [|t rest IH]; intros n; simpl; [done|].
  destruct (toToolCall_ok n t) as [Hwf Hshown].
  destruct (toToolCall interrupt random n t) as [tc n1].
  destruct (IH n1) as [IHwf IHshown].
  destruct (toolCallsWithStatus interrupt random n1 rest) as [tcs n2].
  simpl in *. split; [by constructor|]. by rewrite Hshown, IHshown.
Qed.

Lemma complete_ok (result : string) (tc : ToolCall) :
  wellFormed interrupt tc -> wellFormed interrupt (complete result tc).
Proof. intros (Hid & Hname & _). repeat split; try done. by left. Qed.

Lemma map_alter_same {A B} (g : A -> B) (f : A -> A) (l : list A) : forall i,
  (forall x, g (f x) = g x) -> map g (alter f i l) = map g l.
Proof.
  induction l as [|x l IH]; intros i Hg; [done|].
  destruct i as [|i]; simpl; [by rewrite Hg|]. f_equal. by apply IH.
Qed.

Lemma alter_complete_ok (m : Message) (result : string) (i : nat) (tcs : list ToolCall) :
  derivedToolCalls interrupt m tcs ->
  derivedToolCalls interrupt m (alter (complete result) i tcs).
Proof.
  intros (Hhuman & Hagent & Hwf). split; [|split].
  - intros Hm. by rewrite (Hhuman Hm).
  - intros Hm. rewrite <- (Hagent Hm). by apply map_alter_same.
  - apply Forall_alter; [done|]. intros tc _. apply complete_ok.
Qed.

Lemma map_set_keys_elem (key : option string) (v : Entry)
    (m : list (option string * Entry)) (k : option string) :
  k ∈ map fst (map_set key v m) <-> k = key \/ k ∈ map fst m.
Proof.
  induction m as [|[k' old] m IH]; simpl.
  - rewrite list_elem_of_singleton. split; [by left|]. intros [?|Hk]; [done|].
    by apply elem_of_nil in Hk.
  - case_bool_decide as Hk; simpl.
    + subst. rewrite !elem_of_cons. split; [by right|]. intros [->|?]; [by left|done].
    + rewrite !elem_of_cons, IH. clear IH. tauto_goal.
Qed.

Lemma map_set_new (key : option string) (v : Entry) (m : list (option string * Entry)) :
  key ∉ map fst m -> map_set key v m = m ++ [(key, v)].
Proof.
  induction m as [|[k' old] m IH]; simpl; [done|].
  rewrite not_elem_of_cons. intros [Hne Hnot].
  case_bool_decide; [congruence|]. by rewrite IH.
Qed.

Lemma map_set_NoDup (key : option string) (v : Entry) (m : list (option string * Entry)) :
  NoDup (map fst m) -> NoDup (map fst (map_set key v m)).
Proof.
  induction m as [|[k' old] m IH]; simpl.
  - intros _. apply NoDup_singleton.
  - rewrite NoDup_cons. intros [Hnot Hnd]. case_bool_decide as Hk; simpl.
    + by apply NoDup_cons.
    + apply NoDup_cons. split; [|by apply IH].
      rewrite map_set_keys_elem. intros [?|?]; congruence.
Qed.

Lemma map_set_Forall (Q : option string * Entry -> Prop) (key : option string)
    (v : Entry) (m : list (option string * Entry)) :
  NoDup (map fst m) -> Q (key, v) ->
  (forall e, e ∈ m -> e.1 <> key -> Q e) ->
  Forall Q (map_set key v m).
Proof.
  induction m as [|[k' old] m IH]; simpl; intros Hnd Hnew Hold.
  - by constructor.
  - apply NoDup_cons in Hnd as [Hnot Hnd]. case_bool_decide as Hk.
    + subst. constructor; [done|]. apply list.Forall_forall. intros e He.
      apply Hold; [by right|]. intros Heq. apply Hnot. rewrite <- Heq.
      apply list_elem_of_fmap. by exists e.
    + constructor; [apply Hold; [by left|done]|].
      apply IH; [done|done|]. intros e He. apply Hold. by right.
Qed.

Lemma applyToolResult_keys (c result : string) (m : list (option string * Entry)) :
  map fst (applyToolResult c result m) = map fst m
  /\ map (fun e => message e.2) (applyToolResult c result m)
     = map (fun e => message e.2) m.
Proof.
  induction m as [|[k data] m [IH1 IH2]]; simpl; [done|].
  destruct (findIndex (has_id c) (toolCalls data)); simpl; [done|].
  by rewrite IH1, IH2.
Qed.

Lemma applyToolResult_Forall (Q : option string * Entry -> Prop) (c result : string)
    (m : list (option string * Entry)) :
  (forall k data i, Q (k, data) ->
     Q (k, {| message := message data;
              toolCalls := alter (complete result) i (toolCalls data) |})) ->
  Forall Q m -> Forall Q (applyToolResult c result m).
Proof.
  intros Hstep. induction m as [|[k data] m IH]; simpl; [done|].
  rewrite Forall_cons. intros [Hhere Hrest].
  destruct (findIndex (has_id c) (toolCalls data)).
  - constructor; [by apply Hstep|done].
  - constructor; [done|by apply IH].
Qed.

Lemma findLast_snoc {A} (pred : A -> bool) (l : list A) (x : A) :
  findLast pred (l ++ [x]) = if pred x then Some x else findLast pred l.
Proof. unfold findLast. by rewrite rev_app_distr. Qed.

Lemma findLast_Some {A} (pred : A -> bool) (l : list A) (x : A) :
  findLast pred l = Some x -> x ∈ l /\ pred x = true.
Proof.
  unfold findLast. intros [Hin Hpred]%find_some. split; [|done].
  apply list_elem_of_In. by apply in_rev.
Qed.

Lemma visibleFrom_cons (index : Z) (m : Message) (rest : list Message) :
  visibleFrom skip index (m :: rest)
  = visibleFrom skip index [m] ++ visibleFrom skip (index + 1) rest.
Proof.
  simpl. case_bool_decide; [done|]. by destruct (isShownType m).
Qed.

Lemma visibleFrom_elem (messages : list Message) (m : Message) : forall index,
  m ∈ visibleFrom skip index messages <->
  exists i, messages !! i = Some m
            /\ (index + Z.of_nat i ∉ skip) /\ isShownType m = true.
Proof.
  induction messages as [|x rest IH]; intros index.
  - simpl. split; [by intros ?%elem_of_nil|by intros (i & ? & _)].
  - assert (Hshift : m ∈ visibleFrom skip (index + 1) rest <->
      exists i, (x :: rest) !! S i = Some m
                /\ (index + Z.of_nat (S i) ∉ skip) /\ isShownType m = true).
    { rewrite IH. simpl. split; intros (i & Hi & Hskip & Hshown); exists i.
      - by replace (index + Z.of_nat (S i)) with (index + 1 + Z.of_nat i) by lia.
      - by replace (index + 1 + Z.of_nat i) with (index + Z.of_nat (S i)) by lia. }
    assert (Hhere : forall i, (x :: rest) !! i = Some m ->
      (index + Z.of_nat i ∉ skip) -> isShownType m = true ->
      (i = 0%nat /\ x = m /\ (index ∉ skip) /\ isShownType x = true)
      \/ exists j, i = S j).
    { intros [|j] Hi Hskip Hshown; [left|by eauto].
      injection Hi as ->. rewrite Z.add_0_r in Hskip. done. }
    simpl visibleFrom. case_bool_decide as Hin; [|destruct (isShownType x) eqn:Hx].
    + rewrite Hshift. split; [by intros (i & ?); eauto|].
      intros (i & Hi & Hskip & Hshown).
      destruct (Hhere i Hi Hskip Hshown) as [(_ & _ & Hout & _)|[j ->]]; [done|by eauto].
    + rewrite elem_of_cons, Hshift. split.
      * intros [->|(i & ?)]; [|by eauto]. exists 0%nat.
        rewrite Z.add_0_r. done.
      * intros (i & Hi & Hskip & Hshown).
        destruct (Hhere i Hi Hskip Hshown) as [(_ & -> & _)|[j ->]]; [by left|].
        right. by eauto.
    + rewrite Hshift. split; [by intros (i & ?); eauto|].
      intros (i & Hi & Hskip & Hshown).
      destruct (Hhere i Hi Hskip Hshown) as [(_ & <- & _ & Hy)|[j ->]];
        [congruence|by eauto].
Qed.

Lemma invariant_unchanged (entries : list (option string * Entry)) (seen : list Message) :
  passInvariant interrupt entries seen ->
  passInvariant interrupt entries (seen ++ []).
Proof. by rewrite app_nil_r. Qed.

Lemma invariant_set (entries : list (option string * Entry)) (seen : list Message)
    (m : Message) (calls : list ToolCall) :
  isShownType m = true ->
  derivedToolCalls interrupt m calls ->
  passInvariant interrupt entries seen ->
  passInvariant interrupt
    (map_set (msg_id m) {| message := m; toolCalls := calls |} entries)
    (seen ++ [m]).
Proof.
  intros Hshown Hcalls (Hnd & Hall & Hseen). split; [|split].
  - by apply map_set_NoDup.
  - apply map_set_Forall; [done| |].
    + simpl. split; [done|]. split; [done|].
      rewrite findLast_snoc. unfold hasMessageId. by rewrite bool_decide_eq_true_2.
    + intros e He Hne. rewrite list.Forall_forall in Hall.
      destruct (Hall e He) as (Hs & Hc & Hlast). split; [done|]. split; [done|].
      rewrite findLast_snoc. unfold hasMessageId at 1.
      by rewrite bool_decide_eq_false_2.
  - intros m' Hm'. rewrite map_set_keys_elem.
    apply elem_of_app in Hm' as [Hm'|Hm'%list_elem_of_singleton]; [|left; by subst].
    right. by apply Hseen.
Qed.

Lemma invariant_result (entries : list (option string * Entry)) (seen : list Message)
    (c result : string) :
  passInvariant interrupt entries seen ->
  passInvariant interrupt (applyToolResult c result entries) seen.
Proof.
  intros (Hnd & Hall & Hseen).
  destruct (applyToolResult_keys c result entries) as [Hkeys _].
  split; [|split].
  - by rewrite Hkeys.
  - apply applyToolResult_Forall; [|done]. simpl.
    intros k data i (Hs & Hc & Hlast). split; [done|].
    split; [by apply alter_complete_ok|done].
  - intros m Hm. rewrite Hkeys. by apply Hseen.
Qed.

Lemma processMessage_invariant (st : PassState) (index : Z) (m : Message)
    (seen : list Message) :
  passInvariant interrupt st.1 seen ->
  passInvariant interrupt (processMessage skip interrupt random st index m).1
                (seen ++ visibleFrom skip index [m]).
Proof.
  intros Hinv. unfold processMessage. simpl visibleFrom.
  case_bool_decide as Hskip; [by apply invariant_unchanged|].
  unfold isShownType. destruct (msg_type m) eqn:Htype; simpl.
  - apply invariant_set; [by unfold isShownType; rewrite Htype|..|done].
    split; [done|]. split; [by rewrite Htype|by constructor].
  - destruct (toolCallsWithStatus_ok (toolCallsInMessage m) st.2) as [Hwf Hshown].
    destruct (toolCallsWithStatus interrupt random st.2 (toolCallsInMessage m))
      as [calls n']. simpl in *.
    apply invariant_set; [by unfold isShownType; rewrite Htype|..|done].
    split; [by rewrite Htype|]. by split.
  - destruct (truthy_str (tool_call_id m)); simpl.
    + by apply invariant_unchanged, invariant_result.
    + by apply invariant_unchanged.
  - by apply invariant_unchanged.
Qed.

Lemma secondPass_invariant (rest : list Message) : forall st index seen,
  passInvariant interrupt st.1 seen ->
  passInvariant interrupt (secondPass skip interrupt random st index rest).1
                (seen ++ visibleFrom skip index rest).
Proof.
  induction rest as [|m rest IH]; intros st index seen Hinv.
  - by apply invariant_unchanged.
  - rewrite visibleFrom_cons, app_assoc. simpl secondPass.
    by apply IH, processMessage_invariant.
Qed.

(** With identifiers that differ, each visible message adds its own entry at
    the end of the map. *)
Lemma processMessage_order (st : PassState) (index : Z) (m : Message) :
  (forall x, x ∈ visibleFrom skip index [m] -> msg_id x ∉ map fst st.1) ->
  let st' := processMessage skip interrupt random st index m in
  map fst st'.1 = map fst st.1 ++ map msg_id (visibleFrom skip index [m])
  /\ map (fun e => message e.2) st'.1
     = map (fun e => message e.2) st.1 ++ visibleFrom skip index [m].
Proof.
  intros Hnew st'. subst st'. unfold processMessage. revert Hnew. simpl visibleFrom.
  case_bool_decide as Hskip; [by rewrite !app_nil_r|].
  unfold isShownType. destruct (msg_type m) eqn:Htype; simpl; intros Hnew.
  - rewrite map_set_new by (apply Hnew; by left). by rewrite !map_app.
  - destruct (toolCallsWithStatus interrupt random st.2 (toolCallsInMessage m))
      as [calls n']. simpl.
    rewrite map_set_new by (apply Hnew; by left). by rewrite !map_app.
  - rewrite !app_nil_r. destruct (truthy_str (tool_call_id m)); simpl; [|done].
    apply applyToolResult_keys.
  - by rewrite !app_nil_r.
Qed.

Lemma secondPass_order (rest : list Message) : forall st index,
  NoDup (map fst st.1 ++ map msg_id (visibleFrom skip index rest)) ->
  map (fun e => message e.2) (secondPass skip interrupt random st index rest).1
  = map (fun e => message e.2) st.1 ++ visibleFrom skip index rest.
Proof.
  induction rest as [|m rest IH]; intros st index Hnd.
  - simpl. by rewrite app_nil_r.
  - rewrite visibleFrom_cons in Hnd |- *. rewrite map_app, app_assoc in Hnd.
    destruct (processMessage_order st index m) as [Hkeys Hshown].
    { intros x Hx Hin. apply NoDup_app in Hnd as [Hnd _].
      apply NoDup_app in Hnd as (_ & Hdisjoint & _).
      apply (Hdisjoint (msg_id x)); [done|]. apply list_elem_of_fmap. by exists x. }
    simpl secondPass. rewrite IH.
    + by rewrite Hshown, app_assoc.
    + by rewrite Hkeys.
Qed.

End DerivationLemmas.

Section ProcessedLemmas.

Lemma withAvatars_messages (entries : list Entry) : forall prev,
  map p_message (withAvatars prev entries) = map message entries
  /\ map p_toolCalls (withAvatars prev entries) = map toolCalls entries.
Proof.
  induction entries as [|e rest IH]; intros prev; simpl; [done|].
  destruct (IH (Some (message e))) as [-> ->]. done.
Qed.

Lemma messageMap_invariant (messages : list Message) (interrupt : bool)
    (random : nat -> string) :
  passInvariant interrupt (messageMap messages interrupt random)
                (visibleMessages messages).
Proof.
  unfold messageMap, visibleMessages.
  apply (secondPass_invariant (skipIndices messages) interrupt random messages
           ([], O) 0 []).
  split; [apply NoDup_nil_2|]. split; [by constructor|].
  by intros m ?%elem_of_nil.
Qed.

Lemma withAvatars_lookup (entries : list Entry) : forall prev i d,
  withAvatars prev entries !! i = Some d ->
  exists e, entries !! i = Some e
            /\ p_message d = message e /\ p_toolCalls d = toolCalls e.
Proof.
  induction entries as [|e rest IH]; intros prev i d; simpl; [done|].
  destruct i as [|i]; simpl.
  - intros [= <-]. by exists e.
  - apply IH.
Qed.

(** An element of the derivation comes from an entry of the message map. *)
Lemma processedMessages_lookup (messages : list Message) (interrupt : bool)
    (random : nat -> string) (i : nat) (d : Processed) :
  processedMessages messages interrupt random !! i = Some d ->
  exists e, messageMap messages interrupt random !! i = Some e
            /\ p_message d = message e.2 /\ p_toolCalls d = toolCalls e.2.
Proof.
  unfold processedMessages. intros (e & He & Hm & Ht)%withAvatars_lookup.
  change (map snd (messageMap messages interrupt random))
    with (snd <$> messageMap messages interrupt random) in He.
  apply list_lookup_fmap_Some_1 in He as (x & -> & Hx). by exists x.
Qed.

End ProcessedLemmas.

(** X11. Every element of the derivation is a human or agent
    message with the tool calls derived for it: none for a human message, and
    for an agent message one for each tool call read from it, in the same
    order and with the resolved name and arguments, whatever tool results
    came. Each tool call has an identifier and a name that are not empty (the
    box never falls back to [Unknown Tool]), and it has a result exactly when
    its status is [completed]; otherwise its status is [interrupted] under an
    interrupt and [pending] without one, never [error]. *)
Theorem derived_tool_calls_are_well_formed (messages : list Message)
    (interrupt : bool) (random : nat -> string) (i : nat) (d : Processed) :
  processedMessages messages interrupt random !! i = Some d ->
  isShownType (p_message d) = true
  /\ (msg_type (p_message d) = MHuman -> p_toolCalls d = [])
  /\ (msg_type (p_message d) = MAi ->
      map nameAndArgs (p_toolCalls d)
      = map (fun t => (resolveName t, resolveArgs t))
            (toolCallsInMessage (p_message d)))
  /\ Forall (fun tc =>
               tc_id tc <> "" /\ tc_name tc <> "" /\ boxName tc = tc_name tc
               /\ tc_status tc <> error
               /\ ((tc_status tc = completed /\ tc_result tc <> None)
                   \/ (tc_status tc = (if interrupt then interrupted else pending)
                       /\ tc_result tc = None)))
            (p_toolCalls d).
Proof.
  intros Hd. apply processedMessages_lookup in Hd as (e & He & -> & ->).
  destruct (messageMap_invariant messages interrupt random) as (_ & Hall & _).
  rewrite list.Forall_forall in Hall.
  destruct (Hall e) as (Hshown & (Hhuman & Hagent & Hwf) & _).
  { by eapply list_elem_of_lookup_2. }
  repeat split; try done.
  eapply Forall_impl; [exact Hwf|]. intros tc (Hid & Hname & Hstatus).
  repeat split; try done.
  - unfold boxName. by destruct (String.eqb_spec (tc_name tc) "").
  - destruct Hstatus as [[-> _]|[-> _]]; [done|by destruct interrupt].
Qed.

(** X12. The derivation has one element for each identifier of a
    visible message (a human or agent message whose index is not hidden): no
    two elements have the same identifier, the identifier of every visible
    message is the one of some element, and an element holds the last visible
    message with its identifier, since a later message replaces an earlier
    one with the same identifier in its place. *)
Theorem one_entry_per_identifier (messages : list Message) (interrupt : bool)
    (random : nat -> string) :
  let processed := processedMessages messages interrupt random in
  NoDup (map (fun d => msg_id (p_message d)) processed)
  /\ (forall m, m ∈ visibleMessages messages <->
        exists i, messages !! i = Some m
                  /\ (Z.of_nat i ∉ skipIndices messages) /\ isShownType m = true)
  /\ (forall m, m ∈ visibleMessages messages ->
        exists d, d ∈ processed /\ msg_id (p_message d) = msg_id m)
  /\ (forall d, d ∈ processed ->
        findLast (hasMessageId (msg_id (p_message d))) (visibleMessages messages)
        = Some (p_message d)).
Proof.
  intros processed.
  destruct (messageMap_invariant messages interrupt random) as (Hnd & Hall & Hseen).
  rewrite list.Forall_forall in Hall.
  assert (Hkey : forall e, e ∈ messageMap messages interrupt random ->
                           msg_id (message e.2) = e.1).
  { intros e He. destruct (Hall e He) as (_ & _ & Hlast).
    apply findLast_Some in Hlast as [_ Hid]. by apply bool_decide_eq_true in Hid. }
  assert (Hfrom : forall d, d ∈ processed ->
    exists e, e ∈ messageMap messages interrupt random /\ p_message d = message e.2).
  { intros d Hd. apply list_elem_of_lookup in Hd as [i Hi].
    apply processedMessages_lookup in Hi as (e & He & Hm & _).
    exists e. split; [|done]. by eapply list_elem_of_lookup_2. }
  assert (Hmessages : map p_message processed
                      = map (fun e => message e.2) (messageMap messages interrupt random)).
  { subst processed. unfold processedMessages.
    destruct (withAvatars_messages (map snd (messageMap messages interrupt random)) None)
      as [-> _]. by rewrite map_map. }
  split; [|split; [|split]].
  - replace (map (fun d => msg_id (p_message d)) processed)
      with (map fst (messageMap messages interrupt random)); [done|].
    rewrite <- (map_map p_message msg_id), Hmessages, map_map.
    apply map_ext_in. intros e He%list_elem_of_In. by rewrite Hkey.
  - intros m. unfold visibleMessages. rewrite visibleFrom_elem.
    by setoid_rewrite Z.add_0_l.
  - intros m Hm. apply Hseen, list_elem_of_fmap in Hm as (e & Hid & He).
    assert (Hin : message e.2 ∈ map p_message processed).
    { rewrite Hmessages. apply list_elem_of_fmap. by exists e. }
    apply list_elem_of_fmap in Hin as (d & Hd & Hin). exists d. split; [done|].
    by rewrite <- Hd, Hkey.
  - intros d Hd. destruct (Hfrom d Hd) as (e & He & ->).
    destruct (Hall e He) as (_ & _ & Hlast). by rewrite Hkey.
Qed.

(** X13. When the visible messages have identifiers that differ, the
    derivation shows exactly the visible messages, in the order of the
    stream: every human and agent message whose index is not hidden, and
    nothing else. *)
Theorem distinct_ids_show_visible_messages (messages : list Message)
    (interrupt : bool) (random : nat -> string) :
  NoDup (map msg_id (visibleMessages messages)) ->
  map p_message (processedMessages messages interrupt random)
  = visibleMessages messages.
Proof.
  intros Hnd. unfold processedMessages.
  destruct (withAvatars_messages (map snd (messageMap messages interrupt random)) None)
    as [-> _].
  rewrite map_map. unfold messageMap, visibleMessages.
  by rewrite (secondPass_order (skipIndices messages) interrupt random messages ([], O) 0).
Qed.

(** ** The suggestion hook *)

Section HookLemmas.





Lemma no_agent_message (messages : list Message) :
  getLastAIMessageContext messages = None <->
  forallb (fun msg => negb (MessageType_eqb (msg_type msg) MAi)) messages = true.
Proof.
  induction messages as [|m rest IH]; simpl; [done|].
  destruct (getLastAIMessageContext rest) as [found|].
  - split; [done|]. rewrite andb_true_iff. intros [_ Hrest].
    by apply IH in Hrest.
  - rewrite (proj1 IH eq_refl), andb_true_r. by destruct (msg_type m).
Qed.

Lemma findLastAIMessage_agent (messages : list Message) (id : option string) :
  getLastAIMessageContext messages = Some id ->
  exists pre m post,
    messages = pre ++ m :: post
    /\ findLastAIMessage messages = Some m
    /\ msg_type m = MAi /\ msg_id m = id
    /\ getLastAIMessageContext post = None.
Proof.
  induction messages as [|m rest IH]; simpl; [done|].
  destruct (getLastAIMessageContext rest) as [found|] eqn:Hrest.
  - intros [= ->]. destruct (IH eq_refl) as (pre & x & post & -> & Hfind & Hx).
    exists (m :: pre), x, post. split; [done|]. split; [|done].
    assert (Hnot : forallb (fun msg => negb (MessageType_eqb (msg_type msg) MAi))
                           (pre ++ x :: post) = false).
    { destruct (forallb _ _) eqn:Hall; [|done].
      apply no_agent_message in Hall. congruence. }
    rewrite Hnot, orb_false_r. by destruct pre.
  - destruct (msg_type m) eqn:Hm; try done. intros [= <-].
    exists [], m, rest. split; [done|].
    rewrite (proj1 (no_agent_message rest) Hrest), orb_true_r. done.
Qed.

Lemma findLastAIMessage_first (messages : list Message) :
  getLastAIMessageContext messages = None ->
  findLastAIMessage messages = head messages.
Proof.
  intros Hnone. apply no_agent_message in Hnone.
  destruct messages as [|m rest]; [done|]. simpl in *.
  apply andb_true_iff in Hnone as [_ Hrest]. by rewrite Hrest, orb_true_r.
Qed.

Lemma generation_returns (config : option Config) (fetch : Request -> FetchResult)
    (conversationContext : string) :
  exists set,
    generateSuggestionsWithLLM config fetch conversationContext = Returned set
    /\ (set = DEFAULT_SUGGESTIONS
        \/ exists parsed, set = validSuggestions parsed /\ (3 <= length set)%nat).
Proof.
  unfold generateSuggestionsWithLLM.
  destruct (credentialsOf config) as [|apiKey baseUrl]; [by eauto|].
  destruct (truthy_str apiKey); simpl; [|by eauto].
  unfold requestSuggestions.
  destruct (fetch _) as [| | |data]; simpl; try (by eauto).
  destruct (contentOf data) as [content|]; simpl; [|by eauto].
  destruct (truthy content); simpl; [|by eauto].
  destruct content as [[| | |fullResponse| |]|]; simpl; try (by eauto).
  destruct (parseSuggestions_cases (jsonStrOf fullResponse))
    as [->|(item & items & _ & Hlen & ->)]; simpl; [by eauto|].
  eexists. split; [done|]. right. by exists (item :: items).
Qed.


(** [loadSuggestions] on a cache miss. *)
Lemma loadSuggestions_miss (config : option Config) (fetch : Request -> FetchResult)
    (threadId : option string) (messages : list Message) (st : HookState)
    (id : option string) :
  getLastAIMessageContext messages = Some id ->
  getCachedSuggestions (cachedKeyOf threadId id) (storage st) = None ->
  exists set,
    generateSuggestionsWithLLM config fetch (formatConversationForLLM messages)
    = Returned set
    /\ loadSuggestions config fetch threadId messages st
       = {| suggestions := set; isRefreshing := false;
            storage := saveSuggestionsToCache (cachedKeyOf threadId id) set (storage st);
            console := console st ++ [GeneratingNew (cachedKeyOf threadId id)] |}.
Proof.
  intros Hlast Hmiss. unfold loadSuggestions. rewrite Hlast, Hmiss.
  destruct (generation_returns config fetch (formatConversationForLLM messages))
    as (set & Hset & _).
  exists set. by rewrite Hset.
Qed.

Lemma credentialsOf_unsupported (c : Config) :
  activeProvider c = Some "anthropic" \/ activeProvider c = Some "google" ->
  credentialsOf (Some c) = UseDefaults
  \/ credentialsOf (Some c) = Credential None "https://api.openai.com/v1".
Proof.
  unfold credentialsOf. simpl. intros [-> | ->]; simpl.
  - destruct (truthy_str (anthropicApiKey c)); by eauto.
  - destruct (truthy_str (googleApiKey c)); by eauto.
Qed.

Lemma slice_to_length (n : nat) (s : string) : (String.length (slice_to n s) <= n)%nat.
Proof.
  revert s. induction n as [|n IH]; intros [|c s]; simpl; try lia.
  specialize (IH s). lia.
Qed.

Lemma id_or_null_truthy (id : string) : id <> "" -> id_or_null (Some id) = Some id.
Proof.
  intros Hid. unfold id_or_null. simpl. by destruct (String.eqb_spec id "").
Qed.

(** Once the reference holds the identifier of the last agent message, the
    effect on the loading state only records the flag. *)
Lemma onLoadingChange_handled (config : option Config) (fetch : Request -> FetchResult)
    (threadId : option string) (messages : list Message) (isLoading : bool)
    (h : HookState * Refs) (id : string) :
  getLastAIMessageContext messages = Some (Some id) ->
  lastMessageIdRef h.2 = Some id ->
  onLoadingChange config fetch threadId messages isLoading h
  = (h.1, {| prevIsLoadingRef := isLoading; lastMessageIdRef := Some id;
             prevAgentSuggestionsRef := prevAgentSuggestionsRef h.2 |}).
Proof.
  intros Hlast Href. unfold onLoadingChange. rewrite Hlast, Href. simpl.
  rewrite String.eqb_refl. simpl. by destruct (_ && _).
Qed.

End HookLemmas.


(** X15. The message under whose identifier the agent's suggestions are
    stored is the last agent message when there is one. When there is none it
    is the first message of the list, whatever its type: the suggestions are
    then stored under a key that [loadSuggestions], which shows the default
    set for such a list, does not read. *)
Theorem findLastAIMessage_last_agent_or_first (messages : list Message) :
  (forall id, getLastAIMessageContext messages = Some id ->
     exists pre m post,
       messages = pre ++ m :: post
       /\ findLastAIMessage messages = Some m
       /\ msg_type m = MAi /\ msg_id m = id
       /\ Forall (fun x => msg_type x <> MAi) post)
  /\ (getLastAIMessageContext messages = None ->
      findLastAIMessage messages = head messages
      /\ Forall (fun x => msg_type x <> MAi) messages
      /\ forall config fetch threadId st,
           loadSuggestions config fetch threadId messages st
           = setSuggestions DEFAULT_SUGGESTIONS st).
Proof.
  assert (Hnone : forall l, getLastAIMessageContext l = None ->
                            Forall (fun x => msg_type x <> MAi) l).
  { intros l Hl. apply no_agent_message in Hl. apply list.Forall_forall.
    intros x Hx%list_elem_of_In Hai. rewrite forallb_forall in Hl.
    specialize (Hl x Hx). by rewrite Hai in Hl. }
  split.
  - intros id Hlast.
    destruct (findLastAIMessage_agent messages id Hlast)
      as (pre & m & post & Hsplit & Hfind & Hai & Hm & Hpost).
    exists pre, m, post. repeat split; try done. by apply Hnone.
  - intros Hlast. split; [by apply findLastAIMessage_first|].
    split; [by apply Hnone|].
    intros config fetch threadId st. unfold loadSuggestions. by rewrite Hlast.
Qed.

(** X16. A finished turn is handled once. When the loading state goes
    from true to false and the last agent message has a non-empty identifier,
    the effect leaves that identifier in its reference; it changes nothing
    else when the reference already held it, and otherwise shows the cached
    set or, on a cache miss, runs [loadSuggestions]. After that, whatever the
    loading state does, the effect changes neither the suggestions nor the
    cache nor the console for as long as the last agent message is the
    same. *)
Theorem finished_turn_is_handled_once (config : option Config)
    (fetch : Request -> FetchResult) (threadId : option string)
    (messages : list Message) (st : HookState) (refs : Refs) (id : string) :
  getLastAIMessageContext messages = Some (Some id) -> id <> "" ->
  prevIsLoadingRef refs = true ->
  let key := cachedKeyOf threadId (Some id) in
  let h := onLoadingChange config fetch threadId messages false (st, refs) in
  lastMessageIdRef h.2 = Some id
  /\ prevIsLoadingRef h.2 = false
  /\ (lastMessageIdRef refs = Some id -> h.1 = st)
  /\ (lastMessageIdRef refs <> Some id ->
      h.1 = match getCachedSuggestions key (storage st) with
            | Some cachedSuggestions => setSuggestions cachedSuggestions st
            | None => loadSuggestions config fetch threadId messages st
            end)
  /\ forall config' fetch' threadId' (flags : list bool),
       (foldl (fun h' isLoading =>
                 onLoadingChange config' fetch' threadId' messages isLoading h')
              h flags).1 = h.1.
Proof.
  intros Hlast Hid Hwas key h.
  assert (Hmessages : (0 <? length messages)%nat = true) by (by destruct messages).
  assert (Href : lastMessageIdRef h.2 = Some id /\ prevIsLoadingRef h.2 = false
                 /\ (lastMessageIdRef refs = Some id -> h.1 = st)
                 /\ (lastMessageIdRef refs <> Some id ->
                     h.1 = match getCachedSuggestions key (storage st) with
                           | Some cachedSuggestions => setSuggestions cachedSuggestions st
                           | None => loadSuggestions config fetch threadId messages st
                           end)).
  { subst h. unfold onLoadingChange. simpl. rewrite Hwas, Hmessages, Hlast. simpl.
    destruct (lastMessageIdRef refs) as [old|] eqn:Hold; simpl.
    - destruct (String.eqb_spec id old) as [->|Hne]; simpl.
      + repeat split; try done.
      + fold key. rewrite id_or_null_truthy by done.
        destruct (getCachedSuggestions key (storage st)); simpl;
          repeat split; try done; intros [= ?]; by subst.
    - fold key. rewrite id_or_null_truthy by done.
      destruct (getCachedSuggestions key (storage st)); simpl; repeat split; done. }
  destruct Href as (Href & Hflag & Hsame & Hother).
  repeat split; try done.
  intros config' fetch' threadId' flags. clear Hsame Hother Hflag.
  revert Href. generalize h. clear h.
  induction flags as [|b flags IH]; intros h Href; [done|].
  simpl. rewrite (onLoadingChange_handled _ _ _ _ _ _ id Hlast Href).
  by rewrite IH.
Qed.

(** X17. The two effects that may start a generation start none while
    the agent is loading: the effect on the loading state then changes no
    state at all, and the effect on the thread leaves the cache and the
    refreshing flag as they are and logs no generation. Whatever the loading
    state, an effect that writes to the cache or logs a generation does so
    through one run of [loadSuggestions] after a cache miss, for the key of
    the last agent message. *)
Theorem effects_generate_only_when_idle (config : option Config)
    (fetch : Request -> FetchResult) (threadId : option string)
    (messages : list Message) (isLoading : bool) (h : HookState * Refs) :
  let changed (h' : HookState * Refs) :=
    exists id set,
      isLoading = false
      /\ getLastAIMessageContext messages = Some id
      /\ getCachedSuggestions (cachedKeyOf threadId id) (storage h.1) = None
      /\ h'.1 = {| suggestions := set; isRefreshing := false;
                   storage := saveSuggestionsToCache (cachedKeyOf threadId id) set
                                                     (storage h.1);
                   console := console h.1
                              ++ [GeneratingNew (cachedKeyOf threadId id)] |} in
  let unchanged (h' : HookState * Refs) :=
    storage h'.1 = storage h.1 /\ console h'.1 = console h.1
    /\ isRefreshing h'.1 = isRefreshing h.1 in
  (isLoading = true ->
   (onLoadingChange config fetch threadId messages isLoading h).1 = h.1)
  /\ (unchanged (onLoadingChange config fetch threadId messages isLoading h)
      \/ changed (onLoadingChange config fetch threadId messages isLoading h))
  /\ (unchanged (onThreadLoad config fetch threadId messages isLoading h)
      \/ changed (onThreadLoad config fetch threadId messages isLoading h)).
Proof.
  intros changed unchanged. subst changed unchanged. cbv beta.
  split; [|split].
  - intros ->. unfold onLoadingChange. simpl. by rewrite andb_false_r.
  - unfold onLoadingChange.
    destruct (prevIsLoadingRef h.2 && negb isLoading && (0 <? length messages)%nat)
      eqn:Hgo; [|by left].
    apply andb_true_iff in Hgo as [[_ Hidle]%andb_true_iff _].
    apply negb_true_iff in Hidle.
    destruct (getLastAIMessageContext messages) as [id|] eqn:Hlast; [|by left].
    destruct (id_changed id _); [|by left].
    destruct (getCachedSuggestions _ _) as [cached|] eqn:Hcache; [by left|].
    right. destruct (loadSuggestions_miss config fetch threadId messages h.1 id Hlast Hcache)
      as (set & _ & ->).
    by exists id, set.
  - unfold onThreadLoad, resetForNewThread.
    destruct (getLastAIMessageContext messages) as [id|] eqn:Hlast.
    2: { left. by destruct (length messages =? 0)%nat. }
    destruct (getCachedSuggestions _ _) as [cached|] eqn:Hcache; [by left|].
    destruct (id_changed id _ && negb isLoading) eqn:Hgo.
    2: { left. by destruct (length messages =? 0)%nat. }
    apply andb_true_iff in Hgo as [_ Hidle]. apply negb_true_iff in Hidle.
    right. destruct (loadSuggestions_miss config fetch threadId messages h.1 id Hlast Hcache)
      as (set & _ & ->).
    by exists id, set.
Qed.



(** X20. The generation call reaches the network through one request
    at most. When the configuration yields a request, its key and its model
    are not empty, its address ends with [/chat/completions], the transcript
    it carries is the first 3000 code units of the conversation, and the
    outcome of the call depends on the network through the answer to this
    request alone. When it yields none (as with Anthropic or Google as the
    active provider, or without a key), the default set is returned without
    any request. *)
Theorem generation_makes_one_request (config : option Config)
    (conversationContext : string) :
  match requestOf config conversationContext with
  | Some req =>
      req_apiKey req <> "" /\ req_model req <> ""
      /\ (exists baseUrl, req_url req = baseUrl +:+ "/chat/completions")
      /\ req_context req = slice_to 3000 conversationContext
      /\ (String.length (req_context req) <= 3000)%nat
      /\ forall fetch fetch', fetch req = fetch' req ->
           generateSuggestionsWithLLM config fetch conversationContext
           = generateSuggestionsWithLLM config fetch' conversationContext
  | None =>
      forall fetch,
        generateSuggestionsWithLLM config fetch conversationContext
        = Returned DEFAULT_SUGGESTIONS
  end
  /\ (forall c, config = Some c ->
        activeProvider c = Some "anthropic" \/ activeProvider c = Some "google" ->
        requestOf config conversationContext = None).
Proof.
  split.
  - unfold requestOf, generateSuggestionsWithLLM.
    destruct (credentialsOf config) as [|apiKey baseUrl]; [done|].
    destruct (truthy_str apiKey) eqn:Hkey; simpl negb; cbv iota; [|done].
    cbn [req_apiKey req_model req_url req_context]. repeat split.
    + destruct apiKey as [k|]; [|done]. simpl in *. by destruct (String.eqb_spec k "").
    + unfold effectiveModelOf.
      match goal with
      | |- default _ (or_str ?a (Some ?b)) <> "" =>
          pose proof (or_str_truthy a (Some b) eq_refl) as Htruthy;
          destruct (or_str a (Some b)) as [s|]; [|done]
      end.
      simpl in *. by destruct (String.eqb_spec s "").
    + by exists baseUrl.
    + apply slice_to_length.
    + intros fetch fetch' Hsame. unfold requestSuggestions. by rewrite Hsame.
  - intros c -> Hprovider. unfold requestOf.
    by destruct (credentialsOf_unsupported c Hprovider) as [-> | ->].
Qed.

(** X21. Every suggestion the generation call returns, validated or
    default, has a label of at most 30 code units and a prompt that splits
    into at least 15 white-space separated pieces; the call returns between
    3 and 20 of them. *)
Theorem generated_suggestions_have_short_labels (config : option Config)
    (fetch : Request -> FetchResult) (conversationContext : string)
    (set : list Suggestion) :
  generateSuggestionsWithLLM config fetch conversationContext = Returned set ->
  (3 <= length set <= 20)%nat
  /\ Forall (fun x => (String.length (short x) <= 30)%nat
                      /\ (15 <= length (split_ws (full x)))%nat) set.
Proof.
  intros Hset.
  destruct (generation_returns config fetch conversationContext)
    as (set' & Hset' & Hshape).
  rewrite Hset in Hset'. injection Hset' as <-.
  destruct Hshape as [->|(parsed & -> & Hlen)].
  - split; [by vm_compute; lia|].
    apply (bool_decide_unpack _). vm_compute. exact I.
  - split; [split; [done|apply validSuggestions_length]|].
    apply list.Forall_forall. intros x Hx.
    apply validSuggestions_elem in Hx as (members & sh & f & _ & _ & _ & Hwords & ->).
    cbn [short full]. split; [apply slice_to_length|done].
Qed.

(** ** The marker pattern and the cache keys *)

Section MarkerLemmas.

Lemma append_cons (c : ascii) (a b : string) : String c a +:+ b = String c (a +:+ b).
Proof. done. Qed.

Lemma starts_with_split (p s : string) :
  starts_with p s = true -> s = p +:+ slice_from (String.length p) s.
Proof.
  revert s. induction p as [|a p IH]; intros [|b s]; simpl; try done.
  rewrite andb_true_iff. intros [->%Ascii.eqb_eq Hp].
  rewrite append_cons. f_equal. by apply IH.
Qed.

Lemma starts_with_underscores (c : ascii) (s : string) :
  starts_with "__" (String c s) = Ascii.eqb "_" c && starts_with "_" s.
Proof. done. Qed.

(** Whether a text starts with an underscore is decided by its first code
    unit, or by what follows when the text is empty. *)
Lemma starts_with_underscore_app (g a b : string) :
  starts_with "_" a = starts_with "_" b ->
  starts_with "_" (g +:+ a) = starts_with "_" (g +:+ b).
Proof. by destruct g. Qed.

Lemma lazy_group_Some (s g : string) :
  lazy_group s = Some g ->
  every not_line_terminator g = true
  /\ includes "__" (g +:+ "_") = false
  /\ exists rest, s = g +:+ "__" +:+ rest.
Proof.
  revert g. induction s as [|c s IH]; intros g.
  - simpl. done.
  - change (lazy_group (String c s))
      with (if starts_with "__" (String c s) then Some EmptyString
            else if is_line_terminator c then None
                 else match lazy_group s with
                      | Some g => Some (String c g)
                      | None => None
                      end).
    destruct (starts_with "__" (String c s)) eqn:Hstart.
    + intros [= <-]. split; [done|]. split; [done|].
      exists (slice_from 2 (String c s)). by apply (starts_with_split "__").
    + destruct (is_line_terminator c) eqn:Hc; [done|].
      destruct (lazy_group s) as [g'|]; [|done]. intros [= <-].
      destruct (IH g' eq_refl) as (Hline & Hnone & rest & Hs).
      split; [simpl; unfold not_line_terminator at 1; by rewrite Hc|].
      split; [|exists rest; by rewrite append_cons, <- Hs].
      change (includes "__" (String c g' +:+ "_"))
        with (starts_with "__" (String c (g' +:+ "_")) || includes "__" (g' +:+ "_")).
      rewrite Hnone, orb_false_r.
      rewrite starts_with_underscores in Hstart |- *.
      rewrite Hs in Hstart.
      by rewrite (starts_with_underscore_app g' "_" ("__" +:+ rest)).
Qed.

Lemma lazy_group_read (g after : string) :
  every not_line_terminator g = true -> includes "__" (g +:+ "_") = false ->
  lazy_group (g +:+ "__" +:+ after) = Some g.
Proof.
  induction g as [|c g IH]; [done|].
  simpl every. rewrite andb_true_iff. intros [Hc Hline].
  change (includes "__" (String c g +:+ "_"))
    with (starts_with "__" (String c (g +:+ "_")) || includes "__" (g +:+ "_")).
  rewrite orb_false_iff. intros [Hstart Hnone].
  change (lazy_group (String c g +:+ "__" +:+ after))
    with (if starts_with "__" (String c (g +:+ "__" +:+ after)) then Some EmptyString
          else if is_line_terminator c then None
               else match lazy_group (g +:+ "__" +:+ after) with
                    | Some g => Some (String c g)
                    | None => None
                    end).
  rewrite starts_with_underscores in Hstart |- *.
  rewrite (starts_with_underscore_app g ("__" +:+ after) "_") by done.
  rewrite Hstart. unfold not_line_terminator in Hc. apply negb_true_iff in Hc.
  rewrite Hc. by rewrite IH.
Qed.

Lemma marker_at_Some (s g : string) :
  marker_at s = Some g ->
  readableGroup g = true
  /\ exists after, s = "__PHASE_STATUS__" +:+ g +:+ "__" +:+ after.
Proof.
  unfold marker_at. destruct (starts_with "__PHASE_STATUS__" s) eqn:Hstart; [|done].
  apply starts_with_split in Hstart. simpl String.length in Hstart.
  destruct (slice_from 16 s) as [|c rest]; [done|].
  destruct (is_line_terminator c) eqn:Hc; [done|].
  destruct (lazy_group rest) as [g'|] eqn:Hgroup; [|done]. intros [= <-].
  destruct (lazy_group_Some rest g' Hgroup) as (Hline & Hnone & after & Hrest).
  split.
  - unfold readableGroup. simpl. unfold not_line_terminator at 1.
    by rewrite Hc, Hline, Hnone.
  - exists after. rewrite Hstart at 1. by rewrite Hrest.
Qed.

Lemma phase_marker_Some (content g : string) :
  phase_marker content = Some g ->
  readableGroup g = true
  /\ exists before after,
       content = before +:+ "__PHASE_STATUS__" +:+ g +:+ "__" +:+ after.
Proof.
  induction content as [|c s IH].
  - simpl. unfold marker_at. simpl. done.
  - change (phase_marker (String c s))
      with (match marker_at (String c s) with
            | Some g => Some g
            | None => phase_marker s
            end).
    destruct (marker_at (String c s)) as [g'|] eqn:Hat.
    + intros [= ->]. destruct (marker_at_Some _ _ Hat) as (Hg & after & Hs).
      split; [done|]. by exists "", after.
    + intros Hs. destruct (IH Hs) as (Hg & before & after & ->).
      split; [done|]. by exists (String c before), after.
Qed.

Lemma phase_marker_read (g after : string) :
  readableGroup g = true ->
  phase_marker ("__PHASE_STATUS__" +:+ g +:+ "__" +:+ after) = Some g.
Proof.
  unfold readableGroup. rewrite !andb_true_iff, !negb_true_iff.
  intros [[Hne Hline] Hnone].
  destruct g as [|c g]; [done|]. simpl in Hline, Hnone.
  apply andb_true_iff in Hline as [Hc Hline].
  unfold not_line_terminator in Hc. apply negb_true_iff in Hc.
  assert (Hat : marker_at ("__PHASE_STATUS__" +:+ String c g +:+ "__" +:+ after)
                = Some (String c g)).
  { unfold marker_at.
    change (starts_with "__PHASE_STATUS__"
              ("__PHASE_STATUS__" +:+ String c g +:+ "__" +:+ after)) with true.
    change (slice_from 16 ("__PHASE_STATUS__" +:+ String c g +:+ "__" +:+ after))
      with (String c (g +:+ "__" +:+ after)).
    cbv iota. rewrite Hc. by rewrite lazy_group_read. }
  change (phase_marker ("__PHASE_STATUS__" +:+ String c g +:+ "__" +:+ after))
    with (match marker_at ("__PHASE_STATUS__" +:+ String c g +:+ "__" +:+ after) with
          | Some g => Some g
          | None => phase_marker ("_PHASE_STATUS__" +:+ String c g +:+ "__" +:+ after)
          end).
  by rewrite Hat.
Qed.

Lemma underscore_split (a a' b b' : string) :
  every not_underscore a = true -> every not_underscore a' = true ->
  a +:+ "_" +:+ b = a' +:+ "_" +:+ b' -> a = a' /\ b = b'.
Proof.
  revert a'. induction a as [|c a IH]; intros [|c' a'] Ha Ha';
    change ("" +:+ "_" +:+ b) with (String "_" b);
    change ("" +:+ "_" +:+ b') with (String "_" b');
    rewrite ?append_cons; intros Heq; simpl in Ha, Ha'.
  - by injection Heq as ->.
  - injection Heq as <- _. by apply andb_true_iff in Ha' as [Hc' _].
  - injection Heq as -> _. by apply andb_true_iff in Ha as [Hc _].
  - injection Heq as -> Hrest.
    apply andb_true_iff in Ha as [_ Ha]. apply andb_true_iff in Ha' as [_ Ha'].
    by destruct (IH a' Ha Ha' Hrest) as [-> ->].
Qed.

End MarkerLemmas.

(** X22. What the marker pattern reads. The text it extracts is not
    empty, lies on one line, and after its first code unit holds no double
    underscore, not even one made with the underscore that ends it: the
    marker data are never read past a double underscore. The content holds
    the marker text around it. Conversely every such text is read back from a
    marker written at the head of a content, whatever follows it. *)
Theorem phase_marker_round_trip (content group : string) :
  (phase_marker content = Some group ->
   readableGroup group = true
   /\ exists before after,
        content = before +:+ "__PHASE_STATUS__" +:+ group +:+ "__" +:+ after)
  /\ (readableGroup group = true ->
      forall after,
        phase_marker ("__PHASE_STATUS__" +:+ group +:+ "__" +:+ after) = Some group)
  /\ (phase_marker content = None ->
      forall index m, msg_content m = ContentString content ->
        statusRecordOf index m = None /\ phaseRecordOf index m = None).
Proof.
  split; [apply phase_marker_Some|]. split.
  - intros Hg after. by apply phase_marker_read.
  - intros Hnone index m Hm. unfold statusRecordOf, phaseRecordOf, stringContent,
      extractStringFromMessageContent. rewrite Hm, Hnone.
    split; [done|]. destruct (msg_type m); try done.
    by destruct (isPhaseStatusMessage content).
Qed.

(** X23. The three readers of the phase marker agree on an agent
    message. The record the phase tracker keeps for it is made of the members
    [phase] and [status] of the marker [ChatMessage] parses, and there is one
    exactly when that marker is not [null]; so every message rendered as a
    phase status row is tracked. When the content of the message is a string,
    the loop that infers the running phase reads the same record. *)
Theorem marker_readers_agree (index : Z) (m : Message) :
  msg_type m = MAi ->
  phaseRecordOf index m
  = match phaseStatus m with
    | Some JNull | None => None
    | Some data => Some {| phase := member index "phase" data;
                           status := member index "status" data |}
    end
  /\ (truthy (phaseStatus m) = true -> exists r, phaseRecordOf index m = Some r)
  /\ (hasStringContent m = true -> statusRecordOf index m = phaseRecordOf index m).
Proof.
  intros Hai.
  assert (Hrecord : phaseRecordOf index m
    = match phaseStatus m with
      | Some JNull | None => None
      | Some data => Some {| phase := member index "phase" data;
                             status := member index "status" data |}
      end).
  { unfold phaseRecordOf, phaseStatus, parsePhaseStatus. rewrite Hai.
    destruct (phase_marker (extractStringFromMessageContent m)) as [g|] eqn:Hmarker.
    - rewrite (phase_marker_includes _ g Hmarker).
      by destruct (JSON_parse g) as [[]|].
    - by destruct (isPhaseStatusMessage _). }
  split; [done|]. split.
  - rewrite Hrecord. destruct (phaseStatus m) as [[]|]; simpl; try done; by eauto.
  - intros Hstring. symmetry. by apply statusRecordOf_agent.
Qed.

(** X24. Cache keys tell threads and messages apart as long as the
    thread part holds no underscore: two keys are then equal only when their
    thread parts are equal and their message parts are equal. (The thread
    part of a missing thread is [new], the message part of a missing
    identifier is [undefined].) *)
Theorem cache_keys_are_distinct (threadId threadId' id id' : option string) :
  every not_underscore (threadPart threadId) = true ->
  every not_underscore (threadPart threadId') = true ->
  cachedKeyOf threadId id = cachedKeyOf threadId' id' ->
  threadPart threadId = threadPart threadId' /\ idPart id = idPart id'.
Proof.
  intros Hthread Hthread' Hkey. by apply underscore_split.
Qed.

(** ** Tool results over the whole derivation *)

Section ResultLemmas.

Variable skip : gset Z.
Variable interrupt : bool.
Variable random : nat -> string.

Lemma toolCallsWithStatus_fresh (raws : list RawToolCall) : forall n,
  Forall (fun tc => tc_result tc = None)
         (toolCallsWithStatus interrupt random n raws).1.
Proof.
  induction raws as [|t rest IH]; intros n; simpl; [done|].
  destruct (toToolCall interrupt random n t) as [tc n1] eqn:Htc.
  specialize (IH n1).
  destruct (toolCallsWithStatus interrupt random n1 rest) as [tcs n2].
  simpl in *. constructor; [|done].
  unfold toToolCall in Htc. destruct (truthy_str (raw_id t)); by injection Htc as <- _.
Qed.

Lemma toolCallsWithStatus_ids (raws : list RawToolCall) (raw : RawToolCall) (t : string) :
  raw ∈ raws -> raw_id raw = Some t -> t <> "" ->
  forall n, exists tc, tc ∈ (toolCallsWithStatus interrupt random n raws).1
                       /\ tc_id tc = t.
Proof.
  intros Hin Hid Ht. induction raws as [|x rest IH]; intros n.
  - by apply elem_of_nil in Hin.
  - simpl. destruct (toToolCall interrupt random n x) as [tc n1] eqn:Htc.
    destruct (toolCallsWithStatus interrupt random n1 rest) as [tcs n2] eqn:Hrest.
    simpl. apply elem_of_cons in Hin as [<-|Hin].
    + exists tc. split; [by left|].
      unfold toToolCall in Htc. rewrite Hid in Htc. simpl in Htc.
      destruct (String.eqb_spec t ""); [done|]. simpl in Htc. by injection Htc as <- _.
    + destruct (IH Hin n1) as (tc' & Hin' & Hid'). rewrite Hrest in Hin'.
      exists tc'. split; [by right|done].
Qed.

Lemma map_set_Forall_all (Q : option string * Entry -> Prop) (key : option string)
    (v : Entry) (m : list (option string * Entry)) :
  Q (key, v) -> Forall Q m -> Forall Q (map_set key v m).
Proof.
  intros Hnew. induction m as [|[k' old] m IH]; simpl; intros Hall.
  - by constructor.
  - apply Forall_cons in Hall as [Hhere Hrest]. case_bool_decide as Hk.
    + subst. by constructor.
    + constructor; [done|by apply IH].
Qed.

(** The tool call that [applyToolResult] replaces has the identifier. *)
Lemma applyToolResult_Forall_id (Q : option string * Entry -> Prop) (c result : string)
    (m : list (option string * Entry)) :
  (forall k data i tc, toolCalls data !! i = Some tc -> tc_id tc = c -> Q (k, data) ->
     Q (k, {| message := message data;
              toolCalls := alter (complete result) i (toolCalls data) |})) ->
  Forall Q m -> Forall Q (applyToolResult c result m).
Proof.
  intros Hstep. induction m as [|[k data] m IH]; simpl; [done|].
  rewrite Forall_cons. intros [Hhere Hrest].
  destruct (findIndex (has_id c) (toolCalls data)) as [i|] eqn:Hfind.
  - constructor; [|done].
    apply findIndex_Some in Hfind as (tc & Hi & Hid).
    apply (Hstep k data i tc); [done| |done]. by apply String.eqb_eq in Hid.
  - constructor; [done|by apply IH].
Qed.

Lemma processMessage_results (all : list Message) (st : PassState) (index : Z)
    (m : Message) :
  m ∈ all ->
  Forall (fun e : option string * Entry => Forall (resultFrom all) (toolCalls e.2)) st.1 ->
  Forall (fun e : option string * Entry => Forall (resultFrom all) (toolCalls e.2))
         (processMessage skip interrupt random st index m).1.
Proof.
  intros Hin Hall. unfold processMessage. case_bool_decide; [done|].
  destruct (msg_type m) eqn:Htype.
  - simpl. apply map_set_Forall_all; [by constructor|done].
  - pose proof (toolCallsWithStatus_fresh (toolCallsInMessage m) st.2) as Hfresh.
    destruct (toolCallsWithStatus interrupt random st.2 (toolCallsInMessage m))
      as [calls n']. simpl in *.
    apply map_set_Forall_all; [|done]. simpl.
    eapply Forall_impl; [exact Hfresh|]. intros tc Hnone result Hsome. congruence.
  - destruct (tool_call_id m) as [c|] eqn:Hc; simpl; [|done].
    destruct (String.eqb_spec c ""); simpl; [done|].
    apply applyToolResult_Forall_id; [|done]. simpl.
    intros k data i tc Hi Hid Hdata.
    rewrite list.Forall_forall in Hdata |- *. intros tc' Htc'.
    apply list_elem_of_lookup in Htc' as [j Hj].
    destruct (decide (i = j)) as [<-|Hne].
    + rewrite list_lookup_alter_eq, Hi in Hj. injection Hj as <-.
      intros result' [= <-]. exists m. simpl. by rewrite Hid.
    + rewrite list_lookup_alter_ne in Hj by done.
      apply Hdata. by eapply list_elem_of_lookup_2.
  - done.
Qed.

Lemma secondPass_results (all rest : list Message) : forall st index,
  (forall m, m ∈ rest -> m ∈ all) ->
  Forall (fun e : option string * Entry => Forall (resultFrom all) (toolCalls e.2)) st.1 ->
  Forall (fun e : option string * Entry => Forall (resultFrom all) (toolCalls e.2))
         (secondPass skip interrupt random st index rest).1.
Proof.
  induction rest as [|m rest IH]; intros st index Hsub Hall; [done|].
  simpl. apply IH; [intros x Hx; apply Hsub; by right|].
  apply processMessage_results; [apply Hsub; by left|done].
Qed.

(** *** Message maps that continue one another *)

Lemma advances_trans (a b c : ToolCall) : advances a b -> advances b c -> advances a c.
Proof. intros [Hid Hst] [Hid' Hst']. split; [congruence|by eauto]. Qed.

Lemma entries_advance_trans (a b c : option string * Entry) :
  entries_advance a b -> entries_advance b c -> entries_advance a c.
Proof.
  intros [Hk Hcalls] [Hk' Hcalls']. split; [congruence|].
  revert Hcalls'. generalize (toolCalls c.2). revert Hcalls.
  generalize (toolCalls b.2). generalize (toolCalls a.2).
  induction l as [|x l IH]; intros l1 H1 l2 H2.
  - apply Forall2_nil_inv_l in H1 as ->. by apply Forall2_nil_inv_l in H2 as ->.
  - apply Forall2_cons_inv_l in H1 as (y & l1' & Hxy & Hl & ->).
    apply Forall2_cons_inv_l in H2 as (z & l2' & Hyz & Hl' & ->).
    constructor; [by eapply advances_trans|by eapply IH].
Qed.

Lemma continues_refl (m : list (option string * Entry)) : continues m m.
Proof.
  exists m, []. split; [by rewrite app_nil_r|apply entries_advance_refl].
Qed.

Lemma continues_trans (a b c : list (option string * Entry)) :
  continues a b -> continues b c -> continues a c.
Proof.
  intros (kb & mb & -> & Hab) (kc & mc & -> & Hbc).
  apply Forall2_app_inv_l in Hbc as (kc1 & kc2 & Hk1 & Hk2 & ->).
  exists kc1, (kc2 ++ mc). split; [by rewrite app_assoc|].
  revert kc1 Hk1. clear Hk2. induction Hab as [|x y l l' Hxy Hl IH]; intros kc1 Hk1.
  - by apply Forall2_nil_inv_l in Hk1 as ->.
  - apply Forall2_cons_inv_l in Hk1 as (z & k' & Hyz & Hk' & ->).
    constructor; [by eapply entries_advance_trans|by apply IH].
Qed.

Lemma continues_holdsCall (t : string) (a b : list (option string * Entry)) :
  continues a b -> holdsCall t a -> holdsCall t b.
Proof.
  intros (kept & more & -> & Hadv) (e & He & tc & Htc & Hid).
  apply list_elem_of_lookup in He as [i Hi].
  destruct (Forall2_lookup_l _ _ _ _ _ Hadv Hi) as (e' & Hi' & _ & Hcalls).
  apply list_elem_of_lookup in Htc as [j Hj].
  destruct (Forall2_lookup_l _ _ _ _ _ Hcalls Hj) as (tc' & Hj' & Hsame & _).
  exists e'. split.
  - apply elem_of_app. left. by eapply list_elem_of_lookup_2.
  - exists tc'. split; [by eapply list_elem_of_lookup_2|congruence].
Qed.

Lemma continues_holdsCompleted (t : string) (a b : list (option string * Entry)) :
  continues a b -> holdsCompleted t a -> holdsCompleted t b.
Proof.
  intros (kept & more & -> & Hadv) (e & tc & He & Htc & Hid & Hdone).
  apply list_elem_of_lookup in He as [i Hi].
  destruct (Forall2_lookup_l _ _ _ _ _ Hadv Hi) as (e' & Hi' & _ & Hcalls).
  apply list_elem_of_lookup in Htc as [j Hj].
  destruct (Forall2_lookup_l _ _ _ _ _ Hcalls Hj) as (tc' & Hj' & Hsame & Hstays).
  exists e', tc'. split; [|split; [|split]].
  - apply elem_of_app. left. by eapply list_elem_of_lookup_2.
  - by eapply list_elem_of_lookup_2.
  - congruence.
  - by apply Hstays.
Qed.

Lemma applyToolResult_completes (t result : string) (m : list (option string * Entry)) :
  holdsCall t m -> holdsCompleted t (applyToolResult t result m).
Proof.
  induction m as [|[k data] m IH]; intros (e & He & Hholds).
  - by apply elem_of_nil in He.
  - simpl. destruct (findIndex (has_id t) (toolCalls data)) as [i|] eqn:Hfind.
    + apply findIndex_Some in Hfind as (tc & Hi & Hid). apply String.eqb_eq in Hid.
      eexists _, (complete result tc). split; [by left|]. simpl. split; [|done].
      apply list_elem_of_lookup. exists i. by rewrite list_lookup_alter_eq, Hi.
    + apply elem_of_cons in He as [->|He].
      { by apply (not_holds_id t (k, data)) in Hfind. }
      destruct IH as (e' & tc & He' & Htc); [by exists e|].
      exists e', tc. split; [by right|done].
Qed.

Lemma processMessage_continues (st : PassState) (index : Z) (m : Message) :
  (forall x, x ∈ visibleFrom skip index [m] -> msg_id x ∉ map fst st.1) ->
  continues st.1 (processMessage skip interrupt random st index m).1.
Proof.
  unfold processMessage. simpl visibleFrom.
  case_bool_decide as Hskip; [intros _; apply continues_refl|].
  unfold isShownType. destruct (msg_type m) eqn:Htype; simpl; intros Hnew.
  - rewrite map_set_new by (apply Hnew; by left).
    eexists _, _. split; [done|apply entries_advance_refl].
  - destruct (toolCallsWithStatus interrupt random st.2 (toolCallsInMessage m))
      as [calls n']. simpl.
    rewrite map_set_new by (apply Hnew; by left).
    eexists _, _. split; [done|apply entries_advance_refl].
  - destruct (truthy_str (tool_call_id m)); simpl; [|apply continues_refl].
    eexists _, []. split; [by rewrite app_nil_r|apply completed_stays_completed].
  - apply continues_refl.
Qed.

Lemma secondPass_continues (rest : list Message) : forall st index,
  NoDup (map fst st.1 ++ map msg_id (visibleFrom skip index rest)) ->
  continues st.1 (secondPass skip interrupt random st index rest).1.
Proof.
  induction rest as [|m rest IH]; intros st index Hnd; [apply continues_refl|].
  rewrite visibleFrom_cons, map_app, app_assoc in Hnd.
  assert (Hnew : forall x, x ∈ visibleFrom skip index [m] -> msg_id x ∉ map fst st.1).
  { intros x Hx Hin. apply NoDup_app in Hnd as [Hnd _].
    apply NoDup_app in Hnd as (_ & Hdisjoint & _).
    apply (Hdisjoint (msg_id x)); [done|]. apply list_elem_of_fmap. by exists x. }
  destruct (processMessage_order skip interrupt random st index m Hnew) as [Hkeys _].
  simpl secondPass. eapply continues_trans.
  - by apply processMessage_continues.
  - apply IH. by rewrite Hkeys.
Qed.

(** The tail of the pass keeps the identifiers apart when the whole pass
    does. *)
Lemma secondPass_tail (st : PassState) (index : Z) (m : Message) (rest : list Message) :
  NoDup (map fst st.1 ++ map msg_id (visibleFrom skip index (m :: rest))) ->
  (forall x, x ∈ visibleFrom skip index [m] -> msg_id x ∉ map fst st.1)
  /\ NoDup (map fst (processMessage skip interrupt random st index m).1
            ++ map msg_id (visibleFrom skip (index + 1) rest)).
Proof.
  intros Hnd. rewrite visibleFrom_cons, map_app, app_assoc in Hnd.
  assert (Hnew : forall x, x ∈ visibleFrom skip index [m] -> msg_id x ∉ map fst st.1).
  { intros x Hx Hin. apply NoDup_app in Hnd as [Hnd _].
    apply NoDup_app in Hnd as (_ & Hdisjoint & _).
    apply (Hdisjoint (msg_id x)); [done|]. apply list_elem_of_fmap. by exists x. }
  split; [done|].
  destruct (processMessage_order skip interrupt random st index m Hnew) as [Hkeys _].
  by rewrite Hkeys.
Qed.

Lemma secondPass_answers (t : string) (rest : list Message) : forall st index jr r,
  NoDup (map fst st.1 ++ map msg_id (visibleFrom skip index rest)) ->
  holdsCall t st.1 ->
  rest !! jr = Some r -> (index + Z.of_nat jr ∉ skip) ->
  msg_type r = MTool -> tool_call_id r = Some t -> t <> "" ->
  holdsCompleted t (secondPass skip interrupt random st index rest).1.
Proof.
  induction rest as [|m rest IH]; intros st index jr r Hnd Hcall Hr Hskip Htool Hid Ht;
    [done|].
  destruct (secondPass_tail st index m rest Hnd) as [Hnew Hnd'].
  simpl secondPass. destruct jr as [|jr].
  - injection Hr as ->. rewrite Z.add_0_r in Hskip.
    eapply continues_holdsCompleted; [by apply secondPass_continues|].
    unfold processMessage. rewrite bool_decide_eq_false_2 by done.
    rewrite Htool, Hid. simpl. destruct (String.eqb_spec t ""); [done|]. simpl.
    by apply applyToolResult_completes.
  - apply (IH _ _ jr r); try done.
    + eapply continues_holdsCall; [by apply processMessage_continues|done].
    + by replace (index + 1 + Z.of_nat jr) with (index + Z.of_nat (S jr)) by lia.
Qed.

Lemma secondPass_calls_then_answers (t : string) (raw : RawToolCall)
    (rest : list Message) : forall st index ia a jr r,
  NoDup (map fst st.1 ++ map msg_id (visibleFrom skip index rest)) ->
  rest !! ia = Some a -> msg_type a = MAi -> (index + Z.of_nat ia ∉ skip) ->
  raw ∈ toolCallsInMessage a -> raw_id raw = Some t -> t <> "" ->
  rest !! jr = Some r -> (ia < jr)%nat -> (index + Z.of_nat jr ∉ skip) ->
  msg_type r = MTool -> tool_call_id r = Some t ->
  holdsCompleted t (secondPass skip interrupt random st index rest).1.
Proof.
  induction rest as [|m rest IH];
    intros st index ia a jr r Hnd Ha Hai Hvisible Hraw Hid Ht Hr Hlt Hskip Htool Href;
    [done|].
  destruct (secondPass_tail st index m rest Hnd) as [Hnew Hnd'].
  simpl secondPass. destruct jr as [|jr]; [lia|]. simpl in Hr.
  destruct ia as [|ia].
  - injection Ha as ->. rewrite Z.add_0_r in Hvisible.
    apply (secondPass_answers t rest _ _ jr r); try done.
    + unfold processMessage. rewrite bool_decide_eq_false_2 by done. rewrite Hai.
      destruct (toolCallsWithStatus_ids (toolCallsInMessage a) raw t Hraw Hid Ht st.2)
        as (tc & Htc & Htcid).
      destruct (toolCallsWithStatus interrupt random st.2 (toolCallsInMessage a))
        as [calls n']. simpl in Htc |- *.
      rewrite map_set_new.
      * exists (msg_id a, {| message := a; toolCalls := calls |}). split.
        -- apply elem_of_app. right. by left.
        -- by exists tc.
      * apply Hnew. simpl. rewrite bool_decide_eq_false_2 by done.
        unfold isShownType. rewrite Hai. by left.
    + by replace (index + 1 + Z.of_nat jr) with (index + Z.of_nat (S jr)) by lia.
  - simpl in Ha. apply (IH _ _ ia a jr r); try done; try lia.
    + by replace (index + 1 + Z.of_nat ia) with (index + Z.of_nat (S ia)) by lia.
    + by replace (index + 1 + Z.of_nat jr) with (index + Z.of_nat (S jr)) by lia.
Qed.

End ResultLemmas.

(** X25. No result is invented or attached to the wrong identifier:
    whenever a tool call of the derivation has a result, that result is the
    text of a tool message of the list whose [tool_call_id] is the identifier
    of the tool call. *)
Theorem results_come_from_tool_messages (messages : list Message) (interrupt : bool)
    (random : nat -> string) (i k : nat) (d : Processed) (tc : ToolCall)
    (result : string) :
  processedMessages messages interrupt random !! i = Some d ->
  p_toolCalls d !! k = Some tc ->
  tc_result tc = Some result ->
  exists m, m ∈ messages /\ msg_type m = MTool
            /\ tool_call_id m = Some (tc_id tc)
            /\ extractStringFromMessageContent m = result.
Proof.
  intros Hd Htc Hresult.
  apply processedMessages_lookup in Hd as (e & He & _ & Hcalls).
  rewrite Hcalls in Htc.
  assert (Hall : Forall (fun e : option string * Entry =>
                           Forall (resultFrom messages) (toolCalls e.2))
                        (messageMap messages interrupt random)).
  { unfold messageMap. apply secondPass_results; [done|by constructor]. }
  rewrite list.Forall_forall in Hall.
  assert (Hin : e ∈ messageMap messages interrupt random)
    by (by eapply list_elem_of_lookup_2).
  specialize (Hall e Hin). rewrite list.Forall_forall in Hall.
  apply (Hall tc); [by eapply list_elem_of_lookup_2|done].
Qed.

(** X26. A tool call that is answered later in the stream is shown
    completed. When the visible messages have identifiers that differ, and a
    visible agent message holds a tool call with a non-empty identifier that
    a later tool message refers to, then the derivation holds a completed
    tool call with that identifier. *)
Theorem answered_tool_call_is_completed (messages : list Message) (interrupt : bool)
    (random : nat -> string) (i j : nat) (a r : Message) (raw : RawToolCall)
    (t : string) :
  NoDup (map msg_id (visibleMessages messages)) ->
  messages !! i = Some a -> msg_type a = MAi ->
  Z.of_nat i ∉ skipIndices messages ->
  raw ∈ toolCallsInMessage a -> raw_id raw = Some t -> t <> "" ->
  messages !! j = Some r -> (i < j)%nat ->
  msg_type r = MTool -> tool_call_id r = Some t ->
  exists d tc,
    d ∈ processedMessages messages interrupt random
    /\ tc ∈ p_toolCalls d /\ tc_id tc = t /\ tc_status tc = completed.
Proof.
  intros Hnd Ha Hai Hvisible Hraw Hid Ht Hr Hlt Htool Href.
  assert (Hskip : Z.of_nat j ∉ skipIndices messages).
  { intros Hin. apply skipIndices_agent in Hin as (_ & m & Hm & Hty).
    rewrite Nat2Z.id in Hm. congruence. }
  destruct (secondPass_calls_then_answers (skipIndices messages) interrupt random
              t raw messages ([], O) 0 i a j r) as (e & tc & He & Htc & Htcid & Hdone);
    try done.
  apply list_elem_of_lookup in He as [n Hn].
  assert (Hlen : (n < length (processedMessages messages interrupt random))%nat).
  { unfold processedMessages.
    destruct (withAvatars_messages (map snd (messageMap messages interrupt random)) None)
      as [Hlen _].
    apply (f_equal length) in Hlen. rewrite !length_map in Hlen. rewrite Hlen.
    by eapply lookup_lt_Some. }
  apply lookup_lt_is_Some in Hlen as [d Hd].
  destruct (processedMessages_lookup messages interrupt random n d Hd)
    as (e' & He' & _ & Hcalls).
  unfold messageMap in He'. rewrite Hn in He'. injection He' as <-.
  exists d, tc. split; [by eapply list_elem_of_lookup_2|]. by rewrite Hcalls.
Qed.

End Reconciliation.

(** * The properties at sample inputs *)

(** Decides a closed decidable proposition by evaluation. *)
Ltac by_evaluation := apply (bool_decide_unpack _); vm_compute; exact I.

(** C1, as stated, fails. In [restartedPhase] the earliest started record of
    phase 1 is at index 0 and the specification pairs it with the completion
    at 3, but the tracker pairs the last started record, at 2: the messages
    at 0 and 1 stay visible. In [failedPhase] the phase ends with an error
    record, which the specification counts as resolving it; the tracker does
    not, and hides nothing. *)
Lemma pairing_differs :
  spec_pairing (phaseStatusIndices JSONText.parse restartedPhase) (VNumber 1)
    = Some (0, 3)
  /\ phasePair (phaseStatusArray JSONText.parse restartedPhase) (VNumber 1) = (2, 3)
  /\ elements (skipIndices JSONText.parse restartedPhase) = [2]
  /\ spec_pairing (phaseStatusIndices JSONText.parse failedPhase) (VNumber 1)
       = Some (0, 1)
  /\ completedPhases JSONText.parse failedPhase = []
  /\ elements (skipIndices JSONText.parse failedPhase) = [].
Proof. repeat split; vm_compute; reflexivity. Qed.

(** In Scenario A the tracker pairs the started marker at index 1 with the
    completed marker at index 3. *)
Lemma phase_pairing_witness :
  latest (phaseStatusIndices JSONText.parse scenarioA) (VNumber 1) "started" 1
  /\ latest (phaseStatusIndices JSONText.parse scenarioA) (VNumber 1) "completed" 3.
Proof.
  destruct (phase_pairing JSONText.parse scenarioA (VNumber 1))
    as (_ & _ & Hstarted & Hcompleted & _).
  split; [exact Hstarted | exact Hcompleted].
Defined.

(** In Scenario A the started marker and the narrative message are hidden and
    the completed marker is not. *)
Lemma skip_set_of_paired_phase_witness :
  VNumber 1 ∈ completedPhases JSONText.parse scenarioA
  /\ phasePair (phaseStatusArray JSONText.parse scenarioA) (VNumber 1) = (1, 3)
  /\ 1 ∈ skipIndices JSONText.parse scenarioA
  /\ 2 ∈ skipIndices JSONText.parse scenarioA
  /\ 3 ∉ skipIndices JSONText.parse scenarioA.
Proof.
  assert (Hp : VNumber 1 ∈ completedPhases JSONText.parse scenarioA) by by_evaluation.
  assert (Hpair : phasePair (phaseStatusArray JSONText.parse scenarioA) (VNumber 1)
                  = (1, 3)) by (vm_compute; reflexivity).
  destruct (skip_set_of_paired_phase JSONText.parse scenarioA (VNumber 1) 1 3 Hp Hpair)
    as (Hi & Hbetween & _ & Hj & _); [lia|].
  split; [exact Hp|]. split; [exact Hpair|]. split; [exact Hi|]. split.
  - apply (Hbetween 2 (text_message "m2" MAi "working...")); [lia | reflexivity..].
  - by_evaluation.
Defined.

(** C2, as stated, fails. In [nestedPhases] the started marker of phase 2 at
    index 1 is paired with its completed marker at index 2, and yet the
    message at 2 is hidden: it is a text-only agent message inside the range
    of phase 1. In [startedAgain] the started record at index 2 has no later
    completed record, and yet index 2 is hidden. *)
Lemma completed_marker_hidden :
  VNumber 2 ∈ completedPhases JSONText.parse nestedPhases
  /\ phasePair (phaseStatusArray JSONText.parse nestedPhases) (VNumber 2) = (1, 2)
  /\ 2 ∈ skipIndices JSONText.parse nestedPhases
  /\ phasePair (phaseStatusArray JSONText.parse startedAgain) (VNumber 1) = (2, 1)
  /\ 2 ∈ skipIndices JSONText.parse startedAgain.
Proof.
  split; [by_evaluation|]. split; [vm_compute; reflexivity|].
  split; [by_evaluation|]. split; [vm_compute; reflexivity|]. by_evaluation.
Qed.




(** Scenario B: the result completes the tool call. *)
Lemma tool_result_correlation_witness :
  processMessage (skipIndices JSONText.parse duplicateResult) false (always "0.5")
                 afterCall 1 (tool_result "r1" "t1" "3 results")
  = ([(Some "m1", {| message := calling_message "m1" "" [call "t1" "search"];
                     toolCalls := [complete "3 results" searchCall] |})], O).
Proof.
  destruct (tool_result_correlation JSONText.parse duplicateResult false
              (always "0.5") afterCall 1 (tool_result "r1" "t1" "3 results"))
    as (_ & _ & Hfirst); [lia | reflexivity | reflexivity |].
  apply (Hfirst [] (Some "m1")
           {| message := calling_message "m1" "" [call "t1" "search"];
              toolCalls := [searchCall] |} [] [] searchCall []);
    try reflexivity.
  - intros e He. by apply elem_of_nil in He.
  - intros tc He. by apply elem_of_nil in He.
Defined.

(** C3, as stated, fails. After the first result of [duplicateResult] the
    only tool call with identifier [t1] is completed, with result
    ["3 results"]: the second result matches no open tool call. It is applied
    all the same and replaces the result. In [reusedIdentifier] the second
    result should complete the open tool call of the second message; it is
    applied to the completed tool call of the first message, and the open one
    stays pending. (A result that matches no tool call at all, as in
    Scenario C, changes nothing.) *)
Lemma duplicate_result_overwrites :
  map (fun e : option string * Entry => map shown (toolCalls e.2))
      (messageMap JSONText.parse (take 2 duplicateResult) false (always "0.5"))
    = [[("search", JObject [], Some "3 results", completed)]]
  /\ map (fun e : option string * Entry => map shown (toolCalls e.2))
         (messageMap JSONText.parse duplicateResult false (always "0.5"))
       = [[("search", JObject [], Some "late duplicate", completed)]]
  /\ map (fun e : option string * Entry => map shown (toolCalls e.2))
         (messageMap JSONText.parse reusedIdentifier false (always "0.5"))
       = [[("search", JObject [], Some "second answer", completed)];
          [("search", JObject [], None, pending)]]
  /\ map (fun e : option string * Entry => map shown (toolCalls e.2))
         (messageMap JSONText.parse strayResult false (always "0.5"))
       = [[("search", JObject [], None, pending)]].
Proof. repeat split; vm_compute; reflexivity. Qed.

(** C4 at the failing input. Two shapes of [shadowedCalls] are non-empty, the
    first-class array and the content blocks, and the first non-empty one
    should win. The structured array is present and empty, so it wins instead
    and no tool call is derived, although the hiding loop counts the message
    as one with tool calls; the result that answers the tool call is then
    dropped. *)
Lemma empty_shape_shadows_calls :
  toolCallsInMessage shadowedCalls = []
  /\ hasToolCalls shadowedCalls = true
  /\ map p_toolCalls
         (processedMessages JSONText.parse
            [shadowedCalls; tool_result "r1" "t1" "3 results"] false (always "0.5"))
     = [[]].
Proof. repeat split; vm_compute; reflexivity. Qed.

(** Two derivations of [duplicateResult] with different random numbers show
    the same. *)
Lemma derivation_repeatable_witness :
  statuses (processedMessages JSONText.parse duplicateResult false (always "0.5"))
  = statuses (processedMessages JSONText.parse duplicateResult false (always "0.25")).
Proof.
  apply (derivation_repeatable JSONText.parse duplicateResult false
           (always "0.5") (always "0.25"));
    apply unanswered_unguessed; reflexivity.
Defined.

(** C5, as stated, fails. The tool call of [guessedIdentifier] has no
    identifier, so the derivation names it [tool-] followed by a random
    number. When [Math.random()] gives 0.5 the tool result of the list matches
    it and the tool call is completed; when it gives 0.25 the tool call stays
    pending. *)
Lemma random_identifier_answered :
  map (fun d => map tc_status (p_toolCalls d))
      (processedMessages JSONText.parse guessedIdentifier false (always "0.5"))
    = [[completed]]
  /\ map (fun d => map tc_status (p_toolCalls d))
         (processedMessages JSONText.parse guessedIdentifier false (always "0.25"))
       = [[pending]].
Proof. split; vm_compute; reflexivity. Qed.



(** Scenario D: the one item has no [full] member and is dropped, the batch
    has fewer than 3 valid items, and the default set of 20 entries is
    returned. *)
Lemma scenarioD_defaults :
  generateSuggestionsWithLLM JSONText.parse openaiConfig scenarioD "transcript"
  = Returned DEFAULT_SUGGESTIONS
  /\ length DEFAULT_SUGGESTIONS = 20%nat.
Proof. split; vm_compute; reflexivity. Qed.

(** * The further properties at sample inputs *)


(** The completed row of Scenario A can be expanded. *)
Lemma details_make_row_expandable_witness :
  phaseDetails JSONText.parse summaryRow scenarioA = Some "working..."
  /\ exists data,
       phaseStatus JSONText.parse summaryRow = Some data
       /\ canExpand data (phaseDetails JSONText.parse summaryRow scenarioA) = true.
Proof.
  assert (H : phaseDetails JSONText.parse summaryRow scenarioA = Some "working...")
    by (vm_compute; reflexivity).
  split; [exact H|].
  destruct (details_make_row_expandable JSONText.parse summaryRow scenarioA
              "working..." H) as (_ & (data & Hdata & _ & Hexpand) & _).
  exists data. split; [exact Hdata | exact Hexpand].
Defined.

(** In [secondPhaseRunning] phase 2 is the running phase, and the tracker
    has not completed it. *)
Lemma running_phase_is_not_folded_witness :
  inferredCurrentPhase JSONText.parse true secondPhaseRunning = Some (VNumber 2)
  /\ VNumber 2 ∉ completedPhases JSONText.parse secondPhaseRunning.
Proof.
  assert (H : inferredCurrentPhase JSONText.parse true secondPhaseRunning
              = Some (VNumber 2)) by (vm_compute; reflexivity).
  split; [exact H|].
  exact (proj1 (running_phase_is_not_folded JSONText.parse secondPhaseRunning
                  (VNumber 2) eq_refl H)).
Defined.

(** The task list while phase 2 is running: the pending todo of the phase is
    shown in progress, and a list without it gets it added under the name of
    the phase. *)
Lemma running_phase_in_task_list :
  map todo_status
      (displayTodos digitText backendTodos
         (inferredCurrentPhase JSONText.parse true secondPhaseRunning) true)
  = ["completed"; "in_progress"]
  /\ displayTodos digitText []
       (inferredCurrentPhase JSONText.parse true secondPhaseRunning) true
     = [{| todo_id := "phase_2"; todo_content := "Historical Trends";
           todo_status := "in_progress" |}].
Proof. split; vm_compute; reflexivity. Qed.

(** The tool call of [duplicateResult] after its two results. *)
Lemma derived_tool_calls_are_well_formed_witness :
  processedMessages JSONText.parse duplicateResult false (always "0.5") !! 0%nat
  = Some answeredCall
  /\ map nameAndArgs (p_toolCalls answeredCall) = [("search", JObject [])].
Proof.
  assert (H : processedMessages JSONText.parse duplicateResult false (always "0.5")
              !! 0%nat = Some answeredCall) by (vm_compute; reflexivity).
  split; [exact H|].
  destruct (derived_tool_calls_are_well_formed JSONText.parse duplicateResult false
              (always "0.5") 0 answeredCall H) as (_ & _ & Hagent & _).
  exact (Hagent eq_refl).
Defined.

(** Scenario A shows its two visible messages. *)
Lemma distinct_ids_show_visible_messages_witness :
  map msg_id (visibleMessages JSONText.parse scenarioA) = [Some "m0"; Some "m3"]
  /\ map p_message (processedMessages JSONText.parse scenarioA false (always "0.5"))
     = visibleMessages JSONText.parse scenarioA.
Proof.
  split; [vm_compute; reflexivity|].
  apply (distinct_ids_show_visible_messages JSONText.parse scenarioA false
           (always "0.5")).
  by_evaluation.
Defined.


(** The end of the first turn is handled once: the generation that follows
    it is not repeated when the loading state changes again. *)
Lemma finished_turn_is_handled_once_witness :
  let h := onLoadingChange JSONText.parse (fun _ => "") None offline None oneTurn
                           false (freshHook, loadingRefs) in
  console h.1 = [GeneratingNew "new_m1"]
  /\ lastMessageIdRef h.2 = Some "m1"
  /\ (onLoadingChange JSONText.parse (fun _ => "") None offline None oneTurn false
        (onLoadingChange JSONText.parse (fun _ => "") None offline None oneTurn true
           h)).1 = h.1.
Proof.
  destruct (finished_turn_is_handled_once JSONText.parse (fun _ => "") None offline
              None oneTurn freshHook loadingRefs "m1")
    as (Href & _ & _ & _ & Hlater).
  - reflexivity.
  - discriminate.
  - reflexivity.
  - cbv zeta. split; [vm_compute; reflexivity|]. split; [exact Href|].
    exact (Hlater None offline None [true; false]).
Defined.



(** The default set Scenario D ends with has short labels and long prompts. *)
Lemma generated_suggestions_have_short_labels_witness :
  Forall (fun x => (String.length (short x) <= 30)%nat
                   /\ (15 <= length (split_ws (full x)))%nat) DEFAULT_SUGGESTIONS.
Proof.
  apply (generated_suggestions_have_short_labels JSONText.parse openaiConfig scenarioD
           "transcript" DEFAULT_SUGGESTIONS).
  vm_compute. reflexivity.
Defined.

(** The started marker of phase 1 is read alike by the three readers. *)
Lemma marker_readers_agree_witness :
  phaseRecordOf JSONText.parse 0 startedRow
  = Some {| phase := VNumber 1; status := VString "started" |}
  /\ statusRecordOf JSONText.parse 0 startedRow
     = phaseRecordOf JSONText.parse 0 startedRow.
Proof.
  destruct (marker_readers_agree JSONText.parse 0 startedRow eq_refl)
    as (Hrecord & _ & Hloop).
  split; [rewrite Hrecord; vm_compute; reflexivity|].
  exact (Hloop eq_refl).
Defined.

(** A conversation without thread and the thread named [new] share their
    keys, their thread parts being equal. *)
Lemma cache_keys_are_distinct_witness :
  cachedKeyOf None (Some "m1") = cachedKeyOf (Some "new") (Some "m1")
  /\ threadPart None = threadPart (Some "new").
Proof.
  split; [reflexivity|].
  exact (proj1 (cache_keys_are_distinct None (Some "new") (Some "m1") (Some "m1")
                  eq_refl eq_refl eq_refl)).
Defined.

(** The summary line of a task in Markdown, a report and its preview, and
    the marker text read from Scenario A. *)
Lemma samples_of_the_view :
  getTaskSummary markdownTask = "Research the *market* now"
  /\ htmlReports JSONText.parse
       [finishedCall "t1" "report" reportResult; finishedCall "t2" "search" "3 results"]
     = [{| report_id := "t1"; report_toolName := "report";
           report_title := JString "Audit";
           report_htmlContent := JString "<p>ok</p>" |}]
  /\ htmlContent JSONText.parse (finishedCall "t1" "report" reportResult)
     = JString "<p>ok</p>"
  /\ phase_marker (phaseMarker "1" "started" "")
     = Some ("{" +:+ quoted "phase" +:+ ":1," +:+ quoted "status" +:+ ":"
             +:+ quoted "started" +:+ "}").
Proof. repeat split; vm_compute; reflexivity. Qed.

(** The result shown for the tool call of [duplicateResult] is the text of
    one of its tool messages. *)
Lemma results_come_from_tool_messages_witness :
  exists m, m ∈ duplicateResult /\ msg_type m = MTool
            /\ tool_call_id m = Some "t1"
            /\ extractStringFromMessageContent m = "late duplicate".
Proof.
  apply (results_come_from_tool_messages JSONText.parse duplicateResult false
           (always "0.5") 0 0 answeredCall (complete "late duplicate" searchCall)
           "late duplicate").
  - vm_compute. reflexivity.
  - reflexivity.
  - reflexivity.
Defined.

(** The tool call of [duplicateResult] is answered by the message after it. *)
Lemma answered_tool_call_is_completed_witness :
  exists d tc,
    d ∈ processedMessages JSONText.parse duplicateResult false (always "0.5")
    /\ tc ∈ p_toolCalls d /\ tc_id tc = "t1" /\ tc_status tc = completed.
Proof.
  apply (answered_tool_call_is_completed JSONText.parse duplicateResult false
           (always "0.5") 0 1 (calling_message "m1" "" [call "t1" "search"])
           (tool_result "r1" "t1" "3 results") (call "t1" "search") "t1").
  - by_evaluation.
  - reflexivity.
  - reflexivity.
  - by_evaluation.
  - vm_compute. constructor.
  - reflexivity.
  - discriminate.
  - reflexivity.
  - lia.
  - reflexivity.
  - reflexivity.
Defined.
